(** * tools/load_and_utility_functions.py: coherent frequencies and the
      Cadence vcsv loader

    A shallow embedding of the two functions of
    [tools/load_and_utility_functions.py] that carry logic,
    [generate_coherent_frequencies] and [load_cadence_vcsv], with the
    library calls they are made of (numpy's elementwise operations on
    arrays that live in a store, [str.split], [str.strip], [re.match],
    [shlex.split], [int], [float], and the pandas frame operations).

    Layout: the Python and numpy layers first, then the two functions,
    then the theorems. *)

From Stdlib Require Import ZArith QArith Qround List String Ascii Bool Lia.
From Stdlib Require Import Decimal DecimalString DecimalPos DecimalZ.
From Stdlib Require Import Floats.SpecFloat.
From stdpp Require Import base option list.

(* ================================================================== *)
(** * Python exceptions and the result of a call *)
(* ================================================================== *)

(** The exceptions the modelled code can raise, with their messages.
    [StoreError] is not a Python exception: it marks a store in which
    an array names a buffer that does not exist, which no Python
    program can build; every theorem excludes it by a well-formedness
    hypothesis on its input.  [OutsideModel] is not one either: it
    marks a call that leaves the part of numpy that is modelled (see
    [np_asarray]), and the same hypothesis excludes it.  [OSError]
    stands for its subclasses as well ([FileNotFoundError],
    [PermissionError], ...). *)
Inductive exn :=
| IndexError (msg : string)
| KeyError (msg : string)
| ValueError (msg : string)
| TypeError (msg : string)
| OverflowError (msg : string)
| OSError (msg : string)
| UnicodeDecodeError (msg : string)
| StoreError
| OutsideModel (what : string).

Inductive result (A : Type) :=
| Ok (a : A)
| Raise (e : exn).
Arguments Ok {A} a.
Arguments Raise {A} e.

Definition exn_message (e : exn) : string :=
  match e with
  | IndexError m | KeyError m | ValueError m | TypeError m | OverflowError m
  | OSError m | UnicodeDecodeError m => m
  | StoreError | OutsideModel _ => EmptyString
  end.

(* ================================================================== *)
(** * binary64 *)
(* ================================================================== *)

(** Python's [float] and numpy's [float64] are IEEE 754 binary64.  The
    model is the Standard Library's executable specification of
    floating-point arithmetic at precision 53 and maximal exponent
    1024: every operation rounds to nearest, ties to even, exactly as
    the hardware does. *)
Module Float64.

Local Open Scope Z_scope.

Definition prec : Z := 53.
Definition emax : Z := 1024.

Definition float64 := spec_float.

Definition fdiv : float64 -> float64 -> float64 := SFdiv prec emax.
Definition fmul : float64 -> float64 -> float64 := SFmul prec emax.
Definition fltb : float64 -> float64 -> bool := SFltb.
Definition fleb : float64 -> float64 -> bool := SFleb.

(** Conversion of an integer, correctly rounded ([(double)k] in C,
    [float(k)] in Python). *)
Definition of_int (z : Z) : float64 := binary_normalize prec emax z 0 false.

Definition valid (x : float64) : bool := valid_binary prec emax x.

Definition is_finite (x : float64) : bool :=
  match x with
  | S754_zero _ | S754_finite _ _ _ => true
  | S754_infinity _ | S754_nan => false
  end.

(** The rational a finite float stands for ([0] for the others). *)
Definition F2Q (x : float64) : Q :=
  match x with
  | S754_finite s m e =>
      let a := if s then Z.neg m else Z.pos m in
      match e with
      | Z.neg k => Qmake a (Pos.pow 2 k)
      | _ => inject_Z (a * 2 ^ e)
      end
  | _ => 0%Q
  end.

(** [floor] of the value of a finite float, as an integer. *)
Definition floorZ (s : bool) (m : positive) (e : Z) : Z :=
  let a := if s then Z.neg m else Z.pos m in
  match e with
  | Z.neg k => a / Z.pos (Pos.pow 2 k)
  | _ => a * 2 ^ e
  end.

(** Truncation toward zero of the value of a finite float. *)
Definition truncZ (s : bool) (m : positive) (e : Z) : Z :=
  let a := if s then Z.neg m else Z.pos m in
  match e with
  | Z.neg k => Z.quot a (Z.pos (Pos.pow 2 k))
  | _ => a * 2 ^ e
  end.

(** C's [floor]: the largest integral float not above [x].  Floats
    with a non-negative exponent are integral already; the others are
    below [2^53] in magnitude, so that their floor is representable;
    zeros, infinities and NaN are returned as they are. *)
Definition floor (x : float64) : float64 :=
  match x with
  | S754_finite s m e =>
      if 0 <=? e then x
      else binary_normalize prec emax (floorZ s m e) 0 s
  | _ => x
  end.

End Float64.

Import Float64.

(* ================================================================== *)
(** * numpy arrays in a store *)
(* ================================================================== *)

Module Numpy.

Local Open Scope Z_scope.

(** ** int64 *)

Definition INT64_MIN : Z := - 2 ^ 63.
Definition INT64_MAX : Z := 2 ^ 63 - 1.

Definition in_int64 (z : Z) : bool := (INT64_MIN <=? z) && (z <=? INT64_MAX).

(** Two's complement wrap-around of int64 arithmetic. *)
Definition wrap64 (z : Z) : Z := (z + 2 ^ 63) mod 2 ^ 64 - 2 ^ 63.

(** The cast float64 -> int64 of [astype(int)] (a C cast, on x86-64
    the [cvttsd2si] instruction): truncation toward zero; NaN, the
    infinities and values out of range give the "integer indefinite"
    value [INT64_MIN]. *)
Definition float_to_int64 (x : float64) : Z :=
  match x with
  | S754_zero _ => 0
  | S754_finite s m e =>
      let z := truncZ s m e in
      if in_int64 z then z else INT64_MIN
  | S754_infinity _ | S754_nan => INT64_MIN
  end.

(** numpy's [gcd] inner loop on int64: the gcd of the magnitudes,
    computed on unsigned 64-bit integers and cast back. *)
Definition gcd64 (a b : Z) : Z := wrap64 (Z.gcd a b).

(** ** Buffers, arrays and the store *)

(** The data of an array: a flat, C-ordered buffer of one dtype.
    The dtypes are those the function builds itself (float64, int64,
    bool, and uint64 for a Python int from [2^63] on) and, for an array
    argument, dtypes that numpy converts to float64 when the array is
    divided by a Python float.  Arrays of the other dtypes are not
    modelled: float16 and float32 arrays, for which numpy computes
    [f_0 / fs * N] in the array's own precision (see
    [initial_cycles_float32]), complex arrays and arrays of Python
    objects. *)
Inductive buffer :=
| Float64Buf (xs : list float64)
| Int64Buf (ks : list Z)
| UInt64Buf (ks : list Z)
| BoolBuf (bs : list bool).

Definition buf_len (b : buffer) : nat :=
  match b with
  | Float64Buf xs => length xs
  | Int64Buf ks | UInt64Buf ks => length ks
  | BoolBuf bs => length bs
  end.

(** The store: every buffer that was allocated, by address. *)
Abbreviation store := (list buffer).

(** An ndarray object: the address of its buffer and its shape.  Two
    arrays with the same [base] are views of the same data. *)
Record ndarray := { base : nat; shape : list nat }.

Definition ndim (a : ndarray) : nat := length (shape a).
Definition size_of_shape (s : list nat) : nat := fold_right Nat.mul 1%nat s.
Definition size (a : ndarray) : nat := size_of_shape (shape a).

(** ** Computations on the store *)

Definition M (A : Type) : Type := store -> result (A * store).

Definition ret {A} (a : A) : M A := fun h => Ok (a, h).

Definition bind {A B} (c : M A) (k : A -> M B) : M B :=
  fun h =>
    match c h with
    | Ok (a, h') => k a h'
    | Raise e => Raise e
    end.

Definition raise {A} (e : exn) : M A := fun _ => Raise e.

Declare Scope np_scope.
Delimit Scope np_scope with np.
Notation "x <- c ;; k" := (bind c (fun x => k))
  (at level 100, c at next level, right associativity) : np_scope.
Notation "c ;;; k" := (bind c (fun _ => k))
  (at level 100, right associativity) : np_scope.
Local Open Scope np_scope.

Definition alloc (b : buffer) : M nat :=
  fun h => Ok (length h, h ++ [b]).

Definition load (l : nat) : M buffer :=
  fun h =>
    match h !! l with
    | Some b => Ok (b, h)
    | None => Raise StoreError
    end.

(** In-place write of a whole buffer. *)
Definition store_at (l : nat) (b : buffer) : M unit :=
  fun h =>
    match h !! l with
    | Some _ => Ok (tt, <[l := b]> h)
    | None => Raise StoreError
    end.

(** ** Elementwise operations *)

(** The float64 values of a buffer, as numpy's casts give them. *)
Definition as_float64 (b : buffer) : list float64 :=
  match b with
  | Float64Buf xs => xs
  | Int64Buf ks | UInt64Buf ks => map of_int ks
  | BoolBuf bs => map (fun b : bool => if b then of_int 1 else of_int 0) bs
  end.

Definition as_int64 (b : buffer) : list Z :=
  match b with
  | Float64Buf xs => map float_to_int64 xs
  | Int64Buf ks => ks
  | UInt64Buf ks => map wrap64 ks
  | BoolBuf bs => map (fun b : bool => if b then 1 else 0) bs
  end.

(** A unary operation that allocates its result. *)
Definition elementwise (f : buffer -> buffer) (a : ndarray) : M ndarray :=
  b <- load (base a) ;;
  l <- alloc (f b) ;;
  ret {| base := l; shape := shape a |}.

(** [a / x] for a Python number [x]: true division, in float64. *)
Definition np_true_divide (a : ndarray) (x : float64) : M ndarray :=
  elementwise (fun b => Float64Buf (map (fun v => fdiv v x) (as_float64 b))) a.

(** [a * x] for a Python number [x] and a float64 array. *)
Definition np_multiply (a : ndarray) (x : float64) : M ndarray :=
  elementwise (fun b => Float64Buf (map (fun v => fmul v x) (as_float64 b))) a.

Definition np_floor (a : ndarray) : M ndarray :=
  elementwise (fun b => Float64Buf (map floor (as_float64 b))) a.

(** [a.astype(int)]: always a new array. *)
Definition astype_int (a : ndarray) : M ndarray :=
  elementwise (fun b => Int64Buf (as_int64 b)) a.

(** A Python [int] handed to an int64 inner loop must fit the C
    integer of the loop; the conversion raises [OverflowError]
    otherwise. *)
Definition int64_of_pyint (n : Z) : M Z :=
  if in_int64 n then ret n
  else raise (OverflowError "Python int too large to convert to C long").

Definition np_gcd (a : ndarray) (n : Z) : M ndarray :=
  n64 <- int64_of_pyint n ;;
  elementwise (fun b => Int64Buf (map (fun k => gcd64 k n64) (as_int64 b))) a.

(** [a != v] for an integer array. *)
Definition np_not_equal (a : ndarray) (v : Z) : M ndarray :=
  elementwise (fun b => BoolBuf (map (fun k => negb (k =? v)) (as_int64 b))) a.

(** [a[mask] -= v]: the elements of [a] selected by the boolean mask
    are decremented in place, in [a]'s own buffer. *)
Definition isub_masked (a mask : ndarray) (v : Z) : M unit :=
  b <- load (base a) ;;
  m <- load (base mask) ;;
  match b, m with
  | Int64Buf ks, BoolBuf bs =>
      if Nat.eqb (length ks) (length bs) then
        store_at (base a)
          (Int64Buf (zip_with (fun k (sel : bool) => if sel then wrap64 (k - v) else k) ks bs))
      else raise (IndexError "boolean index did not match indexed array")
  | _, _ => raise (TypeError "unsupported operand")
  end.

(** [np.asarray]: an array is returned as it is (no copy); a Python
    float becomes a new zero-dimensional float64 array, a Python int a
    zero-dimensional array of dtype int64 when it fits, of dtype uint64
    from [2^63] up to [2^64 - 1].  Any other Python int gives an array
    of dtype object, which is outside the model. *)
Inductive pyobj :=
| PyFloat (x : float64)
| PyInt (z : Z)
| PyArr (a : ndarray).

Definition np_asarray (o : pyobj) : M ndarray :=
  match o with
  | PyArr a => ret a
  | PyFloat x => l <- alloc (Float64Buf [x]) ;; ret {| base := l; shape := [] |}
  | PyInt z =>
      if in_int64 z then
        l <- alloc (Int64Buf [z]) ;; ret {| base := l; shape := [] |}
      else if (0 <=? z) && (z <? 2 ^ 64) then
        l <- alloc (UInt64Buf [z]) ;; ret {| base := l; shape := [] |}
      else raise (OutsideModel "array of dtype object")
  end.

(** [a.ravel()] and [a.reshape(s)] of a contiguous array are views:
    the same buffer under another shape. *)
Definition ravel (a : ndarray) : M ndarray :=
  ret {| base := base a; shape := [size a] |}.

Definition reshape (a : ndarray) (s : list nat) : M ndarray :=
  if Nat.eqb (size_of_shape s) (size a)
  then ret {| base := base a; shape := s |}
  else raise (ValueError "cannot reshape array").

(** [a.item()]: the only element of an array of size one, as a
    Python object. *)
Definition item (a : ndarray) : M pyobj :=
  b <- load (base a) ;;
  match b with
  | Float64Buf [x] => ret (PyFloat x)
  | Int64Buf [k] | UInt64Buf [k] => ret (PyInt k)
  | BoolBuf [t] => ret (PyInt (if t then 1 else 0))
  | _ => raise (ValueError "can only convert an array of size 1 to a Python scalar")
  end.

(** Python's [int(o)] on what [item] returns. *)
Definition py_int (o : pyobj) : M pyobj :=
  match o with
  | PyInt z => ret (PyInt z)
  | PyFloat x =>
      match x with
      | S754_zero _ => ret (PyInt 0)
      | S754_finite s m e => ret (PyInt (truncZ s m e))
      | S754_infinity _ => raise (OverflowError "cannot convert float infinity to integer")
      | S754_nan => raise (ValueError "cannot convert float NaN to integer")
      end
  | PyArr _ => raise (TypeError "only length-1 arrays can be converted to Python scalars")
  end.

End Numpy.

Import Numpy.
Local Open Scope np_scope.

(* ================================================================== *)
(** * generate_coherent_frequencies *)
(* ================================================================== *)

(** [f_0] is a Python float, a Python int or an array (of one of the
    dtypes of [buffer]); [fs] is the sample rate as the float64 that
    numpy's division converts it to; [N] is a Python int. *)
Definition generate_coherent_frequencies (f_0 : pyobj) (fs : float64) (N : Z)
  : M (pyobj * pyobj) :=
  (* 1) turn input into an array (ndim >= 0) *)
  arr <- np_asarray f_0 ;;
  (* 2) flatten for easy vector ops *)
  flat <- ravel arr ;;
  (* 3) initial integer-cycle count *)
  q <- np_true_divide flat fs ;;
  p <- np_multiply q (of_int N) ;;
  fl <- np_floor p ;;
  K <- astype_int fl ;;
  (* 4) find where gcd(K,N) != 1 and subtract 1 there *)
  g <- np_gcd K N ;;
  mask <- np_not_equal g 1 ;;
  isub_masked K mask 1 ;;;
  (* 5) compute the coherent freqs *)
  d <- np_true_divide K (of_int N) ;;
  f_i_flat <- np_multiply d fs ;;
  (* 6) reshape outputs back to original shape *)
  f_i <- reshape f_i_flat (shape arr) ;;
  K <- reshape K (shape arr) ;;
  (* 7) if user passed a true scalar, return scalars *)
  if Nat.eqb (ndim arr) 0 then
    x <- item f_i ;;
    k <- item K ;;
    k <- py_int k ;;
    ret (x, k)
  else ret (PyArr f_i, PyArr K).


(** ** Elementwise reading of lines 22 to 30

    What steps 3 to 5 compute for one element [x] of the flattened
    input; the theorems below relate the buffers the function builds to
    these. *)

(** [np.floor(x / fs * N).astype(int)] *)
Definition initial_cycles (fs : float64) (N : Z) (x : float64) : Z :=
  float_to_int64 (floor (fmul (fdiv x fs) (of_int N))).

(** [K] after [K[mask] -= 1] with [mask = np.gcd(K, N) != 1] *)
Definition corrected_cycles (fs : float64) (N : Z) (x : float64) : Z :=
  let K0 := initial_cycles fs N x in
  if negb (gcd64 K0 N =? 1)%Z then wrap64 (K0 - 1) else K0.

(** [K / N * fs] *)
Definition coherent_frequency (fs : float64) (N : Z) (k : Z) : float64 :=
  fmul (fdiv (of_int k) (of_int N)) fs.

(** Line 22 on an element of a float32 array, which [buffer] leaves
    out: numpy keeps the dtype of the array when the other operand is a
    Python number, so that [fs] and [N] are converted to float32 (from
    their binary64 values) and the quotient, the product and the floor
    are computed in binary32, at precision 24 and maximal exponent
    128. *)
Module Float32.

Definition prec : Z := 24.
Definition emax : Z := 128.

Definition float32 := spec_float.

(** The cast float64 -> float32, rounding to nearest. *)
Definition of_float64 (x : float64) : float32 :=
  match x with
  | S754_finite s m e => binary_round prec emax s m e
  | _ => x
  end.

Definition floor (x : float32) : float32 :=
  match x with
  | S754_finite s m e =>
      if (0 <=? e)%Z then x
      else binary_normalize prec emax (floorZ s m e) 0 s
  | _ => x
  end.

End Float32.

Definition initial_cycles_float32 (fs : float64) (N : Z) (x : Float32.float32) : Z :=
  float_to_int64
    (Float32.floor
       (SFmul Float32.prec Float32.emax
          (SFdiv Float32.prec Float32.emax x (Float32.of_float64 fs))
          (Float32.of_float64 (of_int N)))).

(** The elements of a returned object, and its shape when it is an
    array. *)
Definition elements (h : store) (o : pyobj) : option buffer :=
  match o with
  | PyFloat x => Some (Float64Buf [x])
  | PyInt z => Some (Int64Buf [z])
  | PyArr a => h !! base a
  end.

Definition array_shape (o : pyobj) : option (list nat) :=
  match o with
  | PyArr a => Some (shape a)
  | _ => None
  end.

(** A well-formed argument: an array's buffer (of one of the dtypes of
    [buffer]) is in the store and has as many elements as its shape
    says; a Python int fits int64. *)
Definition valid_arg (h : store) (o : pyobj) : Prop :=
  match o with
  | PyFloat _ => True
  | PyInt z => in_int64 z = true
  | PyArr a => exists b, h !! base a = Some b /\ buf_len b = size a
  end.

(** The float64 values that step 3 reads from the argument. *)
Definition input_values (h : store) (o : pyobj) : list float64 :=
  match o with
  | PyFloat x => [x]
  | PyInt z => [of_int z]
  | PyArr a => match h !! base a with Some b => as_float64 b | None => [] end
  end.


(** The buffers one call allocates, in order, for the input values
    [xs]: [flat / fs], [.. * N], [np.floor(..)], [K] (shown after the
    in-place correction), [np.gcd(K, N)], [mask], [K / N] and
    [f_i_flat]. *)
Definition temporaries (fs : float64) (N : Z) (xs : list float64) : list buffer :=
  let q := map (fun v => fdiv v fs) xs in
  let p := map (fun v => fmul v (of_int N)) q in
  let fl := map floor p in
  let K0 := map float_to_int64 fl in
  let g := map (fun k => gcd64 k N) K0 in
  let mask := map (fun k => negb (k =? 1)%Z) g in
  let K := map (corrected_cycles fs N) xs in
  let d := map (fun v => fdiv v (of_int N)) (map of_int K) in
  [Float64Buf q; Float64Buf p; Float64Buf fl; Int64Buf K; Int64Buf g;
   BoolBuf mask; Float64Buf d;
   Float64Buf (map (fun k => coherent_frequency fs N k) K)].

(* ================================================================== *)
(** * Python strings *)
(* ================================================================== *)

(** A Python [str] is modelled as the list of its characters, each a
    code point below 256. *)
Module Str.

Abbreviation pystr := (list ascii).

(** A literal. *)
Definition str (s : string) : pystr := list_ascii_of_string s.
Arguments str s%_string : simpl never.

(** The double quote and the backslash. *)
Definition dquote : ascii := ascii_of_nat 34.
Definition backslash : ascii := ascii_of_nat 92.

Definition code (c : ascii) : nat := nat_of_ascii c.

(** [str.isspace] on one character: tab to carriage return, the
    separators FS to US, space, NEL and the no-break space. *)
Definition isspace (c : ascii) : bool :=
  let n := code c in
  ((9 <=? n) && (n <=? 13)) || ((28 <=? n) && (n <=? 32))
  || (n =? 133) || (n =? 160).

Fixpoint drop_while (p : ascii -> bool) (s : pystr) : pystr :=
  match s with
  | c :: s' => if p c then drop_while p s' else s
  | [] => []
  end.

Definition lstrip (s : pystr) : pystr := drop_while isspace s.
Definition rstrip (s : pystr) : pystr := rev (drop_while isspace (rev s)).

(** [s.strip()] *)
Definition strip (s : pystr) : pystr := rstrip (lstrip s).

(** [s.rstrip(c)] for a one-character argument. *)
Definition rstrip_char (c : ascii) (s : pystr) : pystr :=
  rev (drop_while (Ascii.eqb c) (rev s)).

(** [s.split(sep)] for a one-character separator: never an empty
    list. *)
Fixpoint split (sep : ascii) (s : pystr) : list pystr :=
  match s with
  | [] => [[]]
  | c :: s' =>
      if Ascii.eqb c sep then [] :: split sep s'
      else match split sep s' with
           | w :: ws => (c :: w) :: ws
           | [] => [[c]]
           end
  end.

(** [a == b] *)
Fixpoint eqb (a b : pystr) : bool :=
  match a, b with
  | [], [] => true
  | x :: a', y :: b' => Ascii.eqb x y && eqb a' b'
  | _, _ => false
  end.

Fixpoint startswith (p s : pystr) : option pystr :=
  match p, s with
  | [], _ => Some s
  | a :: p', b :: s' => if Ascii.eqb a b then startswith p' s' else None
  | _ :: _, [] => None
  end.

(** [needle in hay] *)
Fixpoint contains (needle hay : pystr) : bool :=
  match startswith needle hay with
  | Some _ => true
  | None => match hay with
            | [] => false
            | _ :: hay' => contains needle hay'
            end
  end.

Definition lower (c : ascii) : ascii :=
  let n := code c in
  if (65 <=? n) && (n <=? 90) then ascii_of_nat (n + 32) else c.

(** ** repr *)

Definition hex_digit (n : nat) : ascii :=
  if n <? 10 then ascii_of_nat (48 + n) else ascii_of_nat (87 + n).

Definition isprintable (c : ascii) : bool :=
  let n := code c in
  ((32 <=? n) && (n <=? 126)) || ((161 <=? n) && negb (n =? 173)).

(** [repr(s)]: single quotes unless the string has a single quote and
    no double quote; backslash, the quote and the non-printable
    characters are escaped. *)
Definition repr (s : pystr) : pystr :=
  let has_sq := existsb (Ascii.eqb "'"%char) s in
  let has_dq := existsb (Ascii.eqb dquote) s in
  let q : ascii := if has_sq && negb has_dq then dquote else "'"%char in
  let esc (c : ascii) : pystr :=
    if Ascii.eqb c backslash then [backslash; backslash]
    else if Ascii.eqb c q then [backslash; c]
    else if code c =? 10 then [backslash; "n"%char]
    else if code c =? 13 then [backslash; "r"%char]
    else if code c =? 9 then [backslash; "t"%char]
    else if isprintable c then [c]
    else [backslash; "x"%char; hex_digit (code c / 16); hex_digit (code c mod 16)] in
  q :: flat_map esc s ++ [q].

(** ** Numbers from text *)

Definition digit_of (c : ascii) : option Z :=
  let n := code c in
  if (48 <=? n) && (n <=? 57) then Some (Z.of_nat (n - 48)) else None.

(** A run of digits in which single underscores may separate digits
    ([digit (["_"] digit)*]): the digits read and what follows them.
    [more] says that a digit was read already. *)
Fixpoint digitpart_from (more : bool) (s : pystr) : list Z * pystr :=
  match s with
  | c :: s' =>
      match digit_of c with
      | Some d => let '(ds, r) := digitpart_from true s' in (d :: ds, r)
      | None =>
          if more && Ascii.eqb c "_"%char then
            match s' with
            | c' :: s'' =>
                match digit_of c' with
                | Some d => let '(ds, r) := digitpart_from true s'' in (d :: ds, r)
                | None => ([], s)
                end
            | [] => ([], s)
            end
          else ([], s)
      end
  | [] => ([], s)
  end.

Definition digitpart (s : pystr) : list Z * pystr := digitpart_from false s.

Definition digits_value (ds : list Z) : Z :=
  fold_left (fun acc d => 10 * acc + d)%Z ds 0%Z.

(** An optional sign: [true] for minus. *)
Definition sign (s : pystr) : bool * pystr :=
  match s with
  | "-"%char :: s' => (true, s')
  | "+"%char :: s' => (false, s')
  | _ => (false, s)
  end.

(** The default limit of [int] on the number of digits of a decimal
    string (CPython 3.11 and later). *)
Definition max_str_digits : nat := 4300.

(** The whitespace that [int] and [float] skip around a number: as
    [str.isspace], but for the separators FS to US. *)
Definition number_space (c : ascii) : bool :=
  let n := code c in
  ((9 <=? n) && (n <=? 13)) || (n =? 32) || (n =? 133) || (n =? 160).

Definition number_strip (s : pystr) : pystr :=
  rev (drop_while number_space (rev (drop_while number_space s))).

(** [int(s)]: surrounding whitespace, an optional sign, a digit part
    and nothing else.  [None] stands for [ValueError]. *)
Definition int_of_str (s : pystr) : option Z :=
  let '(neg, s1) := sign (number_strip s) in
  match digitpart s1 with
  | ((_ :: _) as ds, []) =>
      if (length ds <=? max_str_digits)%nat
      then Some (if neg then - digits_value ds else digits_value ds)%Z
      else None
  | _ => None
  end.

(** The binary64 nearest to [(-1)^neg * m * 10^e], ties to even
    (what [strtod] returns). *)
Definition float_of_decimal (neg : bool) (m : Z) (e : Z) : float64 :=
  match m with
  | Z.pos p =>
      match e with
      | Z.neg k =>
          let '(q, e', l) :=
            SFdiv_core_binary Float64.prec Float64.emax (Z.pos p) 0 (Z.pos (10 ^ k)) 0 in
          binary_round_aux Float64.prec Float64.emax neg q e' l
      | _ => binary_normalize Float64.prec Float64.emax
               (if neg then - (m * 10 ^ e) else m * 10 ^ e)%Z 0 neg
      end
  | _ => S754_zero neg
  end.

Definition exponent (s : pystr) : option (Z * pystr) :=
  match s with
  | c :: s' =>
      if Ascii.eqb (lower c) "e"%char then
        let '(neg, s1) := sign s' in
        match digitpart s1 with
        | ((_ :: _) as ds, r) => Some ((if neg then - digits_value ds else digits_value ds)%Z, r)
        | _ => None
        end
      else Some (0%Z, s)
  | [] => Some (0%Z, s)
  end.

(** [float(s)]: surrounding whitespace, an optional sign, then
    [inf], [infinity] or [nan] in any case, or a decimal number with
    an optional fraction and an optional exponent.  [None] stands for
    [ValueError]. *)
Definition float_of_str (s : pystr) : option float64 :=
  let '(neg, s1) := sign (number_strip s) in
  let word := map lower s1 in
  if eqb word (str "inf") || eqb word (str "infinity") then Some (S754_infinity neg)
  else if eqb word (str "nan") then Some S754_nan
  else
    let '(ip, r1) := digitpart s1 in
    let number :=
      match r1 with
      | "."%char :: r2 =>
          let '(fp, r3) := digitpart r2 in
          match ip, fp with
          | [], [] => None
          | _, _ => Some (ip, fp, r3)
          end
      | _ => match ip with [] => None | _ => Some (ip, [], r1) end
      end in
    match number with
    | Some (ip, fp, r) =>
        match exponent r with
        | Some (e, []) =>
            Some (float_of_decimal neg (digits_value (ip ++ fp)) (e - Z.of_nat (length fp)))
        | _ => None
        end
    | None => None
    end.

End Str.

Import Str.


(* ================================================================== *)
(** * re.match with the pattern of line 76 *)
(* ================================================================== *)

Module Re.

(** The pattern [leafValue\(\s*(.*?)\s*\)], matched at the start of
    the subject by backtracking as [re] does: the literal prefix, a
    greedy run of whitespace, a lazy group of characters other than
    the newline, and a second run of whitespace followed by the
    closing parenthesis. *)

(** [\s*\)] matches at the start of [s]. *)
Definition closes (s : pystr) : bool :=
  match drop_while isspace s with
  | ")"%char :: _ => true
  | _ => false
  end.

(** [(.*?)\s*\)] at the start of [s]: the shortest group. *)
Fixpoint lazy_group (s : pystr) : option pystr :=
  if closes s then Some []
  else match s with
       | c :: s' =>
           if code c =? 10 then None
           else match lazy_group s' with
                | Some g => Some (c :: g)
                | None => None
                end
       | [] => None
       end.

(** [\s*(.*?)\s*\)] at the start of [s]: the longest run of
    whitespace first, then shorter ones. *)
Fixpoint after_prefix (s : pystr) : option pystr :=
  match s with
  | c :: s' =>
      if isspace c then
        match after_prefix s' with
        | Some g => Some g
        | None => lazy_group s
        end
      else lazy_group s
  | [] => lazy_group s
  end.

(** [m = re.match(...)] and [m.group(1)]; [None] when there is no
    match. *)
Definition match_leafValue (ent : pystr) : option pystr :=
  match startswith (str "leafValue(") ent with
  | Some rest => after_prefix rest
  | None => None
  end.

End Re.

(* ================================================================== *)
(** * shlex.split *)
(* ================================================================== *)

Module Shlex.

(** [shlex.split(s)] is [list(lex)] for
    [lex = shlex(s, posix=True)] with [whitespace_split = True] and no
    comment characters.  The lexer's [state] is [' '] between tokens,
    ['a'] inside a word, a quote character inside a quoted part and
    the escape character after a backslash. *)
Inductive lexstate :=
| InSpace
| InWord
| InQuote (q : ascii)
| InEscape.

(** [self.whitespace], [self.quotes], [self.escape] and
    [self.escapedquotes]. *)
Definition whitespace (c : ascii) : bool :=
  Ascii.eqb c " " || (code c =? 9) || (code c =? 13) || (code c =? 10).
Definition quotes (c : ascii) : bool := Ascii.eqb c "'" || Ascii.eqb c dquote.
Definition escape (c : ascii) : bool := Ascii.eqb c backslash.
Definition escapedquotes (c : ascii) : bool := Ascii.eqb c dquote.

(** The end of [read_token]: an empty token is dropped unless a quote
    was seen. *)
Definition emit (token : pystr) (quoted : bool) (rest : list pystr) : list pystr :=
  if negb (Nat.eqb (length token) 0) || quoted then token :: rest else rest.

(** [read_token] called until the input is exhausted, as one pass over
    the characters.  [escapedstate] is the state to return to after an
    escaped character; [token] and [quoted] are those of the token
    being read, and start afresh with every token. *)
Fixpoint tokens (state escapedstate : lexstate) (token : pystr) (quoted : bool)
    (s : pystr) : result (list pystr) :=
  match s with
  | [] =>
      match state with
      | InSpace | InWord => Ok (emit token quoted [])
      | InQuote _ => Raise (ValueError "No closing quotation")
      | InEscape => Raise (ValueError "No escaped character")
      end
  | c :: s' =>
      match state with
      | InSpace =>
          if whitespace c then
            if negb (Nat.eqb (length token) 0) || quoted then
              match tokens InSpace InSpace [] false s' with
              | Ok ts => Ok (token :: ts)
              | Raise e => Raise e
              end
            else tokens InSpace escapedstate token quoted s'
          else if escape c then tokens InEscape InWord token quoted s'
          else if quotes c then tokens (InQuote c) escapedstate token quoted s'
          else tokens InWord escapedstate [c] quoted s'
      | InQuote q =>
          if Ascii.eqb c q then tokens InWord escapedstate token true s'
          else if escape c && escapedquotes q then tokens InEscape (InQuote q) token true s'
          else tokens (InQuote q) escapedstate (token ++ [c]) true s'
      | InEscape =>
          let token :=
            match escapedstate with
            | InQuote q =>
                if negb (escape c) && negb (Ascii.eqb c q)
                then token ++ [backslash] else token
            | _ => token
            end in
          tokens escapedstate escapedstate (token ++ [c]) quoted s'
      | InWord =>
          if whitespace c then
            if negb (Nat.eqb (length token) 0) || quoted then
              match tokens InSpace InSpace [] false s' with
              | Ok ts => Ok (token :: ts)
              | Raise e => Raise e
              end
            else tokens InSpace escapedstate token quoted s'
          else if quotes c then tokens (InQuote c) escapedstate token quoted s'
          else if escape c then tokens InEscape InWord token quoted s'
          else tokens InWord escapedstate (token ++ [c]) quoted s'
      end
  end.

Definition split (s : pystr) : result (list pystr) :=
  tokens InSpace InSpace [] false s.

End Shlex.


(* ================================================================== *)
(** * Python lists and dicts *)
(* ================================================================== *)

Module Py.

(** The result type as a monad. *)
Definition rbind {A B} (r : result A) (k : A -> result B) : result B :=
  match r with
  | Ok a => k a
  | Raise e => Raise e
  end.

Declare Scope py_scope.
Delimit Scope py_scope with py.
Notation "x <~ c ;; k" := (rbind c (fun x => k))
  (at level 100, c at next level, right associativity) : py_scope.
Local Open Scope py_scope.

(** A [for] loop whose body may raise: over the elements, and over the
    elements with an accumulator. *)
Fixpoint for_each {A B} (f : A -> result B) (l : list A) : result (list B) :=
  match l with
  | [] => Ok []
  | x :: l' => y <~ f x ;; ys <~ for_each f l' ;; Ok (y :: ys)
  end.

Fixpoint for_fold {A S} (f : S -> A -> result S) (s : S) (l : list A) : result S :=
  match l with
  | [] => Ok s
  | x :: l' => s' <~ f s x ;; for_fold f s' l'
  end.

(** [l[i]] for an [int] index: negative indices count from the end. *)
Definition getitem {A} (l : list A) (i : Z) : result A :=
  let n := Z.of_nat (length l) in
  let j := if (i <? 0)%Z then (i + n)%Z else i in
  if ((0 <=? j) && (j <? n))%Z then
    match l !! Z.to_nat j with
    | Some x => Ok x
    | None => Raise (IndexError "list index out of range")
    end
  else Raise (IndexError "list index out of range").

(** [range(start, stop, step)] for a positive step. *)
Definition range (start stop step : nat) : list nat :=
  map (fun j => start + j * step)%nat (seq 0 ((stop - start + (step - 1)) / step)).

(** [enumerate(l)] *)
Definition enumerate {A} (l : list A) : list (nat * A) :=
  combine (seq 0 (length l)) l.

(** The values the metadata can hold. *)
Inductive value :=
| VStr (s : pystr)
| VInt (z : Z)
| VFloat (x : float64).

(** A [dict] with [str] keys, in insertion order. *)
Abbreviation dict := (list (pystr * value)).

Fixpoint dict_get (d : dict) (k : pystr) : option value :=
  match d with
  | [] => None
  | (k', v) :: d' => if Str.eqb k' k then Some v else dict_get d' k
  end.

(** [d[k] = v]: an existing key keeps its place. *)
Fixpoint dict_set (d : dict) (k : pystr) (v : value) : dict :=
  match d with
  | [] => [(k, v)]
  | (k', v') :: d' =>
      if Str.eqb k' k then (k', v) :: d' else (k', v') :: dict_set d' k v
  end.

End Py.

Import Py.
Local Open Scope py_scope.

(* ================================================================== *)
(** * pandas frames *)
(* ================================================================== *)

Module Pandas.

(** One cell of a frame: a float, an int, a string, a bool or the
    missing value [NaN] (that [concat] fills in, and [read_csv] gives
    an empty field). *)
Inductive cell :=
| CFloat (x : float64)
| CInt (z : Z)
| CStr (s : pystr)
| CBool (b : bool)
| CNaN.

Definition cell_of_value (v : value) : cell :=
  match v with
  | VStr s => CStr s
  | VInt z => CInt z
  | VFloat x => CFloat x
  end.

(** What [pd.read_csv(path, skiprows=.., header=None)] returns: the
    columns [0 .. n-1] of the numeric block, all of the same length.
    [read_csv] raises [EmptyDataError] rather than return a frame
    without columns. *)
Abbreviation raw_frame := (list (list cell)).

Definition raw_ncols (df : raw_frame) : nat := length df.
Definition raw_nrows (df : raw_frame) : nat :=
  match df with
  | [] => 0
  | c :: _ => length c
  end.

(** A frame under construction: labelled columns in order; the index
    is [0 .. nrows-1]. *)
Record frame := { nrows : nat; columns : list (pystr * list cell) }.

(** [df.iloc[:, j]] *)
Definition iloc_column (df : raw_frame) (j : nat) : result (list cell) :=
  match df !! j with
  | Some c => Ok c
  | None => Raise (IndexError "single positional indexer is out-of-bounds")
  end.

Fixpoint column (cols : list (pystr * list cell)) (k : pystr) : option (list cell) :=
  match cols with
  | [] => None
  | (k', c) :: cols' => if Str.eqb k' k then Some c else column cols' k
  end.

Fixpoint set_column (cols : list (pystr * list cell)) (k : pystr) (c : list cell)
  : list (pystr * list cell) :=
  match cols with
  | [] => [(k, c)]
  | (k', c') :: cols' =>
      if Str.eqb k' k then (k', c) :: cols' else (k', c') :: set_column cols' k c
  end.

(** [sub[key] = val] for a scalar: the column is replaced where it
    exists and added at the end otherwise. *)
Definition setitem (f : frame) (k : pystr) (v : cell) : frame :=
  {| nrows := nrows f; columns := set_column (columns f) k (replicate (nrows f) v) |}.

(** The labels of all the frames, each at its first appearance. *)
Definition union_labels (fs : list frame) : list pystr :=
  fold_left
    (fun acc f =>
       fold_left (fun acc k => if existsb (Str.eqb k) acc then acc else acc ++ [k])
                 (map fst (columns f)) acc)
    fs [].

(** ** dtypes

    The dtype of a column is read off its cells: int64 when every
    cell is an int that fits, uint64 when every cell is an int below
    [2^64] (one of them above int64), float64 when every cell is a
    float or the missing value, bool when every cell is a bool, and
    object otherwise (strings, larger ints, mixed cells).  These are
    the dtypes that [read_csv] infers and that a scalar assigned to a
    column gets. *)
Inductive dtype := DInt64 | DUInt64 | DFloat64 | DBool | DObject.

Definition dtype_eqb (a b : dtype) : bool :=
  match a, b with
  | DInt64, DInt64 | DUInt64, DUInt64 | DFloat64, DFloat64
  | DBool, DBool | DObject, DObject => true
  | _, _ => false
  end.

Definition dtype_of (c : list cell) : dtype :=
  if forallb (fun x => match x with CInt z => in_int64 z | _ => false end) c then DInt64
  else if forallb (fun x => match x with
                            | CInt z => (0 <=? z)%Z && (z <? 2 ^ 64)%Z
                            | _ => false
                            end) c then DUInt64
  else if forallb (fun x => match x with CFloat _ | CNaN => true | _ => false end) c
  then DFloat64
  else if forallb (fun x => match x with CBool _ => true | _ => false end) c then DBool
  else DObject.

(** pandas' [find_common_type]: equal dtypes are kept; object, and
    bool next to anything else, give object; numbers of different
    dtypes give float64 (numpy's [result_type], also for int64 with
    uint64). *)
Definition common_dtype (ds : list dtype) : dtype :=
  match ds with
  | [] => DObject
  | d :: ds' =>
      if forallb (dtype_eqb d) ds' then d
      else if existsb (dtype_eqb DObject) ds || existsb (dtype_eqb DBool) ds then DObject
      else DFloat64
  end.

(** [ensure_dtype_can_hold_na] *)
Definition hold_na (d : dtype) : dtype :=
  match d with
  | DInt64 | DUInt64 => DFloat64
  | DBool => DObject
  | DFloat64 | DObject => d
  end.

(** The dtype that [concat] gives the column [k]: the common dtype of
    the frames that have the column, made to hold the missing value
    when a frame lacks it. *)
Definition result_dtype (fs : list frame) (k : pystr) : dtype :=
  let present :=
    flat_map (fun f => match column (columns f) k with
                       | Some c => [dtype_of c]
                       | None => []
                       end) fs in
  if forallb (fun f => match column (columns f) k with
                       | Some _ => true
                       | None => false
                       end) fs
  then common_dtype present
  else hold_na (common_dtype present).

(** [astype] of one cell to the dtype of its column: an int becomes
    the nearest float in a float64 column; in an object column every
    cell stays the Python object it is. *)
Definition cast (d : dtype) (c : cell) : cell :=
  match d, c with
  | DFloat64, CInt z => CFloat (of_int z)
  | _, _ => c
  end.

(** [pd.concat(fs, ignore_index=True)]: the rows of the frames one
    after the other, under the union of their columns; every column
    in its common dtype, with the missing value where a frame lacks
    the column. *)
Definition concat (fs : list frame) : result frame :=
  match fs with
  | [] => Raise (ValueError "No objects to concatenate")
  | _ =>
      Ok {| nrows := fold_right (fun f n => nrows f + n)%nat 0%nat fs;
            columns :=
              map (fun k =>
                     (k, flat_map (fun f =>
                                     match column (columns f) k with
                                     | Some c => map (cast (result_dtype fs k)) c
                                     | None => replicate (nrows f) CNaN
                                     end) fs))
                  (union_labels fs) |}
  end.

(** The cell of column [k] in row [r]. *)
Definition at_ (f : frame) (k : pystr) (r : nat) : option cell :=
  match column (columns f) k with
  | Some c => c !! r
  | None => None
  end.

End Pandas.

Import Pandas.

(* ================================================================== *)
(** * load_cadence_vcsv *)
(* ================================================================== *)

(** Step 2 (line 71): the entries of the metadata line. *)
Definition raw_entries (meta_line : pystr) : list pystr :=
  map (fun e => rstrip_char "," (strip e))
      (List.filter (fun e => negb (Nat.eqb (length (strip e)) 0)) (Str.split ";" meta_line)).

(** Lines 76 to 81: the text of an entry that holds the tokens. *)
Definition entry_base (ent : pystr) : pystr :=
  match Re.match_leafValue ent with
  | Some g => g
  | None =>
      (* drop anything from the first "(" onward *)
      strip (hd [] (Str.split "(" ent))
  end.

(** Lines 95 to 98: try int, else float. *)
Definition number (val : pystr) : result value :=
  match int_of_str val with
  | Some z => Ok (VInt z)
  | None =>
      match float_of_str val with
      | Some x => Ok (VFloat x)
      | None =>
          Raise (ValueError
                   (string_of_list_ascii (str "could not convert string to float: " ++ repr val)))
      end
  end.

(** Lines 84 to 99: the body of the loop over the entries. *)
Definition entry_params (ent : pystr) : result dict :=
  let base := entry_base ent in
  (* b) use shlex so that quoted names become single tokens *)
  parts <~ Shlex.split base ;;
  signal <~ getitem parts 0 ;;
  let p : dict := [(str "signal", VStr signal)] in
  (* grab each param/value pair *)
  for_fold
    (fun (p : dict) (i : nat) =>
       key <~ getitem parts (Z.of_nat i) ;;
       val <~ getitem parts (Z.of_nat i + 1) ;;
       v <~ number val ;;
       Ok (dict_set p key v))
    p (range 1 (length parts) 2).

(** Lines 73 to 100. *)
Definition params (entries : list pystr) : result (list dict) :=
  for_each entry_params entries.

(** Lines 108 to 120: the frame of one channel. *)
Definition sub_frame (df_raw : raw_frame) (idx : nat) (prm : dict) : result frame :=
  time <~ iloc_column df_raw (2 * idx) ;;
  value <~ iloc_column df_raw (2 * idx + 1) ;;
  signal <~ match dict_get prm (str "signal") with
            | Some v => Ok v
            | None => Raise (KeyError "'signal'")
            end ;;
  let n := raw_nrows df_raw in
  let sub :=
    {| nrows := n;
       columns := [(str "time", time); (str "value", value);
                   (str "signal", replicate n (cell_of_value signal));
                   (str "channel", replicate n (CInt (Z.of_nat idx)))] |} in
  (* add all other parameters dynamically *)
  Ok (fold_left
        (fun sub '(key, val) =>
           if Str.eqb key (str "signal") then sub
           else setitem sub key (cell_of_value val))
        prm sub).

(** Lines 106 to 121. *)
Definition long_df (df_raw : raw_frame) (ps : list dict) : result (list frame) :=
  for_each (fun '(idx, prm) => sub_frame df_raw idx prm) (enumerate ps).

(** Lines 68 to 123, once the file was read: [lines] is what
    [f.readlines()] returned for the file and [read_csv skiprows] what
    [pd.read_csv(path, skiprows=skiprows, header=None)] does for it
    (the frame, or the exception it raises).  Both come from the same
    file; they are two parameters here, and what is proved for all
    [lines] and all [read_csv] holds for those of any file. *)
Definition load_cadence_vcsv (lines : list pystr)
    (read_csv : Z -> result raw_frame) (metadata_row skiprows : Z) : result frame :=
  (* 1) read in the metadata line *)
  line <~ getitem lines (metadata_row - 1) ;;
  let meta_line := strip line in
  (* 2) split entries on ';', strip commas; the parameters of each *)
  ps <~ params (raw_entries meta_line) ;;
  (* 3) read the numeric block *)
  df_raw <~ read_csv skiprows ;;
  (* 4) melt into long form *)
  subs <~ long_df df_raw ps ;;
  concat subs.

(** The whole function, from line 66 on: [readlines] is what
    [open(path, 'r')] followed by [f.readlines()] does for the path,
    the lines of the file or the exception that either raises (an
    [OSError] such as [FileNotFoundError] or [PermissionError] from
    [open], [UnicodeDecodeError] from [readlines]). *)
Definition load_cadence_vcsv_file (readlines : result (list pystr))
    (read_csv : Z -> result raw_frame) (metadata_row skiprows : Z) : result frame :=
  lines <~ readlines ;;
  load_cadence_vcsv lines read_csv metadata_row skiprows.

(** ** Readings used to state the theorems *)

(** The loop of lines 91 to 99 read on the tokens that follow the
    signal name, two at a time ([entry_loop] below proves that this is
    what the loop over [range(1, len(parts), 2)] computes). *)
Fixpoint pairs (rest : list pystr) (p : dict) : result dict :=
  match rest with
  | [] => Ok p
  | [_] => Raise (IndexError "list index out of range")
  | key :: val :: rest' => v <~ number val ;; pairs rest' (dict_set p key v)
  end.

(** The tokens in value position among those that follow the signal
    name. *)
Fixpoint values_of (rest : list pystr) : list pystr :=
  match rest with
  | _ :: val :: rest' => val :: values_of rest'
  | _ => []
  end.

(** The [ValueError] that [float(val)] raises, and the values for
    which it does after [int(val)] failed. *)
Definition float_error (val : pystr) : exn :=
  ValueError (string_of_list_ascii (str "could not convert string to float: " ++ repr val)).

Definition unparsable (val : pystr) : Prop :=
  int_of_str val = None /\ float_of_str val = None.

(** A record as the loop of lines 88 to 99 builds it: the key
    [signal] is present and no key occurs twice. *)
Definition wf_record (prm : dict) : Prop :=
  NoDup (map fst prm) /\ exists v, dict_get prm (str "signal") = Some v.

(** The parameters of a record: its items other than [signal]. *)
Definition parameters (prm : dict) : dict :=
  List.filter (fun kv => negb (Str.eqb (fst kv) (str "signal"))) prm.

(** The two forms of an entry that the docstring describes, for a
    signal name, parameters given as (name, text of the value) and a
    unit:
    [SignalName param1 val1 param2 val2 ...  (units)] and
    [leafValue( SignalName "param1" val1 "param2" val2 ... ) (units)]. *)
Definition bare_inner (signal : pystr) (kvs : list (pystr * pystr)) : pystr :=
  signal ++ flat_map (fun '(k, t) => " "%char :: k ++ " "%char :: t) kvs.

Definition bare_entry (signal : pystr) (kvs : list (pystr * pystr)) (units : pystr) : pystr :=
  bare_inner signal kvs ++ str "  (" ++ units ++ str ")".

Definition wrapped_inner (signal : pystr) (kvs : list (pystr * pystr)) : pystr :=
  signal
  ++ flat_map (fun '(k, t) => " "%char :: dquote :: k ++ dquote :: " "%char :: t) kvs.

Definition wrapped_entry (signal : pystr) (kvs : list (pystr * pystr)) (units : pystr) : pystr :=
  str "leafValue( " ++ wrapped_inner signal kvs ++ str " ) (" ++ units ++ str ")".

(** A character that needs no quoting and ends no entry: neither
    whitespace, nor a quote, a backslash, a parenthesis or a
    semicolon. *)
Definition plain_char (c : ascii) : bool :=
  negb (isspace c) && negb (Shlex.quotes c) && negb (Shlex.escape c)
  && negb (Ascii.eqb c "(") && negb (Ascii.eqb c ")") && negb (Ascii.eqb c ";").

Definition plain_word (w : pystr) : bool :=
  negb (Nat.eqb (length w) 0) && forallb plain_char w.

(** The frame that lines 108 to 120 build for channel [idx] when both
    of its columns exist. *)
Definition channel_frame (df_raw : raw_frame) (idx : nat) (prm : dict) : frame :=
  let n := raw_nrows df_raw in
  fold_left
    (fun sub '(key, val) =>
       if Str.eqb key (str "signal") then sub
       else setitem sub key (cell_of_value val))
    prm
    {| nrows := n;
       columns := [(str "time", default [] (df_raw !! (2 * idx)%nat));
                   (str "value", default [] (df_raw !! (2 * idx + 1)%nat));
                   (str "signal",
                    replicate n (default CNaN (cell_of_value <$> dict_get prm (str "signal"))));
                   (str "channel", replicate n (CInt (Z.of_nat idx)))] |}.

(** The frames of all the channels, the dtype that [pd.concat] gives
    the column [k] of the table, and a cell as the table stores it in
    this column. *)
Definition channel_frames (df_raw : raw_frame) (ps : list dict) : list frame :=
  map (fun '(idx, prm) => channel_frame df_raw idx prm) (enumerate ps).

Definition column_dtype (df_raw : raw_frame) (ps : list dict) (k : pystr) : dtype :=
  result_dtype (channel_frames df_raw ps) k.

Definition stored (df_raw : raw_frame) (ps : list dict) (k : pystr) (c : cell) : cell :=
  cast (column_dtype df_raw ps k) c.

(** [data[r, j]] of the numeric block. *)
Definition raw_cell (df_raw : raw_frame) (r j : nat) : option cell :=
  match df_raw !! j with
  | Some c => c !! r
  | None => None
  end.

(** A rectangular block of [R] rows. *)
Definition rectangular (df_raw : raw_frame) (R : nat) : Prop :=
  Forall (fun c => length c = R) df_raw.

(** A frame of [R] rows. *)
Definition has_rows (R : nat) (f : frame) : Prop :=
  nrows f = R /\ Forall (fun kc => length kc.2 = R) (columns f).


(** ** Tokens in a text *)

(** A character of an unquoted word. *)
Definition word_char (c : ascii) : Prop :=
  Shlex.whitespace c = false /\ Shlex.quotes c = false /\ Shlex.escape c = false.

(** A character of a double-quoted part. *)
Definition quoted_char (c : ascii) : Prop :=
  c <> dquote /\ Shlex.escape c = false.

(** How a token stands in the text: as it is, or between double
    quotes. *)
Definition rendered (item : bool * pystr) : pystr :=
  if item.1 then dquote :: item.2 ++ [dquote] else item.2.

Definition renderable (item : bool * pystr) : Prop :=
  if item.1 then Forall quoted_char item.2
  else item.2 <> [] /\ Forall word_char item.2.

(** The tokens of the two forms of an entry after the signal name,
    with the way each is written. *)
Definition bare_items (kvs : list (pystr * pystr)) : list (bool * pystr) :=
  flat_map (fun '(k, t) => [(false, k); (false, t)]) kvs.

Definition wrapped_items (kvs : list (pystr * pystr)) : list (bool * pystr) :=
  flat_map (fun '(k, t) => [(true, k); (false, t)]) kvs.

(** A text that ends with a plain character. *)
Definition ends_plain (s : pystr) : Prop :=
  exists body c, s = body ++ [c] /\ plain_char c = true.

(** The characters of the text between the parentheses of an entry:
    plain ones, the space and the double quote. *)
Definition inner_char (c : ascii) : Prop :=
  plain_char c = true \/ c = " "%char \/ c = dquote.

(** What the text of a value stands for. *)
Definition denotes (t : pystr) (v : value) : Prop := number t = Ok v.

(** The parameters an entry can be built from: plain names other than
    [signal], no name twice, and plain texts of numbers. *)
Definition buildable (kvs : list (pystr * pystr)) : Prop :=
  NoDup (map fst kvs)
  /\ Forall (fun kt => plain_word kt.1 = true /\ plain_word kt.2 = true
                       /\ kt.1 <> str "signal") kvs.
(** Example 2 of the specification:
    [leafValue( Vout2 "vpp" 0.1 K 7 clk_delay -1e-12 ) (V)]. *)
Definition example_entry : pystr :=
  str "leafValue( Vout2 " ++ [dquote] ++ str "vpp" ++ [dquote]
  ++ str " 0.1 K 7 clk_delay -1e-12 ) (V)".

(** [str(z)] for an [int]: its decimal digits, after a minus sign
    when it is negative. *)
Definition decimal (z : Z) : pystr := str (NilZero.string_of_int (Z.to_int z)).

(** The digits of a decimal number, most significant first. *)
Fixpoint uint_digits (d : Decimal.uint) : list Z :=
  match d with
  | Decimal.Nil => []
  | Decimal.D0 l => 0%Z :: uint_digits l
  | Decimal.D1 l => 1%Z :: uint_digits l
  | Decimal.D2 l => 2%Z :: uint_digits l
  | Decimal.D3 l => 3%Z :: uint_digits l
  | Decimal.D4 l => 4%Z :: uint_digits l
  | Decimal.D5 l => 5%Z :: uint_digits l
  | Decimal.D6 l => 6%Z :: uint_digits l
  | Decimal.D7 l => 7%Z :: uint_digits l
  | Decimal.D8 l => 8%Z :: uint_digits l
  | Decimal.D9 l => 9%Z :: uint_digits l
  end.

(** ** Readings used to state further properties *)

(** The text of the value that the loop of lines 91 to 99 leaves under
    the name [k]: the one of the last pair with this name among the
    tokens that follow the signal name. *)
Fixpoint last_value (rest : list pystr) (k : pystr) : option pystr :=
  match rest with
  | key :: val :: rest' =>
      match last_value rest' k with
      | Some t => Some t
      | None => if Str.eqb key k then Some val else None
      end
  | _ => None
  end.

(** A text that [int] or [float] accepts. *)
Definition parsable (val : pystr) : bool :=
  match number val with
  | Ok _ => true
  | Raise _ => false
  end.

(** A text of whitespace only. *)
Definition blank (s : pystr) : bool := forallb isspace s.

(** A character that a name between double quotes can hold: any but
    the double quote, the backslash, the parentheses, the semicolon and
    the newline. *)
Definition name_char (c : ascii) : bool :=
  negb (Ascii.eqb c dquote) && negb (Shlex.escape c)
  && negb (Ascii.eqb c "(") && negb (Ascii.eqb c ")") && negb (Ascii.eqb c ";")
  && negb (code c =? 10).

(** The two forms of an entry with every name between double quotes:
    ["Signal Name" "param 1" val1 ...  (units)] and
    [leafValue( "Signal Name" "param 1" val1 ... ) (units)]. *)
Definition quoted_inner (signal : pystr) (kvs : list (pystr * pystr)) : pystr :=
  dquote :: signal ++ dquote
  :: flat_map (fun '(k, t) => " "%char :: dquote :: k ++ dquote :: " "%char :: t) kvs.

Definition quoted_bare_entry (signal : pystr) (kvs : list (pystr * pystr)) (units : pystr)
  : pystr :=
  quoted_inner signal kvs ++ str "  (" ++ units ++ str ")".

Definition quoted_wrapped_entry (signal : pystr) (kvs : list (pystr * pystr)) (units : pystr)
  : pystr :=
  str "leafValue( " ++ quoted_inner signal kvs ++ str " ) (" ++ units ++ str ")".

(** The parameters such an entry can be built from: names of
    [name_char]s other than [signal], no name twice, and plain texts of
    numbers. *)
Definition quotable (kvs : list (pystr * pystr)) : Prop :=
  NoDup (map fst kvs)
  /\ Forall (fun kt => forallb name_char kt.1 = true /\ plain_word kt.2 = true
                       /\ kt.1 <> str "signal") kvs.

(** A character of the text of such an entry. *)
Definition entry_char (c : ascii) : Prop :=
  c <> ")"%char /\ c <> "("%char /\ c <> ";"%char /\ code c <> 10%nat.

(** The columns that line 108 gives every channel. *)
Definition base_labels : list pystr :=
  [str "time"; str "value"; str "signal"; str "channel"].

(** ** Values written as text *)

(** A decimal digit. *)
Definition isdigit (c : ascii) : bool :=
  match digit_of c with Some _ => true | None => false end.

(** The decimal digits of a positive number. *)
Definition digits_text (p : positive) : pystr :=
  str (NilEmpty.string_of_uint (Pos.to_uint p)).

(** A text for a float: the exact value of the binary64 number
    [(-1)^s * m * 2^e] in decimal, as the integer [m * 2^e] with the
    exponent [e0] when [e >= 0] and as [m * 5^k] with the exponent
    [e-k] when [e = -k < 0]; the zeros, the infinities and NaN as
    [repr] writes them. *)
Definition float_text (x : float64) : pystr :=
  match x with
  | S754_zero s => if s then str "-0.0" else str "0.0"
  | S754_infinity s => if s then str "-inf" else str "inf"
  | S754_nan => str "nan"
  | S754_finite s m e =>
      (if s then str "-" else [])
      ++ match e with
         | Z.neg k => digits_text (m * 5 ^ k) ++ str "e-" ++ digits_text k
         | Z0 => digits_text m ++ str "e0"
         | Z.pos k => digits_text (m * 2 ^ k) ++ str "e0"
         end
  end.

(** The text of a value in an entry: [str(z)] for an integer, the
    text above for a float. *)
Definition value_text (v : value) : pystr :=
  match v with
  | VInt z => decimal z
  | VFloat x => float_text x
  | VStr s => s
  end.

(** The values an entry can carry: integers that [str] and [int]
    convert (at most [max_str_digits] digits) and binary64 numbers. *)
Definition writable (v : value) : Prop :=
  match v with
  | VInt z => (length (decimal (Z.abs z)) <= max_str_digits)%nat
  | VFloat x => valid x = true
  | VStr _ => False
  end.

(** The parameters an entry can be built from, as names and values:
    plain names other than [signal], no name twice, and values that
    can be written. *)
Definition writable_params (prm : list (pystr * value)) : Prop :=
  NoDup (map fst prm)
  /\ Forall (fun kv => plain_word kv.1 = true /\ kv.1 <> str "signal" /\ writable kv.2) prm.

(** The parameters as they stand in the entry. *)
Definition written (prm : list (pystr * value)) : list (pystr * pystr) :=
  map (fun kv => (kv.1, value_text kv.2)) prm.

(* ================================================================== *)
(** * Theorems: binary64 *)
(* ================================================================== *)

Section Float64Facts.

Local Open Scope Z_scope.

Lemma in_int64_spec (z : Z) :
  in_int64 z = true <-> - 2 ^ 63 <= z <= 2 ^ 63 - 1.
Proof.
  unfold in_int64, INT64_MIN, INT64_MAX.
  rewrite andb_true_iff, !Z.leb_le. tauto.
Qed.

Lemma digits2_pos_size (p : positive) : digits2_pos p = Pos.size p.
Proof. induction p; simpl; congruence. Qed.

Lemma digits2_pos_iter_xO (m k : positive) :
  digits2_pos (Pos.iter xO m k) = (digits2_pos m + k)%positive.
Proof.
  induction k using Pos.peano_ind.
  - simpl. lia.
  - rewrite Pos.iter_succ. simpl. rewrite IHk. lia.
Qed.

Lemma iter_xO_mul (m k : positive) :
  Pos.iter xO m k = (m * 2 ^ k)%positive.
Proof.
  induction k using Pos.peano_ind.
  - simpl. lia.
  - rewrite Pos.iter_succ, IHk, Pos.pow_succ_r. lia.
Qed.

Lemma digits2_pos_bound (m : positive) (d : Z) :
  Z.pos m < 2 ^ d -> 0 <= d -> Z.pos (digits2_pos m) <= d.
Proof.
  intros Hm Hd. rewrite digits2_pos_size.
  destruct (Z.le_gt_cases (Z.pos (Pos.size m)) d) as [|Hgt]; [done|].
  exfalso.
  pose proof (Pos.size_le m) as Hle.
  assert (2 ^ Z.pos (Pos.size m) <= Z.pos m~0) as H1.
  { rewrite <- Pos2Z.inj_pow. lia. }
  assert (2 ^ (d + 1) <= 2 ^ Z.pos (Pos.size m)) as H2
    by (apply Z.pow_le_mono_r; lia).
  rewrite Z.pow_add_r in H2 by lia. lia.
Qed.

(** An integer below [2^53] in magnitude converts exactly: the result
    is [m * 2^k] with exponent [-k]. *)
Lemma binary_round_small (s : bool) (m : positive) :
  Z.pos m < 2 ^ 53 ->
  exists k : Z, 0 <= k /\
    binary_round prec emax s m 0
    = S754_finite s (Z.to_pos (Z.pos m * 2 ^ k)) (- k).
Proof.
  intros Hm.
  pose proof (digits2_pos_bound m 53 Hm ltac:(lia)) as Hd.
  set (d := Z.pos (digits2_pos m)) in *.
  assert (0 < d) as Hd0 by (subst d; lia).
  exists (53 - d). split; [lia|].
  unfold binary_round.
  assert (fexp prec emax (Z.pos (digits2_pos m) + 0) = d - 53) as ->.
  { unfold fexp, emin, prec, emax. fold d. lia. }
  assert (exists mz, shl_align m 0 (d - 53) = (mz, d - 53)
                     /\ Z.pos mz = Z.pos m * 2 ^ (53 - d)
                     /\ Z.pos (digits2_pos mz) = 53) as (mz & -> & Hmz & Hdz).
  { unfold shl_align. destruct (d - 53 - 0) eqn:E; try lia.
    - exists m. replace (d - 53) with 0 by lia. replace (53 - d) with 0 by lia.
      split; [done|]. split; [lia|]. fold d. lia.
    - exists (Pos.iter xO m p). split; [done|].
      rewrite digits2_pos_iter_xO, iter_xO_mul. fold d.
      replace (53 - d) with (Z.pos p) by lia.
      rewrite Pos2Z.inj_mul, Pos2Z.inj_pow. split; [done|].
      rewrite Pos2Z.inj_add. fold d. lia. }
  unfold binary_round_aux.
  assert (shr_fexp prec emax (Z.pos mz) (d - 53) loc_Exact
          = ({| shr_m := Z.pos mz; shr_r := false; shr_s := false |}, d - 53)) as Hshr.
  { unfold shr_fexp. simpl Zdigits2. rewrite Hdz.
    assert (fexp prec emax (53 + (d - 53)) - (d - 53) = 0) as ->.
    { unfold fexp, emin, prec, emax. lia. }
    reflexivity. }
  rewrite Hshr. simpl. rewrite Hshr. simpl.
  assert ((d - 53 <=? emax - prec) = true) as -> by (unfold emax, prec; lia).
  f_equal; lia.
Qed.

Lemma float_to_int64_normalize (z : Z) (s : bool) :
  Z.abs z < 2 ^ 53 ->
  float_to_int64 (binary_normalize prec emax z 0 s) = z.
Proof.
  intros Hz. unfold binary_normalize.
  assert (forall (sg : bool) (m : positive), Z.pos m < 2 ^ 53 ->
            float_to_int64 (binary_round prec emax sg m 0)
            = if sg then Z.neg m else Z.pos m) as Hround.
  { intros sg m Hm.
    destruct (binary_round_small sg m Hm) as (k & Hk & ->).
    unfold float_to_int64, truncZ.
    assert (0 < 2 ^ k) by (apply Z.pow_pos_nonneg; lia).
    assert (Z.pos (Z.to_pos (Z.pos m * 2 ^ k)) = Z.pos m * 2 ^ k) as Hpos
      by (apply Z2Pos.id; lia).
    assert ((if sg then Z.neg (Z.to_pos (Z.pos m * 2 ^ k))
             else Z.pos (Z.to_pos (Z.pos m * 2 ^ k)))
            = (if sg then Z.neg m else Z.pos m) * 2 ^ k) as ->.
    { destruct sg; [rewrite <- !Pos2Z.opp_pos, Hpos; ring | exact Hpos]. }
    assert (in_int64 (if sg then Z.neg m else Z.pos m) = true) as Hin.
    { apply in_int64_spec. destruct sg; lia. }
    destruct (- k) eqn:E; try lia.
    - replace k with 0 by lia. rewrite Z.pow_0_r, !Z.mul_1_r, Hin. done.
    - rewrite Pos2Z.inj_pow. replace (Z.pos p) with k by lia.
      rewrite Z.quot_mul by lia. by rewrite Hin. }
  destruct z as [|m|m]; [done | apply (Hround false) | apply (Hround true)]; lia.
Qed.

(** [floor] then the cast to int64 is the mathematical floor of the
    value, whenever that fits int64. *)
Lemma floor_to_int64 (x : float64) :
  valid x = true -> is_finite x = true ->
  in_int64 (Qfloor (F2Q x)) = true ->
  float_to_int64 (floor x) = Qfloor (F2Q x).
Proof.
  intros Hv Hf Hin. destruct x as [s|s| |s m e]; try done.
  unfold floor, F2Q in *. destruct (0 <=? e) eqn:He.
  - unfold float_to_int64, truncZ.
    destruct e; try done; rewrite Qfloor_Z in Hin |- *; by rewrite Hin.
  - destruct e as [|e|k]; try done.
    unfold floorZ. simpl Qfloor in *.
    apply float_to_int64_normalize.
    assert (Z.pos m < 2 ^ 53) as Hm.
    { unfold valid, valid_binary, bounded, canonical_mantissa in Hv.
      apply andb_prop in Hv as [Hc _]. apply Z.eqb_eq in Hc.
      unfold fexp, emin, prec, emax in Hc.
      pose proof (Pos.size_gt m) as Hsz. rewrite digits2_pos_size in Hc.
      assert (Z.pos m < 2 ^ Z.pos (Pos.size m)) as H1
        by (rewrite <- Pos2Z.inj_pow; lia).
      assert (2 ^ Z.pos (Pos.size m) <= 2 ^ 53)
        by (apply Z.pow_le_mono_r; lia).
      lia. }
    assert (2 <= Z.pos (2 ^ k)) as Hk.
    { rewrite Pos2Z.inj_pow.
      change 2 with (2 ^ 1) at 1. apply Z.pow_le_mono_r; lia. }
    set (a := if s then Z.neg m else Z.pos m).
    assert (- 2 ^ 53 < a < 2 ^ 53) as Ha by (subst a; destruct s; lia).
    assert (- 2 ^ 53 < a / Z.pos (2 ^ k) < 2 ^ 53); [|lia].
    split.
    + apply Z.lt_le_trans with (- 2 ^ 53 + 1); [lia|].
      apply Z.div_le_lower_bound; [lia|]. nia.
    + apply Z.div_lt_upper_bound; [lia|]. nia.
Qed.

End Float64Facts.

(** ** Rounding gives binary64 numbers *)

Section RoundingValid.

Local Open Scope Z_scope.

Lemma Zdigits2_nonneg (m : Z) : 0 <= Zdigits2 m.
Proof. destruct m; simpl; lia. Qed.

Lemma Zdigits2_bounds (m : Z) :
  0 < m -> 2 ^ (Zdigits2 m - 1) <= m < 2 ^ Zdigits2 m.
Proof.
  intros Hm. destruct m as [|p|p]; try lia. simpl Zdigits2.
  rewrite digits2_pos_size.
  pose proof (Pos.size_gt p) as Hgt. pose proof (Pos.size_le p) as Hle.
  assert (2 ^ Z.pos (Pos.size p) = Z.pos (2 ^ Pos.size p)) as E
    by (by rewrite Pos2Z.inj_pow).
  split.
  - assert (2 ^ Z.pos (Pos.size p) = 2 * 2 ^ (Z.pos (Pos.size p) - 1)) as E'.
    { rewrite <- Z.pow_succ_r by lia. f_equal. lia. }
    lia.
  - lia.
Qed.

Lemma Zdigits2_unique (m d : Z) :
  2 ^ (d - 1) <= m < 2 ^ d -> 0 < d -> Zdigits2 m = d.
Proof.
  intros [Hlo Hhi] Hd.
  assert (0 < m) as Hm.
  { assert (0 < 2 ^ (d - 1)) by (apply Z.pow_pos_nonneg; lia). lia. }
  destruct (Zdigits2_bounds m Hm) as [Hlo' Hhi'].
  pose proof (Zdigits2_nonneg m) as Hnn.
  destruct (Z.lt_trichotomy (Zdigits2 m) d) as [Hlt|[Heq|Hgt]]; [|done|].
  - assert (2 ^ Zdigits2 m <= 2 ^ (d - 1)) by (apply Z.pow_le_mono_r; lia). lia.
  - assert (2 ^ d <= 2 ^ (Zdigits2 m - 1)) by (apply Z.pow_le_mono_r; lia). lia.
Qed.

Lemma Zdigits2_zero_iff (m : Z) : 0 <= m -> (Zdigits2 m = 0 <-> m = 0).
Proof. destruct m; simpl; lia. Qed.

(** The digits of a quotient by a power of two. *)
Lemma Zdigits2_shift (m n : Z) :
  0 <= m -> 0 <= n ->
  Zdigits2 (m / 2 ^ n) = Z.max (Zdigits2 m - n) 0.
Proof.
  intros Hm Hn.
  assert (0 < 2 ^ n) as Hp by (apply Z.pow_pos_nonneg; lia).
  destruct (Z.eq_dec m 0) as [->|Hne].
  { rewrite Z.div_0_l by lia. simpl. lia. }
  destruct (Zdigits2_bounds m ltac:(lia)) as [Hlo Hhi].
  pose proof (Zdigits2_nonneg m) as Hnn.
  destruct (Z.le_gt_cases (Zdigits2 m) n) as [Hle|Hgt].
  - assert (2 ^ Zdigits2 m <= 2 ^ n) by (apply Z.pow_le_mono_r; lia).
    rewrite Z.div_small by lia. simpl. lia.
  - rewrite Z.max_l by lia. apply Zdigits2_unique; [|lia].
    assert (2 ^ (Zdigits2 m - 1) = 2 ^ (Zdigits2 m - n - 1) * 2 ^ n) as E1.
    { rewrite <- Z.pow_add_r by lia. f_equal. lia. }
    assert (2 ^ Zdigits2 m = 2 ^ (Zdigits2 m - n) * 2 ^ n) as E2.
    { rewrite <- Z.pow_add_r by lia. f_equal. lia. }
    split.
    + apply Z.div_le_lower_bound; lia.
    + apply Z.div_lt_upper_bound; lia.
Qed.

Lemma shr_1_m (mrs : shr_record) :
  0 <= shr_m mrs -> shr_m (shr_1 mrs) = shr_m mrs / 2 /\ 0 <= shr_m (shr_1 mrs).
Proof.
  destruct mrs as [m r s]. cbn [shr_m]. intros Hm.
  destruct m as [|[p|p|]|p]; cbn [shr_1 shr_m]; try lia.
  - done.
  - split; [|lia]. apply Z.div_unique with 1; lia.
  - split; [|lia]. apply Z.div_unique with 0; lia.
  - done.
Qed.

Lemma iter_shr_1_m (p : positive) (mrs : shr_record) :
  0 <= shr_m mrs ->
  shr_m (SpecFloat.iter_pos shr_1 p mrs) = shr_m mrs / 2 ^ Z.pos p
  /\ 0 <= shr_m (SpecFloat.iter_pos shr_1 p mrs).
Proof.
  revert mrs. induction p as [p IH|p IH|]; intros mrs Hm; cbn [SpecFloat.iter_pos].
  - destruct (shr_1_m mrs Hm) as [E1 H1].
    destruct (IH _ H1) as [E2 H2]. destruct (IH _ H2) as [E3 H3].
    split; [|done]. rewrite E3, E2, E1.
    assert (0 < 2 ^ Z.pos p) by (apply Z.pow_pos_nonneg; lia).
    rewrite !Z.div_div by lia.
    f_equal. replace (Z.pos p~1) with (Z.pos p + Z.pos p + 1) by lia.
    rewrite 2!Z.pow_add_r by lia. rewrite Z.pow_1_r. lia.
  - destruct (IH _ Hm) as [E2 H2]. destruct (IH _ H2) as [E3 H3].
    split; [|done]. rewrite E3, E2.
    assert (0 < 2 ^ Z.pos p) by (apply Z.pow_pos_nonneg; lia).
    rewrite !Z.div_div by lia.
    f_equal. replace (Z.pos p~0) with (Z.pos p + Z.pos p) by lia.
    rewrite Z.pow_add_r by lia. lia.
  - destruct (shr_1_m mrs Hm) as [E1 H1]. rewrite E1. split; [reflexivity|lia].
Qed.

(** [shr_fexp] brings a mantissa that is too long to its canonical
    exponent. *)
Lemma shr_fexp_spec (m e : Z) (l : location) :
  0 <= m ->
  let n := fexp prec emax (Zdigits2 m + e) - e in
  let '(mrs, e') := shr_fexp prec emax m e l in
  if 0 <? n then shr_m mrs = m / 2 ^ n /\ e' = e + n
  else shr_m mrs = m /\ e' = e.
Proof.
  intros Hm n. unfold shr_fexp, shr. fold n.
  assert (shr_m (shr_record_of_loc m l) = m) as Hrec
    by (by destruct l as [|[]]).
  destruct n as [|p|p] eqn:En; simpl Z.ltb; cbn iota.
  - done.
  - destruct (iter_shr_1_m p (shr_record_of_loc m l)) as [E _]; [by rewrite Hrec|].
    by rewrite E, Hrec.
  - done.
Qed.

Lemma round_nearest_even_bounds (m : Z) (l : location) :
  m <= round_nearest_even m l <= m + 1.
Proof.
  unfold round_nearest_even. destruct l as [|[]]; try lia.
  destruct (Z.even m); lia.
Qed.

Lemma fexp_spec (x : Z) : fexp prec emax x = Z.max (x - 53) (-1074).
Proof. reflexivity. Qed.

(** The result of [binary_round_aux] is a binary64 number whenever
    the mantissa it is given is at least as long as the format
    needs. *)
Lemma binary_round_aux_valid (sx : bool) (mx ex : Z) (lx : location) :
  0 <= mx -> ex <= fexp prec emax (Zdigits2 mx + ex) ->
  valid (binary_round_aux prec emax sx mx ex lx) = true.
Proof.
  intros Hmx Hex. unfold binary_round_aux.
  pose proof (shr_fexp_spec mx ex lx Hmx) as H1. cbn zeta in H1.
  destruct (shr_fexp prec emax mx ex lx) as [mrs1 e1].
  set (m1 := shr_m mrs1) in *.
  set (m2 := round_nearest_even m1 (loc_of_shr_record mrs1)).
  pose proof (round_nearest_even_bounds m1 (loc_of_shr_record mrs1)) as Hrne.
  fold m2 in Hrne.
  pose proof (Zdigits2_nonneg mx) as Hdx.
  (* after the first shift: m1 is canonical at e1, or zero *)
  assert (0 <= m1 /\ e1 = fexp prec emax (Zdigits2 mx + ex)
          /\ Zdigits2 m1 = Z.max (Zdigits2 mx + ex - e1) 0) as (Hm1 & He1 & Hd1).
  { destruct (0 <? fexp prec emax (Zdigits2 mx + ex) - ex) eqn:En.
    - destruct H1 as [Em Ee]. apply Z.ltb_lt in En.
      split; [|split].
      + rewrite Em. apply Z.div_pos; [lia|]. apply Z.pow_pos_nonneg; lia.
      + lia.
      + rewrite Em, Zdigits2_shift by lia. f_equal. lia.
    - destruct H1 as [Em Ee]. apply Z.ltb_ge in En.
      split; [lia|]. split; [lia|]. rewrite Em. lia. }
  assert (0 <= m2) as Hm2 by lia.
  pose proof (shr_fexp_spec m2 e1 loc_Exact Hm2) as H2. cbn zeta in H2.
  destruct (shr_fexp prec emax m2 e1 loc_Exact) as [mrs2 e2].
  destruct (shr_m mrs2) as [|m3|m3] eqn:Em3; [done| |done].
  destruct (e2 <=? emax - prec) eqn:Ebound; [|done].
  unfold valid, valid_binary, bounded. rewrite Ebound, andb_true_r.
  unfold canonical_mantissa. apply Z.eqb_eq.
  change (Z.pos (digits2_pos m3)) with (Zdigits2 (Z.pos m3)).
  rewrite fexp_spec in *.
  pose proof (Zdigits2_nonneg m1) as Hd1n.
  (* the digits of m2 *)
  assert (0 < m2 ->
          Zdigits2 m2 = Zdigits2 m1
          \/ (Zdigits2 m2 = Zdigits2 m1 + 1 /\ m2 = 2 ^ Zdigits2 m1)) as Hd2.
  { intros Hpos. destruct (Z.eq_dec m1 0) as [E0|Hne].
    - right. rewrite E0 in *. assert (m2 = 1) as -> by lia. simpl. done.
    - destruct (Zdigits2_bounds m1 ltac:(lia)) as [Hlo Hhi].
      assert (0 < Zdigits2 m1)
        by (pose proof (Zdigits2_zero_iff m1 Hm1); lia).
      destruct (Z.eq_dec m2 (2 ^ Zdigits2 m1)) as [E|Hlt].
      + right. split; [|done]. apply Zdigits2_unique; [|lia].
        replace (Zdigits2 m1 + 1 - 1) with (Zdigits2 m1) by lia.
        rewrite Z.pow_add_r by lia. lia.
      + left. apply Zdigits2_unique; lia. }
  destruct (0 <? Z.max (Zdigits2 m2 + e1 - 53) (-1074) - e1) eqn:En2.
  - (* the rounding carried into one more digit: one more shift *)
    destruct H2 as [Em Ee]. apply Z.ltb_lt in En2.
    assert (0 < m2) as Hpos.
    { destruct (Z.eq_dec m2 0) as [E|]; [|lia]. rewrite E in En2. simpl in En2. lia. }
    destruct (Hd2 Hpos) as [Hsame|[Hmore Hpow]]; [lia|].
    assert (Z.max (Zdigits2 m2 + e1 - 53) (-1074) - e1 = 1) as Hone by lia.
    rewrite Hone in *.
    assert (0 < Zdigits2 m1) as Hd1p by lia.
    assert (Z.pos m3 = 2 ^ (Zdigits2 m1 - 1)) as E3.
    { rewrite Em, Hpow.
      replace (Zdigits2 m1) with (Zdigits2 m1 - 1 + 1) at 1 by lia.
      rewrite Z.pow_add_r by lia. apply Z.div_mul. lia. }
    assert (Zdigits2 (Z.pos m3) = Zdigits2 m1) as Ed3.
    { apply Zdigits2_unique; [|lia]. rewrite E3.
      split; [lia|]. apply Z.pow_lt_mono_r; lia. }
    rewrite Ed3. lia.
  - destruct H2 as [Em Ee]. apply Z.ltb_ge in En2.
    assert (m2 = Z.pos m3) as E3 by congruence.
    rewrite <- E3. subst e2.
    destruct (Hd2 ltac:(lia)) as [Hsame|[Hmore Hpow]]; lia.
Qed.

Lemma valid_finite (s : bool) (m : positive) (e : Z) :
  valid (S754_finite s m e) = true ->
  e = Z.max (Zdigits2 (Z.pos m) + e - 53) (-1074).
Proof.
  unfold valid, valid_binary, bounded, canonical_mantissa.
  intros H. apply andb_true_iff in H as [H _]. apply Z.eqb_eq in H.
  rewrite fexp_spec in H. simpl Zdigits2. lia.
Qed.

Lemma Zdigits2_le (a d : Z) : 0 <= d -> 2 ^ d <= a -> d + 1 <= Zdigits2 a.
Proof.
  intros Hd Ha.
  assert (0 < 2 ^ d) by (apply Z.pow_pos_nonneg; lia).
  destruct (Zdigits2_bounds a ltac:(lia)) as [_ Hhi].
  pose proof (Zdigits2_nonneg a).
  destruct (Z.le_gt_cases (d + 1) (Zdigits2 a)) as [|Hlt]; [done|].
  assert (2 ^ Zdigits2 a <= 2 ^ d) by (apply Z.pow_le_mono_r; lia). lia.
Qed.

Lemma Zdigits2_mul (a b : Z) :
  0 < a -> 0 < b -> Zdigits2 a + Zdigits2 b - 1 <= Zdigits2 (a * b).
Proof.
  intros Ha Hb.
  destruct (Zdigits2_bounds a Ha) as [Hla _].
  destruct (Zdigits2_bounds b Hb) as [Hlb _].
  assert (0 < Zdigits2 a) by (pose proof (Zdigits2_zero_iff a); pose proof (Zdigits2_nonneg a); lia).
  assert (0 < Zdigits2 b) by (pose proof (Zdigits2_zero_iff b); pose proof (Zdigits2_nonneg b); lia).
  assert (0 < 2 ^ (Zdigits2 a - 1)) by (apply Z.pow_pos_nonneg; lia).
  assert (0 < 2 ^ (Zdigits2 b - 1)) by (apply Z.pow_pos_nonneg; lia).
  pose proof (Zdigits2_le (a * b) (Zdigits2 a - 1 + (Zdigits2 b - 1))) as Hd.
  rewrite Z.pow_add_r in Hd by lia.
  assert (2 ^ (Zdigits2 a - 1) * 2 ^ (Zdigits2 b - 1) <= a * b) by nia.
  lia.
Qed.

(** A product of binary64 numbers is a binary64 number. *)
Lemma fmul_valid (x y : float64) :
  valid x = true -> valid y = true -> valid (fmul x y) = true.
Proof.
  destruct x as [sx|sx| |sx mx ex], y as [sy|sy| |sy my ey]; try done.
  intros Hx Hy. unfold fmul. cbn [SFmul].
  apply valid_finite in Hx, Hy.
  apply binary_round_aux_valid; [lia|]. rewrite fexp_spec.
  pose proof (Zdigits2_mul (Z.pos mx) (Z.pos my) ltac:(lia) ltac:(lia)) as Hd.
  rewrite Pos2Z.inj_mul.
  assert (0 < Zdigits2 (Z.pos mx)) by (simpl; lia).
  assert (0 < Zdigits2 (Z.pos my)) by (simpl; lia).
  lia.
Qed.

(** A quotient is a binary64 number, whatever its operands are: the
    dividend is extended to as many digits as the format needs. *)
Lemma fdiv_valid (x y : float64) : valid (fdiv x y) = true.
Proof.
  destruct x as [sx|sx| |sx mx ex], y as [sy|sy| |sy my ey]; try done.
  unfold fdiv. cbn [SFdiv].
  unfold SFdiv_core_binary. rewrite !fexp_spec.
  set (d1 := Zdigits2 (Z.pos mx)). set (d2 := Zdigits2 (Z.pos my)).
  set (e' := Z.min (Z.max (d1 + ex - (d2 + ey) - 53) (-1074)) (ex - ey)).
  set (s := ex - ey - e').
  assert (0 <= s) as Hs by (unfold s, e'; lia).
  set (m' := match s with 0 => Z.pos mx | Z.pos _ => Z.shiftl (Z.pos mx) s | Z.neg _ => 0 end).
  assert (m' = Z.pos mx * 2 ^ s) as Hm'.
  { unfold m'. destruct s as [|p|p] eqn:Es; [lia| |lia].
    rewrite Z.shiftl_mul_pow2 by lia. done. }
  clearbody m'.
  assert (0 < 2 ^ s) as Hps by (apply Z.pow_pos_nonneg; lia).
  pose proof (Z_div_mod m' (Z.pos my) ltac:(lia)) as Hdm.
  destruct (Z.div_eucl m' (Z.pos my)) as [q r]. destruct Hdm as [Hq Hr].
  assert (0 <= q) as Hq0 by nia.
  apply binary_round_aux_valid; [done|]. rewrite fexp_spec.
  assert (0 < d1) as Hd1 by (unfold d1; simpl; lia).
  assert (0 < d2) as Hd2 by (unfold d2; simpl; lia).
  destruct (Zdigits2_bounds (Z.pos mx) ltac:(lia)) as [Hl1 _].
  destruct (Zdigits2_bounds (Z.pos my) ltac:(lia)) as [_ Hh2].
  fold d1 in Hl1. fold d2 in Hh2.
  pose proof (Zdigits2_nonneg q) as Hdq.
  destruct (Z.le_gt_cases 0 (d1 - 1 + s - d2)) as [Hk|Hk]; [|unfold s, e' in *; lia].
  assert (d1 + s - d2 <= Zdigits2 q) as Hdig.
  { replace (d1 + s - d2) with (d1 - 1 + s - d2 + 1) by lia.
    apply Zdigits2_le; [done|].
    assert (0 < 2 ^ (d1 - 1 + s - d2)) by (apply Z.pow_pos_nonneg; lia).
    assert (2 ^ (d1 - 1 + s - d2) * 2 ^ d2 = 2 ^ (d1 - 1) * 2 ^ s) as E.
    { rewrite <- !Z.pow_add_r by lia. f_equal. lia. }
    assert (2 ^ (d1 - 1 + s - d2) * Z.pos my <= Z.pos my * q + r) by nia.
    nia. }
  unfold s, e' in *. lia.
Qed.

Lemma iter_xO (m d : positive) :
  Z.pos (Pos.iter xO m d) = Z.pos m * 2 ^ Z.pos d.
Proof.
  induction d as [|d IH] using Pos.peano_ind.
  - simpl. lia.
  - rewrite Pos.iter_succ, Pos2Z.inj_xO, IH, Pos2Z.inj_succ, Z.pow_succ_r by lia. lia.
Qed.

(** The conversion of an integer is a binary64 number. *)
Lemma of_int_valid (z : Z) : valid (of_int z) = true.
Proof.
  unfold of_int, binary_normalize.
  assert (forall (s : bool) (m : positive),
            valid (binary_round prec emax s m 0) = true) as H.
  { intros s m. unfold binary_round, shl_align. rewrite fexp_spec.
    change (Z.pos (digits2_pos m)) with (Zdigits2 (Z.pos m)).
    destruct (Z.max (Zdigits2 (Z.pos m) + 0 - 53) (-1074) - 0) as [|d|d] eqn:Ed;
      (apply binary_round_aux_valid; [lia|]); rewrite fexp_spec; try lia.
    rewrite iter_xO.
    assert (0 < 2 ^ Z.pos d) by (apply Z.pow_pos_nonneg; lia).
    destruct (Zdigits2_bounds (Z.pos m) ltac:(lia)) as [Hlo Hhi].
    assert (0 < Zdigits2 (Z.pos m)) by (simpl; lia).
    assert (Zdigits2 (Z.pos m * 2 ^ Z.pos d) = Zdigits2 (Z.pos m) + Z.pos d) as ->.
    { apply Zdigits2_unique; [|lia].
      replace (Zdigits2 (Z.pos m) + Z.pos d - 1) with (Zdigits2 (Z.pos m) - 1 + Z.pos d) by lia.
      rewrite !Z.pow_add_r by lia. nia. }
    lia. }
  destruct z; [done|apply H|apply H].
Qed.

(** The product that is floored is a binary64 number. *)
Lemma cycles_product_valid (x fs : float64) (N : Z) :
  valid (fmul (fdiv x fs) (of_int N)) = true.
Proof. apply fmul_valid; [apply fdiv_valid | apply of_int_valid]. Qed.

End RoundingValid.

(* ================================================================== *)
(** * Theorems: the store *)
(* ================================================================== *)

Section StoreFacts.

Lemma bind_ok {A B} (c : M A) (k : A -> M B) (h h' : store) (a : A) :
  c h = Ok (a, h') -> bind c k h = k a h'.
Proof. intros H. unfold bind. by rewrite H. Qed.

Lemma load_ok (h : store) (l : nat) (b : buffer) :
  h !! l = Some b -> load l h = Ok (b, h).
Proof. intros H. unfold load. by rewrite H. Qed.

Lemma elementwise_ok (f : buffer -> buffer) (a : ndarray) (h : store) (b : buffer) :
  h !! base a = Some b ->
  elementwise f a h = Ok ({| base := length h; shape := shape a |}, h ++ [f b]).
Proof. intros H. unfold elementwise. by rewrite (bind_ok _ _ _ _ _ (load_ok _ _ _ H)). Qed.

Lemma store_at_ok (h : store) (l : nat) (b b' : buffer) :
  h !! l = Some b' -> store_at l b h = Ok (tt, <[l := b]> h).
Proof. intros H. unfold store_at. by rewrite H. Qed.

Lemma reshape_ok (a : ndarray) (s : list nat) (h : store) :
  size_of_shape s = size a ->
  reshape a s h = Ok ({| base := base a; shape := s |}, h).
Proof. intros H. unfold reshape. by rewrite H, Nat.eqb_refl. Qed.

Lemma zip_with_map_map {A B C D} (f : B -> C -> D) (g : A -> B) (k : A -> C) (xs : list A) :
  zip_with f (map g xs) (map k xs) = map (fun x => f (g x) (k x)) xs.
Proof. induction xs; simpl; congruence. Qed.

End StoreFacts.

Section Run.

Local Open Scope Z_scope.

Lemma insert_snoc (h : store) (b b' : buffer) :
  <[length h := b']> (h ++ [b]) = h ++ [b'].
Proof.
  replace (length h) with (length h + 0)%nat by lia.
  by rewrite insert_app_r.
Qed.

Ltac len := rewrite ?length_app; simpl; lia.

Ltac lookup_new :=
  repeat (rewrite lookup_app_l by len);
  first [ apply list_lookup_middle; len | eassumption ].

Ltac step_elementwise :=
  erewrite bind_ok by (apply elementwise_ok; cbn [base shape]; lookup_new);
  cbn beta; cbn [as_float64 as_int64 base shape].

(** Steps 1 to 6 on an array argument: the store grows by the eight
    temporaries, and nothing else changes. *)
Lemma gcf_array_run (h : store) (a : ndarray) (fs : float64) (N : Z) (b : buffer) :
  h !! base a = Some b -> buf_len b = size a -> in_int64 N = true ->
  generate_coherent_frequencies (PyArr a) fs N h
  = (if Nat.eqb (ndim a) 0 then
       x <- item {| base := length h + 7; shape := shape a |} ;;
       k <- item {| base := length h + 3; shape := shape a |} ;;
       k <- py_int k ;;
       ret (x, k)
     else ret (PyArr {| base := length h + 7; shape := shape a |},
               PyArr {| base := length h + 3; shape := shape a |}))
      (h ++ temporaries fs N (as_float64 b)).
Proof.
  intros Hb Hlen HN. unfold generate_coherent_frequencies.
  simpl np_asarray. unfold ravel.
  rewrite (bind_ok _ _ h h a) by done.
  erewrite bind_ok by done.
  unfold np_true_divide at 1. step_elementwise.
  unfold np_multiply at 1. step_elementwise.
  unfold np_floor. step_elementwise.
  unfold astype_int. step_elementwise.
  unfold np_gcd, int64_of_pyint. rewrite HN.
  erewrite bind_ok
    by (erewrite bind_ok by reflexivity; apply elementwise_ok; cbn [base shape]; lookup_new).
  cbn beta; cbn [as_float64 as_int64 base shape].
  unfold np_not_equal. step_elementwise.
  unfold isub_masked.
  erewrite bind_ok.
  2:{ cbn [base]. erewrite bind_ok by (apply load_ok; lookup_new).
      erewrite bind_ok by (apply load_ok; lookup_new).
      rewrite !length_map, Nat.eqb_refl.
      eapply store_at_ok. lookup_new. }
  rewrite !insert_app_l by len. rewrite insert_snoc.
  unfold np_true_divide. step_elementwise.
  unfold np_multiply. step_elementwise.
  erewrite bind_ok by (apply reshape_ok; unfold size; simpl; lia).
  erewrite bind_ok by (apply reshape_ok; unfold size; simpl; lia).
  cbn [base].
  assert (forall (A : Type) (c : M A) (h1 h2 : store), h1 = h2 -> c h1 = c h2) as Hcong
    by (intros; congruence).
  rewrite !length_app. cbn [length].
  replace (length h + 1 + 1 + 1 + 1 + 1 + 1 + 1)%nat with (length h + 7)%nat by lia.
  replace (length h + 1 + 1 + 1)%nat with (length h + 3)%nat by lia.
  apply Hcong.
  rewrite <- !app_assoc. simpl. unfold temporaries.
  assert (zip_with (fun (k : Z) (sel : bool) => if sel then wrap64 (k - 1) else k)
            (map float_to_int64 (map floor (map (fun v => fmul v (of_int N))
               (map (fun v => fdiv v fs) (as_float64 b)))))
            (map (fun k => negb (k =? 1)) (map (fun k => gcd64 k N)
               (map float_to_int64 (map floor (map (fun v => fmul v (of_int N))
                  (map (fun v => fdiv v fs) (as_float64 b)))))))
          = map (corrected_cycles fs N) (as_float64 b)) as ->.
  { rewrite !map_map, zip_with_map_map. done. }
  by rewrite !map_map.
Qed.

End Run.

(* ================================================================== *)
(** * Theorems: generate_coherent_frequencies *)
(* ================================================================== *)

Section Selector.

Local Open Scope Z_scope.

Lemma length_as_float64 (b : buffer) : length (as_float64 b) = buf_len b.
Proof. destruct b; simpl; by rewrite ?length_map. Qed.

Lemma lookup_temporaries (h : store) (l : list buffer) (k : nat) :
  (h ++ l) !! (length h + k)%nat = l !! k.
Proof. rewrite lookup_app_r by lia. f_equal. lia. Qed.

(** What a call returns, for every well-formed argument: the cycle
    counts and frequencies of the input values, in arrays of the
    input's shape or as two scalars, in a store that extends the
    caller's. *)
Lemma gcf_returns (h : store) (f_0 : pyobj) (fs : float64) (N : Z) :
  valid_arg h f_0 -> in_int64 N = true ->
  exists (f_i K : pyobj) (h1 : list buffer),
    generate_coherent_frequencies f_0 fs N h = Ok ((f_i, K), h ++ h1)
    /\ elements (h ++ h1) K
       = Some (Int64Buf (map (corrected_cycles fs N) (input_values h f_0)))
    /\ elements (h ++ h1) f_i
       = Some (Float64Buf (map (fun x => coherent_frequency fs N (corrected_cycles fs N x))
                             (input_values h f_0)))
    /\ match f_0 with
       | PyArr a =>
           if Nat.eqb (ndim a) 0
           then exists x k, f_i = PyFloat x /\ K = PyInt k
           else exists fa ka, f_i = PyArr fa /\ K = PyArr ka
                /\ shape fa = shape a /\ shape ka = shape a
                /\ (length h <= base fa)%nat /\ (length h <= base ka)%nat
       | _ => exists x k, f_i = PyFloat x /\ K = PyInt k
       end.
Proof.
  intros Hv HN.
  assert (forall (h0 : store) (a : ndarray) (b : buffer),
    h0 !! base a = Some b -> buf_len b = size a ->
    exists (f_i K : pyobj) (h1 : list buffer),
      generate_coherent_frequencies (PyArr a) fs N h0 = Ok ((f_i, K), h0 ++ h1)
      /\ h1 = temporaries fs N (as_float64 b)
      /\ elements (h0 ++ h1) K = Some (Int64Buf (map (corrected_cycles fs N) (as_float64 b)))
      /\ elements (h0 ++ h1) f_i
         = Some (Float64Buf (map (fun x => coherent_frequency fs N (corrected_cycles fs N x))
                               (as_float64 b)))
      /\ if Nat.eqb (ndim a) 0
         then exists x k, f_i = PyFloat x /\ K = PyInt k
         else exists fa ka, f_i = PyArr fa /\ K = PyArr ka
              /\ shape fa = shape a /\ shape ka = shape a
              /\ (length h0 <= base fa)%nat /\ (length h0 <= base ka)%nat) as Harr.
  { intros h0 a b Hb Hlen.
    rewrite (gcf_array_run h0 a fs N b Hb Hlen HN).
    destruct (Nat.eqb (ndim a) 0) eqn:Hnd.
    - apply Nat.eqb_eq in Hnd. unfold ndim in Hnd.
      destruct (shape a) eqn:Hs; [|done].
      assert (length (as_float64 b) = 1%nat) as Hone.
      { rewrite length_as_float64, Hlen. unfold size. by rewrite Hs. }
      destruct (as_float64 b) as [|x [|]]; try done.
      eexists _, _, _. split; [|split; [reflexivity|]].
      + unfold item. cbn [base].
        erewrite bind_ok.
        2:{ erewrite bind_ok by (apply load_ok; rewrite lookup_temporaries; reflexivity).
            reflexivity. }
        erewrite bind_ok.
        2:{ erewrite bind_ok by (apply load_ok; rewrite lookup_temporaries; reflexivity).
            reflexivity. }
        reflexivity.
      + repeat split. by eexists _, _.
    - eexists _, _, _. split; [reflexivity|]. split; [reflexivity|].
      cbn [elements base array_shape shape].
      rewrite !lookup_temporaries. simpl. rewrite map_map.
      repeat split. eexists _, _. repeat split; simpl; lia. }
  destruct f_0 as [x|z|a]; simpl in Hv.
  - destruct (Harr (h ++ [Float64Buf [x]]) {| base := length h; shape := [] |}
                (Float64Buf [x])) as (f_i & K & h1 & Hrun & Hh1 & HK & Hf & Hsh).
    { simpl. by apply list_lookup_middle. }
    { done. }
    exists f_i, K, (Float64Buf [x] :: h1).
    replace (h ++ Float64Buf [x] :: h1) with ((h ++ [Float64Buf [x]]) ++ h1)
      by (by rewrite <- app_assoc).
    split; [exact Hrun|]. split; [exact HK|]. split; [exact Hf|]. exact Hsh.
  - destruct (Harr (h ++ [Int64Buf [z]]) {| base := length h; shape := [] |}
                (Int64Buf [z])) as (f_i & K & h1 & Hrun & Hh1 & HK & Hf & Hsh).
    { simpl. by apply list_lookup_middle. }
    { done. }
    exists f_i, K, (Int64Buf [z] :: h1).
    replace (h ++ Int64Buf [z] :: h1) with ((h ++ [Int64Buf [z]]) ++ h1)
      by (by rewrite <- app_assoc).
    split; [|split; [exact HK|split; [exact Hf|exact Hsh]]].
    rewrite <- Hrun. unfold generate_coherent_frequencies.
    unfold np_asarray, int64_of_pyint. rewrite Hv. reflexivity.
  - destruct Hv as (b & Hb & Hlen).
    destruct (Harr h a b Hb Hlen) as (f_i & K & h1 & Hrun & Hh1 & HK & Hf & Hsh).
    exists f_i, K, h1. simpl. rewrite Hb. done.
Qed.

End Selector.

Section SelectorProperties.

Local Open Scope Z_scope.

Lemma float_to_int64_range (x : float64) : in_int64 (float_to_int64 x) = true.
Proof.
  destruct x as [s|s| |s m e]; simpl; try done.
  by destruct (in_int64 (truncZ s m e)) eqn:E.
Qed.

Lemma gcd64_eq_1 (a b : Z) :
  in_int64 a = true -> in_int64 b = true ->
  (gcd64 a b =? 1) = (Z.gcd a b =? 1).
Proof.
  intros Ha Hb. apply in_int64_spec in Ha, Hb. unfold gcd64, wrap64.
  pose proof (Z.gcd_nonneg a b) as Hnn.
  assert (Z.gcd a b <= 2 ^ 63) as Hle.
  { destruct (Z.eq_dec a 0) as [->|Hne].
    - rewrite Z.gcd_0_l. lia.
    - pose proof (Z.gcd_divide_l a b) as Hd.
      apply Z.divide_abs_r in Hd.
      apply Z.divide_pos_le in Hd; lia. }
  destruct (Z.eq_dec (Z.gcd a b) (2 ^ 63)) as [E|E].
  - rewrite E. reflexivity.
  - rewrite Z.mod_small by lia.
    destruct (Z.eqb_spec (Z.gcd a b) 1), (Z.eqb_spec (Z.gcd a b + 2 ^ 63 - 2 ^ 63) 1); lia.
Qed.

(** The correction of step 4, with the gcd read on the integers. *)
Lemma corrected_cycles_eq (fs : float64) (N : Z) (x : float64) :
  in_int64 N = true ->
  corrected_cycles fs N x
  = let K0 := initial_cycles fs N x in
    if Z.gcd K0 N =? 1 then K0 else wrap64 (K0 - 1).
Proof.
  intros HN. unfold corrected_cycles. cbn zeta.
  rewrite gcd64_eq_1 by (done || apply float_to_int64_range).
  by destruct (Z.gcd (initial_cycles fs N x) N =? 1).
Qed.

(** Away from the lower end of int64 the decrement does not wrap. *)
Lemma wrap64_pred (k : Z) :
  in_int64 k = true -> k <> INT64_MIN -> wrap64 (k - 1) = k - 1.
Proof.
  intros Hk Hne. apply in_int64_spec in Hk. unfold INT64_MIN in Hne.
  unfold wrap64. rewrite Z.mod_small; lia.
Qed.

(** ** C1 *)

(** C1 fails on the code: at [f0 = 3], [fs = 2], [N = 6] (all
    positive) the initial estimate is 9, which shares the factor 3
    with 6; the single decrement gives [K = 8], and [gcd(8, 6) = 2],
    although the docstring promises [K] and [N] coprime. *)
Lemma C1_not_always_coprime :
  exists (f_i : pyobj) (h' : store),
    generate_coherent_frequencies (PyFloat (of_int 3)) (of_int 2) 6 []
    = Ok ((f_i, PyInt 8), h')
    /\ initial_cycles (of_int 2) 6 (of_int 3) = 9
    /\ Z.gcd 8 6 = 2
    /\ fltb (of_int 0) (of_int 2) = true /\ 0 < 6.
Proof. eexists _, _. vm_compute. repeat split. Qed.

(** What does hold: for every well-formed input and every int64 [N],
    each returned frequency is [K / N * fs] computed in binary64 from
    the returned cycle count, and a returned [K] is coprime to [N]
    exactly when the initial estimate [K0] or its predecessor is. *)
Theorem frequency_and_one_step_coprimality
    (h : store) (f_0 : pyobj) (fs : float64) (N : Z) :
  valid_arg h f_0 -> in_int64 N = true ->
  exists (f_i K : pyobj) (h' : store) (ks : list Z) (fis : list float64),
    generate_coherent_frequencies f_0 fs N h = Ok ((f_i, K), h')
    /\ elements h' K = Some (Int64Buf ks)
    /\ elements h' f_i = Some (Float64Buf fis)
    /\ length ks = length (input_values h f_0)
    /\ length fis = length (input_values h f_0)
    /\ forall (i : nat) (x : float64) (k : Z),
         input_values h f_0 !! i = Some x -> ks !! i = Some k ->
         fis !! i = Some (fmul (fdiv (of_int k) (of_int N)) fs)
         /\ (Z.gcd k N = 1 <->
             Z.gcd (initial_cycles fs N x) N = 1
             \/ Z.gcd (wrap64 (initial_cycles fs N x - 1)) N = 1).
Proof.
  intros Hv HN.
  destruct (gcf_returns h f_0 fs N Hv HN) as (f_i & K & h1 & Hrun & HK & Hf & _).
  eexists f_i, K, (h ++ h1), _, _.
  split; [exact Hrun|]. split; [exact HK|]. split; [exact Hf|].
  rewrite !length_map. split; [done|]. split; [done|].
  intros i x k Hx Hk.
  rewrite list_lookup_fmap, Hx in Hk. simpl in Hk. injection Hk as <-.
  split.
  - by rewrite list_lookup_fmap, Hx.
  - rewrite corrected_cycles_eq by done. cbn zeta.
    destruct (Z.eqb_spec (Z.gcd (initial_cycles fs N x) N) 1) as [E|E]; tauto.
Qed.

(** ** C2 *)

(** [floor] followed by the cast to int64, in every case: the
    mathematical floor of a finite value when it fits int64,
    [INT64_MIN] for every other value. *)
Lemma floor_to_int64_cases (x : float64) :
  valid x = true ->
  float_to_int64 (floor x)
  = if is_finite x && in_int64 (Qfloor (F2Q x)) then Qfloor (F2Q x) else INT64_MIN.
Proof.
  intros Hv. destruct (is_finite x) eqn:Hf; [|by destruct x].
  destruct (in_int64 (Qfloor (F2Q x))) eqn:Hin; cbn [andb].
  { by apply floor_to_int64. }
  destruct x as [s|s| |s m e]; try done.
  unfold floor, F2Q in *. destruct (0 <=? e) eqn:He.
  - unfold float_to_int64, truncZ.
    destruct e; try done; rewrite Qfloor_Z in Hin; by rewrite Hin.
  - destruct e as [|e|k]; try done. exfalso.
    simpl Qfloor in Hin.
    assert (in_int64 ((if s then Z.neg m else Z.pos m) / Z.pos (2 ^ k)) = true) as Hin';
      [|by rewrite Hin' in Hin].
    apply in_int64_spec.
    assert (Z.pos m < 2 ^ 53) as Hm.
    { unfold valid, valid_binary, bounded, canonical_mantissa in Hv.
      apply andb_prop in Hv as [Hc _]. apply Z.eqb_eq in Hc.
      unfold fexp, emin, prec, emax in Hc.
      pose proof (Pos.size_gt m) as Hsz. rewrite digits2_pos_size in Hc.
      assert (Z.pos m < 2 ^ Z.pos (Pos.size m)) as H1
        by (rewrite <- Pos2Z.inj_pow; lia).
      assert (2 ^ Z.pos (Pos.size m) <= 2 ^ 53)
        by (apply Z.pow_le_mono_r; lia).
      lia. }
    assert (1 <= Z.pos (2 ^ k)) as Hk by lia.
    set (a := if s then Z.neg m else Z.pos m).
    assert (- 2 ^ 53 < a < 2 ^ 53) as Ha by (subst a; destruct s; lia).
    assert (- 2 ^ 53 <= a / Z.pos (2 ^ k) < 2 ^ 53); [|lia].
    split.
    + apply Z.div_le_lower_bound; [lia|]. nia.
    + apply Z.div_lt_upper_bound; [lia|]. nia.
Qed.

(** The decrement of step 4 in int64 arithmetic: it wraps at the lower
    end of the type. *)
Lemma wrap64_pred_cases (k : Z) :
  in_int64 k = true ->
  wrap64 (k - 1) = if k =? INT64_MIN then INT64_MAX else k - 1.
Proof.
  intros Hk. destruct (Z.eqb_spec k INT64_MIN) as [-> | Hne]; [reflexivity|].
  by apply wrap64_pred.
Qed.

(** C2, counterexample: [K0] is not always [floor(f0 / fs * N)], and
    [K] is not always [K0] or [K0 - 1].  At [f0 = 1e30], [fs = 1],
    [N = 6] the product is the finite number [6e30], whose floor does
    not fit int64: the cast gives [K0 = -2^63] and, 6 being even, the
    decrement wraps to [K = 2^63 - 1], which the call returns.  At
    [f0 = NaN] the product has no floor at all and the call returns the
    same [K].  For an array of dtype float32 the estimate is taken in
    that precision: at the float32 nearest to 0.7, [fs = 0.1], [N = 1]
    it is 7, although the floor of the binary64 product is 6. *)
Lemma C2_estimate_is_not_always_the_floor :
  (exists (f_i : pyobj) (h' : store),
     generate_coherent_frequencies (PyFloat (of_int (10 ^ 30))) (of_int 1) 6 []
     = Ok ((f_i, PyInt INT64_MAX), h')
     /\ initial_cycles (of_int 1) 6 (of_int (10 ^ 30)) = INT64_MIN
     /\ is_finite (fmul (fdiv (of_int (10 ^ 30)) (of_int 1)) (of_int 6)) = true
     /\ INT64_MAX < Qfloor (F2Q (fmul (fdiv (of_int (10 ^ 30)) (of_int 1)) (of_int 6)))
     /\ INT64_MAX <> INT64_MIN /\ INT64_MAX <> INT64_MIN - 1)
  /\ (exists (f_i : pyobj) (h' : store),
        generate_coherent_frequencies (PyFloat S754_nan) (of_int 1) 6 []
        = Ok ((f_i, PyInt INT64_MAX), h')
        /\ initial_cycles (of_int 1) 6 S754_nan = INT64_MIN)
  /\ (let x := fdiv (of_int 7) (of_int 10) in
      let fs := fdiv (of_int 1) (of_int 10) in
      initial_cycles_float32 fs 1 (Float32.of_float64 x) = 7
      /\ Qfloor (F2Q (fmul (fdiv (Float32.of_float64 x) fs) (of_int 1))) = 6).
Proof.
  split; [|split].
  - eexists _, _. vm_compute. repeat split; congruence.
  - eexists _, _. vm_compute. repeat split.
  - vm_compute. repeat split.
Qed.

(** C2, amended: on every well-formed input ([f0] a Python float, a
    Python int within int64 or an array of dtype float64, int64,
    uint64 or bool; [N] within int64) the call returns, and element by
    element, with [p] the binary64 product [f0 / fs * N]: [K0] is the
    mathematical floor of [p] (toward minus infinity, also below zero)
    when [p] is finite and its floor fits int64, and [-2^63] otherwise;
    [K] is [K0] when [gcd(K0, N) = 1] and otherwise [K0 - 1], taken in
    int64 (one decrement, which gives [2^63 - 1] at [K0 = -2^63]); and
    [f_i] is [K / N * fs].  For [f0 = 1_000_000], [fs = 10_000_000],
    [N = 1000] the call returns [K = 99] and [f_i = 990_000], from
    [K0 = 100]; for [f0 = -1], [fs = 4], [N = 2] the estimate is
    [-1]. *)
Theorem C2_floor_then_single_decrement
    (h : store) (f_0 : pyobj) (fs : float64) (N : Z) :
  valid_arg h f_0 -> in_int64 N = true ->
  (exists (f_i K : pyobj) (h' : store) (ks : list Z) (fis : list float64),
     generate_coherent_frequencies f_0 fs N h = Ok ((f_i, K), h')
     /\ elements h' K = Some (Int64Buf ks)
     /\ elements h' f_i = Some (Float64Buf fis)
     /\ Forall3
          (fun (x : float64) (k : Z) (f : float64) =>
             let p := fmul (fdiv x fs) (of_int N) in
             let K0 := if is_finite p && in_int64 (Qfloor (F2Q p))
                       then Qfloor (F2Q p) else INT64_MIN in
             initial_cycles fs N x = K0
             /\ k = (if Z.gcd K0 N =? 1 then K0
                     else if K0 =? INT64_MIN then INT64_MAX else K0 - 1)
             /\ f = fmul (fdiv (of_int k) (of_int N)) fs)
          (input_values h f_0) ks fis)
  /\ (exists h' : store,
        generate_coherent_frequencies (PyInt 1000000) (of_int 10000000) 1000 []
        = Ok ((PyFloat (of_int 990000), PyInt 99), h')
        /\ initial_cycles (of_int 10000000) 1000 (of_int 1000000) = 100)
  /\ initial_cycles (of_int 4) 2 (of_int (-1)) = -1.
Proof.
  intros Hv HN. split; [|split; [eexists; vm_compute; split; reflexivity | reflexivity]].
  destruct (gcf_returns h f_0 fs N Hv HN) as (f_i & K & h1 & Hrun & HK & Hf & _).
  eexists f_i, K, (h ++ h1), _, _.
  split; [exact Hrun|]. split; [exact HK|]. split; [exact Hf|].
  clear Hrun HK Hf Hv.
  induction (input_values h f_0) as [|x xs IH]; simpl; [constructor|].
  constructor; [|exact IH].
  cbn zeta.
  assert (initial_cycles fs N x
          = if is_finite (fmul (fdiv x fs) (of_int N))
               && in_int64 (Qfloor (F2Q (fmul (fdiv x fs) (of_int N))))
            then Qfloor (F2Q (fmul (fdiv x fs) (of_int N))) else INT64_MIN) as HK0.
  { unfold initial_cycles. apply floor_to_int64_cases, cycles_product_valid. }
  split; [exact HK0|]. split; [|reflexivity].
  rewrite corrected_cycles_eq by done. cbn zeta.
  rewrite <- HK0.
  destruct (Z.gcd (initial_cycles fs N x) N =? 1); [reflexivity|].
  apply wrap64_pred_cases, float_to_int64_range.
Qed.

Lemma C2_floor_then_single_decrement_witness :
  valid_arg [Float64Buf [of_int 1000000; of_int (-3); of_int (10 ^ 30)]]
            (PyArr {| base := 0; shape := [3%nat; 1%nat] |})
  /\ in_int64 1000 = true
  /\ exists (f_i K : pyobj) (h' : store),
       generate_coherent_frequencies (PyArr {| base := 0; shape := [3%nat; 1%nat] |})
         (of_int 10000000) 1000
         [Float64Buf [of_int 1000000; of_int (-3); of_int (10 ^ 30)]]
       = Ok ((f_i, K), h')
       /\ elements h' K = Some (Int64Buf [99; -1; INT64_MAX]).
Proof.
  assert (valid_arg [Float64Buf [of_int 1000000; of_int (-3); of_int (10 ^ 30)]]
            (PyArr {| base := 0; shape := [3%nat; 1%nat] |})) as Hv.
  { eexists. split; reflexivity. }
  split; [exact Hv|]. split; [reflexivity|].
  destruct (C2_floor_then_single_decrement _ _ (of_int 10000000) 1000 Hv eq_refl)
    as [(f_i & K & h' & ks & fis & Hrun & HK & _) _].
  exists f_i, K, h'. split; [exact Hrun|].
  vm_compute in Hrun. injection Hrun as <- <- <-. reflexivity.
Defined.

(** ** C3 *)

(** C3, counterexample: with the negative sample rate [fs = -1]
    ([N = 5], [f0 = 1]) the call returns [K = -6] and
    [f_i = -6 / 5 * -1]; with the window length [N = 0] ([fs = 1],
    [f0 = 1]) it returns [K = -1] and an infinite frequency.  No error
    is raised in either case. *)
Lemma C3_no_argument_check :
  (exists (f_i : float64) (h' : store),
     generate_coherent_frequencies (PyFloat (of_int 1)) (of_int (-1)) 5 []
     = Ok ((PyFloat f_i, PyInt (-6)), h')
     /\ fleb (of_int (-1)) (of_int 0) = true)
  /\ (exists h' : store,
        generate_coherent_frequencies (PyFloat (of_int 1)) (of_int 1) 0 []
        = Ok ((PyFloat (S754_infinity true), PyInt (-1)), h')).
Proof. split; [eexists _, _ | eexists]; vm_compute; repeat split. Qed.

(** C3, amended: the function checks neither argument.  For every
    well-formed input with [fs <= 0] or [N <= 0] ([N] an int64 value)
    it returns a result, the one the elementwise formulas give, and
    raises nothing. *)
Theorem C3_nonpositive_arguments_are_accepted
    (h : store) (f_0 : pyobj) (fs : float64) (N : Z) :
  valid_arg h f_0 -> in_int64 N = true ->
  fleb fs (of_int 0) = true \/ N <= 0 ->
  exists (f_i K : pyobj) (h' : store),
    generate_coherent_frequencies f_0 fs N h = Ok ((f_i, K), h')
    /\ elements h' K
       = Some (Int64Buf (map (corrected_cycles fs N) (input_values h f_0)))
    /\ elements h' f_i
       = Some (Float64Buf (map (fun x => fmul (fdiv (of_int (corrected_cycles fs N x))
                                                   (of_int N)) fs)
                             (input_values h f_0))).
Proof.
  intros Hv HN _.
  destruct (gcf_returns h f_0 fs N Hv HN) as (f_i & K & h1 & Hrun & HK & Hf & _).
  by exists f_i, K, (h ++ h1).
Qed.

Lemma C3_nonpositive_arguments_are_accepted_witness :
  valid_arg [] (PyFloat (of_int 1))
  /\ in_int64 (-5) = true
  /\ (fleb (of_int 0) (of_int 0) = true \/ -5 <= 0)
  /\ exists (f_i K : pyobj) (h' : store),
       generate_coherent_frequencies (PyFloat (of_int 1)) (of_int 0) (-5) []
       = Ok ((f_i, K), h').
Proof.
  assert (fleb (of_int 0) (of_int 0) = true \/ -5 <= 0) as Hc by (left; reflexivity).
  split; [exact I|]. split; [reflexivity|]. split; [exact Hc|].
  destruct (C3_nonpositive_arguments_are_accepted [] (PyFloat (of_int 1)) (of_int 0) (-5)
              I eq_refl Hc)
    as (f_i & K & h' & Hrun & _).
  by exists f_i, K, h'.
Defined.

(** ** C8 *)

(** C8, counterexample: a zero-dimensional array (shape [()]) is an
    array, yet [arr.ndim == 0] holds for it and the call returns a
    Python float and a Python int, not two arrays of shape [()]. *)
Lemma C8_zero_dimensional_array_gives_scalars :
  exists (x : float64) (k : Z) (h' : store),
    generate_coherent_frequencies (PyArr {| base := 0; shape := [] |}) (of_int 2) 7
      [Float64Buf [of_int 5]]
    = Ok ((PyFloat x, PyInt k), h')
    /\ array_shape (PyFloat x) = None
    /\ array_shape (PyInt k) = None
    /\ valid_arg [Float64Buf [of_int 5]] (PyArr {| base := 0; shape := [] |}).
Proof.
  eexists _, _, _. split; [vm_compute; reflexivity|].
  repeat split. eexists. split; reflexivity.
Qed.

(** C8, amended: for an array of shape [S] with at least one
    dimension both outputs are arrays of shape [S], each with as many
    elements as the input; for a Python scalar and for a
    zero-dimensional array both outputs are Python scalars (a float and
    an int). *)
Theorem C8_shape_of_the_outputs
    (h : store) (f_0 : pyobj) (fs : float64) (N : Z) :
  valid_arg h f_0 -> in_int64 N = true ->
  exists (f_i K : pyobj) (h' : store),
    generate_coherent_frequencies f_0 fs N h = Ok ((f_i, K), h')
    /\ match f_0 with
       | PyArr a =>
           if Nat.eqb (ndim a) 0
           then exists x k, f_i = PyFloat x /\ K = PyInt k
           else array_shape f_i = Some (shape a)
                /\ array_shape K = Some (shape a)
                /\ (exists fis, elements h' f_i = Some (Float64Buf fis)
                                /\ length fis = size a)
                /\ (exists ks, elements h' K = Some (Int64Buf ks)
                               /\ length ks = size a)
       | PyFloat _ | PyInt _ => exists x k, f_i = PyFloat x /\ K = PyInt k
       end.
Proof.
  intros Hv HN.
  destruct (gcf_returns h f_0 fs N Hv HN) as (f_i & K & h1 & Hrun & HK & Hf & Hsh).
  exists f_i, K, (h ++ h1). split; [exact Hrun|].
  destruct f_0 as [x|z|a]; try exact Hsh.
  destruct (Nat.eqb (ndim a) 0); [exact Hsh|].
  destruct Hsh as (fa & ka & -> & -> & Hfa & Hka & _).
  simpl. rewrite Hfa, Hka. split; [done|]. split; [done|].
  destruct Hv as (b & Hb & Hlen).
  simpl in HK, Hf. rewrite Hb in HK, Hf.
  split; eexists; (split; [eassumption|]);
    by rewrite length_map, length_as_float64.
Qed.

Lemma C8_shape_of_the_outputs_witness :
  valid_arg [Float64Buf (map of_int [1; 2; 3; 4; 5; 6])]
            (PyArr {| base := 0; shape := [2%nat; 3%nat] |})
  /\ in_int64 7 = true
  /\ exists (f_i K : pyobj) (h' : store),
       generate_coherent_frequencies (PyArr {| base := 0; shape := [2%nat; 3%nat] |})
         (of_int 8) 7 [Float64Buf (map of_int [1; 2; 3; 4; 5; 6])]
       = Ok ((f_i, K), h')
       /\ array_shape f_i = Some [2%nat; 3%nat]
       /\ array_shape K = Some [2%nat; 3%nat].
Proof.
  assert (valid_arg [Float64Buf (map of_int [1; 2; 3; 4; 5; 6])]
            (PyArr {| base := 0; shape := [2%nat; 3%nat] |})) as Hv.
  { eexists. split; reflexivity. }
  split; [exact Hv|]. split; [reflexivity|].
  destruct (C8_shape_of_the_outputs _ _ (of_int 8) 7 Hv eq_refl)
    as (f_i & K & h' & Hrun & Hf & HK & _).
  by exists f_i, K, h'.
Defined.

(** ** C9 *)

(** C9: a call leaves every buffer of the caller's store as it was, in
    particular the buffer of an array argument; the array of cycle
    counts that step 4 decrements in place lives in a buffer that did
    not exist before the call. *)
Theorem C9_input_is_not_modified
    (h : store) (f_0 : pyobj) (fs : float64) (N : Z) :
  valid_arg h f_0 -> in_int64 N = true ->
  exists (f_i K : pyobj) (h' : store),
    generate_coherent_frequencies f_0 fs N h = Ok ((f_i, K), h')
    /\ (forall (l : nat) (b : buffer), h !! l = Some b -> h' !! l = Some b)
    /\ match f_0 with
       | PyArr a => h' !! base a = h !! base a
       | _ => True
       end
    /\ match K with
       | PyArr ka => (length h <= base ka)%nat
       | _ => True
       end.
Proof.
  intros Hv HN.
  destruct (gcf_returns h f_0 fs N Hv HN) as (f_i & K & h1 & Hrun & HK & Hf & Hsh).
  exists f_i, K, (h ++ h1). split; [exact Hrun|]. split; [|split].
  - intros l b Hl. by apply lookup_app_l_Some.
  - destruct f_0 as [x|z|a]; try done.
    destruct Hv as (b & Hb & _). rewrite Hb. by apply lookup_app_l_Some.
  - destruct f_0 as [x|z|a].
    + by destruct Hsh as (? & ? & -> & ->).
    + by destruct Hsh as (? & ? & -> & ->).
    + destruct (Nat.eqb (ndim a) 0).
      * by destruct Hsh as (? & ? & -> & ->).
      * by destruct Hsh as (? & ? & -> & -> & _ & _ & _ & ?).
Qed.

Lemma C9_input_is_not_modified_witness :
  valid_arg [Float64Buf [of_int 3; of_int 5]] (PyArr {| base := 0; shape := [2%nat] |})
  /\ in_int64 6 = true
  /\ exists (f_i K : pyobj) (h' : store),
       generate_coherent_frequencies (PyArr {| base := 0; shape := [2%nat] |})
         (of_int 2) 6 [Float64Buf [of_int 3; of_int 5]] = Ok ((f_i, K), h')
       /\ h' !! 0%nat = Some (Float64Buf [of_int 3; of_int 5]).
Proof.
  assert (valid_arg [Float64Buf [of_int 3; of_int 5]]
            (PyArr {| base := 0; shape := [2%nat] |})) as Hv.
  { eexists. split; reflexivity. }
  split; [exact Hv|]. split; [reflexivity|].
  destruct (C9_input_is_not_modified _ _ (of_int 2) 6 Hv eq_refl)
    as (f_i & K & h' & Hrun & Hframe & _).
  exists f_i, K, h'. split; [exact Hrun|]. by apply Hframe.
Defined.

End SelectorProperties.

(* ================================================================== *)
(** * Theorems: Python lists, strings and dicts *)
(* ================================================================== *)

Section PythonFacts.

Lemma getitem_middle {A} (pre : list A) (x : A) (post : list A) :
  getitem (pre ++ x :: post) (Z.of_nat (length pre)) = Ok x.
Proof.
  unfold getitem.
  assert ((Z.of_nat (length pre) <? 0)%Z = false) as -> by (apply Z.ltb_ge; lia).
  rewrite length_app. simpl length.
  assert (((0 <=? Z.of_nat (length pre)) && (Z.of_nat (length pre) <? Z.of_nat (length pre + S (length post))))%Z = true) as ->.
  { apply andb_true_intro. split; [apply Z.leb_le | apply Z.ltb_lt]; lia. }
  rewrite Nat2Z.id. by rewrite list_lookup_middle.
Qed.

Lemma getitem_end {A} (l : list A) :
  getitem l (Z.of_nat (length l)) = Raise (IndexError "list index out of range").
Proof.
  unfold getitem.
  assert ((Z.of_nat (length l) <? 0)%Z = false) as -> by (apply Z.ltb_ge; lia).
  assert ((Z.of_nat (length l) <? Z.of_nat (length l))%Z = false) as ->
    by (apply Z.ltb_ge; lia).
  by rewrite andb_false_r.
Qed.

Lemma range_nil (a b : nat) : b <= a -> range a b 2 = [].
Proof.
  intros H. unfold range.
  replace ((b - a + (2 - 1)) / 2) with 0; [done|].
  replace (b - a + (2 - 1)) with 1 by lia. done.
Qed.

Lemma range_cons (a b : nat) : a < b -> range a b 2 = a :: range (a + 2) b 2.
Proof.
  intros H. unfold range.
  destruct (Nat.le_gt_cases b (a + 2)) as [Hle|Hgt].
  - replace ((b - (a + 2) + (2 - 1)) / 2) with 0
      by (replace (b - (a + 2) + (2 - 1)) with 1 by lia; done).
    assert ((b - a + (2 - 1)) / 2 = 1) as ->.
    { assert (b - a = 1 \/ b - a = 2) as [->| ->] by lia; done. }
    simpl. f_equal. lia.
  - replace (b - a + (2 - 1)) with (b - (a + 2) + (2 - 1) + 1 * 2) by lia.
    rewrite Nat.div_add by lia.
    rewrite Nat.add_1_r. simpl seq. simpl map. f_equal; [lia|].
    rewrite <- seq_shift, map_map. apply map_ext. intros j. lia.
Qed.

(** Induction over a list two elements at a time. *)
Lemma list_pair_ind {A} (P : list A -> Prop) :
  P [] -> (forall x, P [x]) -> (forall x y l, P l -> P (x :: y :: l)) ->
  forall l, P l.
Proof.
  intros H0 H1 H2.
  assert (forall l, P l /\ forall x, P (x :: l)) as H.
  { induction l as [|y l [IH1 IH2]]; split; auto. }
  intros l. apply H.
Qed.

(** The loop over [range(1, len(parts), 2)] consumes the tokens after
    the signal name by pairs. *)
Lemma loop_from (rest pre : list pystr) (p : dict) :
  for_fold
    (fun (p : dict) (i : nat) =>
       key <~ getitem (pre ++ rest) (Z.of_nat i) ;;
       val <~ getitem (pre ++ rest) (Z.of_nat i + 1) ;;
       v <~ number val ;;
       Ok (dict_set p key v))
    p (range (length pre) (length (pre ++ rest)) 2)
  = pairs rest p.
Proof.
  revert pre p. induction rest as [|x|x y rest IH] using list_pair_ind; intros pre p.
  - rewrite app_nil_r, range_nil by lia. done.
  - rewrite range_cons by (rewrite length_app; simpl; lia).
    rewrite range_nil by (rewrite length_app; simpl; lia).
    simpl. rewrite getitem_middle. simpl.
    replace (Z.of_nat (length pre) + 1)%Z with (Z.of_nat (length (pre ++ [x])))
      by (rewrite length_app; simpl; lia).
    by rewrite getitem_end.
  - rewrite range_cons by (rewrite length_app; simpl; lia).
    simpl for_fold. rewrite getitem_middle. simpl rbind.
    replace (pre ++ x :: y :: rest) with ((pre ++ [x]) ++ y :: rest)
      by (by rewrite <- app_assoc).
    replace (Z.of_nat (length pre) + 1)%Z with (Z.of_nat (length (pre ++ [x])))
      by (rewrite length_app; simpl; lia).
    rewrite getitem_middle. simpl rbind.
    simpl pairs. destruct (number y) as [v|e]; [|done]. simpl rbind.
    replace ((pre ++ [x]) ++ y :: rest) with ((pre ++ [x; y]) ++ rest)
      by (by rewrite <- !app_assoc).
    replace (length pre + 2) with (length (pre ++ [x; y]))
      by (rewrite length_app; simpl; lia).
    apply IH.
Qed.

(** [entry_params] on the tokens of the entry. *)
Lemma entry_params_tokens (ent : pystr) :
  entry_params ent
  = (parts <~ Shlex.split (entry_base ent) ;;
     match parts with
     | [] => Raise (IndexError "list index out of range")
     | signal :: rest => pairs rest [(str "signal", VStr signal)]
     end).
Proof.
  unfold entry_params.
  destruct (Shlex.split (entry_base ent)) as [[|signal rest]|e]; try done.
  simpl rbind. unfold getitem at 1. simpl.
  apply (loop_from rest [signal]).
Qed.

End PythonFacts.

(* ================================================================== *)
(** * Theorems: malformed metadata entries *)
(* ================================================================== *)

Section Malformed.

Lemma number_unparsable (val : pystr) :
  unparsable val -> number val = Raise (float_error val).
Proof. intros [Hi Hf]. unfold number. by rewrite Hi, Hf. Qed.

Lemma number_raises (val : pystr) (e : exn) :
  number val = Raise e -> e = float_error val.
Proof.
  unfold number. destruct (int_of_str val); [done|].
  destruct (float_of_str val); [done|]. by intros [= <-].
Qed.

(** An odd number of tokens after the signal name, or a value that is
    no number, makes the loop raise: [IndexError] from [parts[i + 1]]
    or [ValueError] from [float(val)], whichever comes first. *)
Lemma pairs_raises (rest : list pystr) (p : dict) :
  Nat.odd (length rest) = true \/ Exists unparsable (values_of rest) ->
  exists e : exn,
    pairs rest p = Raise e
    /\ (e = IndexError "list index out of range"
        \/ exists val, In val (values_of rest) /\ e = float_error val).
Proof.
  revert p. induction rest as [|x|x y rest IH] using list_pair_ind; intros p H.
  - destruct H as [H|H]; [done|]. simpl in H. by apply Exists_nil in H.
  - eexists. split; [reflexivity|]. by left.
  - simpl pairs. destruct (number y) as [v|e] eqn:Hy.
    + simpl rbind.
      destruct (IH (dict_set p x v)) as (e & He & Hkind).
      { destruct H as [H|H].
        - left. exact H.
        - right. simpl in H. apply Exists_cons in H as [H|H]; [|done].
          apply number_unparsable in H. congruence. }
      exists e. split; [done|].
      destruct Hkind as [->|(val & Hin & ->)]; [by left|].
      right. exists val. split; [by right|done].
    + exists e. split; [done|]. right. exists y. split; [by left|].
      by apply number_raises.
Qed.

Lemma for_each_raises {A B} (f : A -> result B) (l : list A) (x : A) (e : exn) :
  In x l -> f x = Raise e -> exists e', for_each f l = Raise e'.
Proof.
  induction l as [|y l IH]; [done|]. intros [->|Hin] Hx; simpl.
  - rewrite Hx. by eexists.
  - destruct (f y); [|by eexists].
    destruct (IH Hin Hx) as (e' & ->). by eexists.
Qed.

(** C4, counterexample: the entry [BadSignal x] makes the function
    raise the [IndexError] of [parts[i + 1]], whose message is
    [list index out of range]: the entry text is not part of it, and
    the exception is no parse error of the function's own. *)
Lemma C4_error_without_entry_text :
  entry_params (str "BadSignal x") = Raise (IndexError "list index out of range")
  /\ load_cadence_vcsv [str "header"; str "BadSignal x"]
       (fun _ => Ok [[CInt 0]; [CInt 1]]) 2 6
     = Raise (IndexError "list index out of range")
  /\ contains (str "BadSignal x") (str (exn_message (IndexError "list index out of range")))
     = false.
Proof. vm_compute. repeat split. Qed.

Lemma parsable_false (val : pystr) : parsable val = false <-> unparsable val.
Proof.
  unfold parsable, unparsable, number.
  destruct (int_of_str val); [by split; [|intros []]|].
  destruct (float_of_str val); by split; [|intros []].
Qed.

(** The loop passes over a well-formed prefix of the tokens. *)
Lemma pairs_good_prefix (good rest : list pystr) :
  Nat.even (length good) = true ->
  forallb parsable (values_of good) = true ->
  forall p : dict, exists p' : dict, pairs (good ++ rest) p = pairs rest p'.
Proof.
  induction good as [|x|x y good IH] using list_pair_ind; intros He Hp p.
  - by exists p.
  - done.
  - cbn [values_of forallb] in Hp. apply andb_prop in Hp as [Hy Hp].
    cbn [app pairs]. unfold parsable in Hy.
    destruct (number y) as [v|] eqn:Ev; [|done]. cbn [rbind].
    apply IH; [|done]. exact He.
Qed.

(** The tokens after the signal name of a malformed entry: a
    well-formed prefix, then a name without a value or a pair whose
    value is no number. *)
Lemma malformed_shape (rest : list pystr) :
  Nat.odd (length rest) = true \/ Exists unparsable (values_of rest) ->
  exists good : list pystr,
    Nat.even (length good) = true
    /\ forallb parsable (values_of good) = true
    /\ ((exists key, rest = good ++ [key])
        \/ exists key val rest', rest = good ++ key :: val :: rest' /\ unparsable val).
Proof.
  induction rest as [|x|x y rest IH] using list_pair_ind; intros H.
  - destruct H as [H|H]; [done|]. by apply Exists_nil in H.
  - exists []. split; [done|]. split; [done|]. left. by exists x.
  - destruct (parsable y) eqn:Ey.
    + destruct IH as (good & He & Hp & Hshape).
      { destruct H as [H|H]; [by left|right].
        cbn [values_of] in H. apply Exists_cons in H as [H|H]; [|done].
        apply parsable_false in H. congruence. }
      exists (x :: y :: good). split; [exact He|].
      split; [cbn [values_of forallb]; by rewrite Ey|].
      destruct Hshape as [(key & ->)|(key & val & rest' & -> & Hu)].
      * left. by exists key.
      * right. by exists key, val, rest'.
    + exists []. split; [done|]. split; [done|].
      right. exists x, y, rest. split; [done|]. by apply parsable_false.
Qed.

(** The loop over the entries stops at the first entry that raises. *)
Lemma for_each_first_failure {A B} (f : A -> result B) (before after : list A)
    (x : A) (e : exn) :
  Forall (fun y => exists b, f y = Ok b) before ->
  f x = Raise e ->
  for_each f (before ++ x :: after) = Raise e.
Proof.
  intros Hb Hx. induction Hb as [|y before [b Hy] _ IH]; cbn [app for_each].
  - by rewrite Hx.
  - by rewrite Hy, IH.
Qed.

(** C4, amended: a malformed entry makes the function raise one of
    Python's own exceptions, fixed by the first defect of the entry.
    With the tokens of the entry in hand: no token at all gives
    [IndexError] with the message [list index out of range]; when the
    values before it are numbers, a name without a value at the end
    gives the same [IndexError], and a value [val] that neither [int]
    nor [float] accepts gives the [ValueError] of [float], whose
    message is [could not convert string to float: ] followed by
    [repr(val)].  Every entry with no token, an odd number of tokens
    after the signal name or a value that is no number is of one of
    these three kinds.  The message names at most the value, and is
    not built from the text of the entry.  The exception of the first
    malformed entry of the metadata line is the one that
    [load_cadence_vcsv] raises, and a malformed entry anywhere in the
    line makes it raise. *)
Theorem C4_malformed_entry_raises (ent : pystr) (parts : list pystr) :
  Shlex.split (entry_base ent) = Ok parts ->
  (parts = [] -> entry_params ent = Raise (IndexError "list index out of range"))
  /\ (forall (signal : pystr) (good : list pystr) (key : pystr),
        parts = signal :: good ++ [key] ->
        Nat.even (length good) = true ->
        forallb parsable (values_of good) = true ->
        entry_params ent = Raise (IndexError "list index out of range"))
  /\ (forall (signal : pystr) (good : list pystr) (key val : pystr) (rest : list pystr),
        parts = signal :: good ++ key :: val :: rest ->
        Nat.even (length good) = true ->
        forallb parsable (values_of good) = true ->
        unparsable val ->
        entry_params ent = Raise (float_error val)
        /\ exn_message (float_error val)
           = string_of_list_ascii (str "could not convert string to float: " ++ repr val))
  /\ (Nat.even (length parts) = true \/ Exists unparsable (values_of (tail parts)) ->
      parts = []
      \/ (exists (signal : pystr) (good : list pystr) (key : pystr),
            parts = signal :: good ++ [key]
            /\ Nat.even (length good) = true
            /\ forallb parsable (values_of good) = true)
      \/ (exists (signal : pystr) (good : list pystr) (key val : pystr) (rest : list pystr),
            parts = signal :: good ++ key :: val :: rest
            /\ Nat.even (length good) = true
            /\ forallb parsable (values_of good) = true
            /\ unparsable val))
  /\ (forall (e : exn) (lines : list pystr) (read_csv : Z -> result raw_frame)
             (metadata_row skiprows : Z) (line : pystr) (before after : list pystr),
        entry_params ent = Raise e ->
        getitem lines (metadata_row - 1) = Ok line ->
        raw_entries (strip line) = before ++ ent :: after ->
        Forall (fun x => exists p, entry_params x = Ok p) before ->
        load_cadence_vcsv lines read_csv metadata_row skiprows = Raise e)
  /\ (forall (lines : list pystr) (read_csv : Z -> result raw_frame)
             (metadata_row skiprows : Z) (line : pystr),
        Nat.even (length parts) = true \/ Exists unparsable (values_of (tail parts)) ->
        getitem lines (metadata_row - 1) = Ok line ->
        In ent (raw_entries (strip line)) ->
        exists e : exn,
          load_cadence_vcsv lines read_csv metadata_row skiprows = Raise e).
Proof.
  intros Hparts.
  assert (forall (signal : pystr) (good : list pystr) (key : pystr),
            parts = signal :: good ++ [key] ->
            Nat.even (length good) = true ->
            forallb parsable (values_of good) = true ->
            entry_params ent = Raise (IndexError "list index out of range")) as Hkey.
  { intros signal good key -> He Hp.
    rewrite entry_params_tokens, Hparts. cbn [rbind].
    by destruct (pairs_good_prefix good [key] He Hp [(str "signal", VStr signal)])
      as (p' & ->). }
  assert (forall (signal : pystr) (good : list pystr) (key val : pystr) (rest : list pystr),
            parts = signal :: good ++ key :: val :: rest ->
            Nat.even (length good) = true ->
            forallb parsable (values_of good) = true ->
            unparsable val ->
            entry_params ent = Raise (float_error val)) as Hval.
  { intros signal good key val rest -> He Hp Hu.
    rewrite entry_params_tokens, Hparts. cbn [rbind].
    destruct (pairs_good_prefix good (key :: val :: rest) He Hp
                [(str "signal", VStr signal)]) as (p' & ->).
    cbn [pairs]. by rewrite (number_unparsable val Hu). }
  assert (Nat.even (length parts) = true \/ Exists unparsable (values_of (tail parts)) ->
      parts = []
      \/ (exists (signal : pystr) (good : list pystr) (key : pystr),
            parts = signal :: good ++ [key]
            /\ Nat.even (length good) = true
            /\ forallb parsable (values_of good) = true)
      \/ (exists (signal : pystr) (good : list pystr) (key val : pystr) (rest : list pystr),
            parts = signal :: good ++ key :: val :: rest
            /\ Nat.even (length good) = true
            /\ forallb parsable (values_of good) = true
            /\ unparsable val)) as Hshape.
  { intros Hbad. destruct parts as [|signal rest]; [by left|right].
    destruct (malformed_shape rest) as (good & He & Hp & Hs).
    { destruct Hbad as [H|H]; [left|by right].
      cbn [length] in H. by rewrite Nat.even_succ in H. }
    destruct Hs as [(key & ->)|(key & val & rest' & -> & Hu)].
    - left. by exists signal, good, key.
    - right. by exists signal, good, key, val, rest'. }
  assert (parts = [] -> entry_params ent = Raise (IndexError "list index out of range"))
    as Hnil.
  { intros ->. by rewrite entry_params_tokens, Hparts. }
  split; [exact Hnil|]. split; [exact Hkey|].
  split; [intros signal good key val rest Hp He Hg Hu; split;
          [by eapply Hval | reflexivity]|].
  split; [exact Hshape|]. split.
  - intros e lines read_csv metadata_row skiprows line before after He Hline Hents Hb.
    unfold load_cadence_vcsv. rewrite Hline. cbn [rbind].
    unfold params. rewrite Hents.
    by rewrite (for_each_first_failure entry_params before after ent e Hb He).
  - intros lines read_csv metadata_row skiprows line Hbad Hline Hin.
    assert (exists e, entry_params ent = Raise e) as (e & He).
    { destruct (Hshape Hbad) as [Hn|[(signal & good & key & Hp & Hev & Hg)
                                   |(signal & good & key & val & rest & Hp & Hev & Hg & Hu)]].
      - eexists. by apply Hnil.
      - eexists. by eapply Hkey.
      - eexists. by eapply Hval. }
    unfold load_cadence_vcsv. rewrite Hline. cbn [rbind].
    destruct (for_each_raises entry_params _ ent e Hin He) as (e' & He').
    unfold params. rewrite He'. by eexists.
Qed.

Lemma C4_malformed_entry_raises_witness :
  Shlex.split (entry_base (str "Sig K 7 bad x y (V)"))
  = Ok [str "Sig"; str "K"; str "7"; str "bad"; str "x"; str "y"]
  /\ entry_params (str "Sig K 7 bad x y (V)") = Raise (float_error (str "x"))
  /\ load_cadence_vcsv [str "Vin K 1 (V); Sig K 7 bad x y (V); BadSignal x"]
       (fun _ => Ok [[CInt 0]; [CInt 1]]) 1%Z 1%Z
     = Raise (ValueError "could not convert string to float: 'x'").
Proof.
  assert (Shlex.split (entry_base (str "Sig K 7 bad x y (V)"))
          = Ok [str "Sig"; str "K"; str "7"; str "bad"; str "x"; str "y"])
    as Hs by reflexivity.
  destruct (C4_malformed_entry_raises _ _ Hs) as (_ & _ & Hval & _ & Hload & _).
  destruct (Hval (str "Sig") [str "K"; str "7"] (str "bad") (str "x") [str "y"]
              eq_refl eq_refl eq_refl (conj eq_refl eq_refl)) as [He _].
  split; [exact Hs|]. split; [exact He|].
  apply (Hload _ [str "Vin K 1 (V); Sig K 7 bad x y (V); BadSignal x"]
           (fun _ => Ok [[CInt 0]; [CInt 1]]) 1%Z 1%Z
           (str "Vin K 1 (V); Sig K 7 bad x y (V); BadSignal x")
           [str "Vin K 1 (V)"] [str "BadSignal x"] He eq_refl eq_refl).
  constructor; [|constructor]. eexists. reflexivity.
Defined.

End Malformed.

(* ================================================================== *)
(** * Theorems: records and frames *)
(* ================================================================== *)

Section Records.

Lemma eqb_eq (a b : pystr) : Str.eqb a b = true <-> a = b.
Proof.
  revert b. induction a as [|x a IH]; intros [|y b]; simpl; try done.
  rewrite andb_true_iff, Ascii.eqb_eq, IH. split; [by intros [-> ->]|by intros [= -> ->]].
Qed.

Lemma eqb_refl (a : pystr) : Str.eqb a a = true.
Proof. by apply eqb_eq. Qed.

Lemma eqb_neq (a b : pystr) : Str.eqb a b = false <-> a <> b.
Proof.
  rewrite <- eqb_eq. destruct (Str.eqb a b); split; congruence.
Qed.

Lemma dict_get_None (d : dict) (k : pystr) :
  dict_get d k = None <-> ~ In k (map fst d).
Proof.
  induction d as [|[k' v] d IH]; simpl; [tauto|].
  destruct (Str.eqb k' k) eqn:E.
  - apply eqb_eq in E. split; [done|]. intros H. exfalso. apply H. by left.
  - apply eqb_neq in E. rewrite IH. tauto.
Qed.

Lemma dict_set_keys (d : dict) (k : pystr) (v : value) :
  map fst (dict_set d k v)
  = if dict_get d k is Some _ then map fst d else map fst d ++ [k].
Proof.
  induction d as [|[k' v'] d IH]; simpl; [done|].
  destruct (Str.eqb k' k) eqn:E; simpl; [done|].
  rewrite IH. by destruct (dict_get d k).
Qed.

Lemma dict_get_set (d : dict) (k k' : pystr) (v : value) :
  dict_get (dict_set d k v) k' = if Str.eqb k k' then Some v else dict_get d k'.
Proof.
  induction d as [|[k0 v0] d IH]; simpl.
  - by destruct (Str.eqb k k').
  - destruct (Str.eqb k0 k) eqn:E; simpl.
    + apply eqb_eq in E. subst k0. by destruct (Str.eqb k k').
    + rewrite IH. destruct (Str.eqb k k') eqn:E'; [|done].
      apply eqb_eq in E'. subst k'. by rewrite E.
Qed.

Lemma dict_set_wf (d : dict) (k : pystr) (v : value) :
  wf_record d -> wf_record (dict_set d k v).
Proof.
  intros [Hnd (sv & Hs)]. split.
  - rewrite dict_set_keys. destruct (dict_get d k) eqn:E; [done|].
    apply dict_get_None in E.
    apply NoDup_app. split; [done|]. split.
    + intros x Hx Hx'. apply list_elem_of_In in Hx.
      apply list_elem_of_singleton in Hx'. by subst.
    + apply NoDup_singleton.
  - rewrite dict_get_set. destruct (Str.eqb k (str "signal")); by eexists.
Qed.

Lemma pairs_wf (rest : list pystr) (p p' : dict) :
  wf_record p -> pairs rest p = Ok p' -> wf_record p'.
Proof.
  revert p. induction rest as [|x|x y rest IH] using list_pair_ind; intros p Hp.
  - by intros [= <-].
  - done.
  - simpl. destruct (number y) as [v|]; [|done]. simpl.
    apply IH. by apply dict_set_wf.
Qed.

Lemma entry_params_wf (ent : pystr) (p : dict) :
  entry_params ent = Ok p -> wf_record p.
Proof.
  rewrite entry_params_tokens.
  destruct (Shlex.split (entry_base ent)) as [[|signal rest]|]; try done.
  simpl. apply pairs_wf. split.
  - simpl. apply NoDup_singleton.
  - by eexists.
Qed.

Lemma for_each_inv {A B} (f : A -> result B) (l : list A) (ys : list B) :
  for_each f l = Ok ys -> Forall2 (fun x y => f x = Ok y) l ys.
Proof.
  revert ys. induction l as [|x l IH]; intros ys; simpl.
  - intros [= <-]. constructor.
  - destruct (f x) as [y|] eqn:E; [|done]. simpl.
    destruct (for_each f l) as [ys'|]; [|done]. simpl.
    intros [= <-]. constructor; [done|]. by apply IH.
Qed.

Lemma for_each_ok {A B} (f : A -> result B) (l : list A) (ys : list B) :
  Forall2 (fun x y => f x = Ok y) l ys -> for_each f l = Ok ys.
Proof.
  induction 1 as [|x y l ys Hxy _ IH]; simpl; [done|]. by rewrite Hxy, IH.
Qed.

Lemma for_each_ext_in {A B} (f g : A -> result B) (l : list A) :
  (forall x, In x l -> f x = g x) -> for_each f l = for_each g l.
Proof.
  induction l as [|x l IH]; intros H; simpl; [done|].
  rewrite (H x) by (by left). rewrite IH; [done|].
  intros y Hy. apply H. by right.
Qed.

Lemma params_wf (entries : list pystr) (ps : list dict) :
  params entries = Ok ps -> Forall wf_record ps.
Proof.
  intros H. apply for_each_inv in H.
  induction H as [|ent p es ps Hp _ IH]; constructor; [|done].
  by apply entry_params_wf in Hp.
Qed.

End Records.

Section Frames.

Lemma column_set_column (cols : list (pystr * list cell)) (k k' : pystr) (c : list cell) :
  column (set_column cols k c) k' = if Str.eqb k k' then Some c else column cols k'.
Proof.
  induction cols as [|[k0 c0] cols IH]; simpl.
  - by destruct (Str.eqb k k').
  - destruct (Str.eqb k0 k) eqn:E; simpl.
    + apply eqb_eq in E. subst k0. by destruct (Str.eqb k k').
    + rewrite IH. destruct (Str.eqb k k') eqn:E'; [|done].
      apply eqb_eq in E'. subst k'. by rewrite E.
Qed.

Lemma set_column_lengths (cols : list (pystr * list cell)) (k : pystr) (c : list cell) (n : nat) :
  Forall (fun kc => length kc.2 = n) cols -> length c = n ->
  Forall (fun kc => length kc.2 = n) (set_column cols k c).
Proof.
  intros H Hc. induction H as [|[k0 c0] cols H0 H IH]; simpl.
  - by repeat constructor.
  - destruct (Str.eqb k0 k); constructor; done.
Qed.

(** The loop of lines 117 to 120 on a frame of [n] rows. *)
Lemma add_parameters (prm : dict) (n : nat) (cols : list (pystr * list cell)) :
  NoDup (map fst prm) ->
  let f := fold_left
             (fun sub '(key, val) =>
                if Str.eqb key (str "signal") then sub
                else setitem sub key (cell_of_value val))
             prm {| nrows := n; columns := cols |} in
  nrows f = n
  /\ (Forall (fun kc => length kc.2 = n) cols ->
      Forall (fun kc => length kc.2 = n) (columns f))
  /\ forall k : pystr,
       column (columns f) k
       = if Str.eqb k (str "signal") then column cols k
         else match dict_get prm k with
              | Some v => Some (replicate n (cell_of_value v))
              | None => column cols k
              end.
Proof.
  revert cols. induction prm as [|[k0 v0] prm IH]; intros cols Hnd; cbn zeta.
  - simpl. split; [done|]. split; [done|]. intros k. by destruct (Str.eqb k (str "signal")).
  - apply NoDup_cons in Hnd as [Hk0 Hnd]. simpl fold_left.
    destruct (Str.eqb k0 (str "signal")) eqn:Es.
    + destruct (IH cols Hnd) as (Hn & Hlen & Hcol). cbn zeta in *.
      split; [done|]. split; [done|]. intros k. rewrite Hcol. simpl.
      destruct (Str.eqb k (str "signal")) eqn:Ek; [done|].
      destruct (Str.eqb k0 k) eqn:E0; [|done].
      apply eqb_eq in E0, Es. apply eqb_neq in Ek. congruence.
    + unfold setitem at 1. cbn [nrows columns].
      destruct (IH (set_column cols k0 (replicate n (cell_of_value v0))) Hnd)
        as (Hn & Hlen & Hcol). cbn zeta in *.
      split; [done|]. split.
      { intros H. apply Hlen. apply set_column_lengths; [done|]. apply length_replicate. }
      intros k. rewrite Hcol, column_set_column. simpl.
      destruct (Str.eqb k (str "signal")) eqn:Ek.
      * destruct (Str.eqb k0 k) eqn:E0; [|done].
        apply eqb_eq in E0, Ek. apply eqb_neq in Es. congruence.
      * destruct (Str.eqb k0 k) eqn:E0; [|done].
        apply eqb_eq in E0. subst k0.
        assert (dict_get prm k = None) as ->; [|done].
        apply dict_get_None. intros Hin. apply Hk0. by apply list_elem_of_In.
Qed.

Lemma sub_frame_ok (df : raw_frame) (idx : nat) (prm : dict) :
  wf_record prm -> (2 * idx + 1 < length df)%nat ->
  sub_frame df idx prm = Ok (channel_frame df idx prm).
Proof.
  intros [_ (sv & Hs)] Hlt. unfold sub_frame, iloc_column, channel_frame.
  destruct (lookup_lt_is_Some_2 df (2 * idx)%nat ltac:(lia)) as (t & Ht).
  destruct (lookup_lt_is_Some_2 df (2 * idx + 1)%nat ltac:(lia)) as (v & Hv).
  rewrite Ht. cbn [rbind]. rewrite Hv. cbn [rbind]. rewrite Hs. cbn [rbind].
  done.
Qed.

Lemma sub_frame_raises (df : raw_frame) (idx : nat) (prm : dict) :
  (length df <= 2 * idx + 1)%nat ->
  sub_frame df idx prm
  = Raise (IndexError "single positional indexer is out-of-bounds").
Proof.
  intros Hge. unfold sub_frame, iloc_column.
  destruct (df !! (2 * idx)%nat) eqn:Ht; [|done]. cbn [rbind].
  by rewrite (lookup_ge_None_2 df (2 * idx + 1)%nat) by lia.
Qed.

Lemma enumerate_from_lookup {A} (l : list A) (s i : nat) (x : A) :
  l !! i = Some x -> combine (seq s (length l)) l !! i = Some ((s + i)%nat, x).
Proof.
  revert s i. induction l as [|y l IH]; intros s [|i]; simpl; try done.
  - intros [= ->]. do 2 f_equal. lia.
  - intros H. rewrite (IH (S s) i H). do 2 f_equal. lia.
Qed.

Lemma enumerate_lookup {A} (l : list A) (i : nat) (x : A) :
  l !! i = Some x -> enumerate l !! i = Some (i, x).
Proof. apply (enumerate_from_lookup l 0). Qed.

Lemma enumerate_from_In {A} (l : list A) (s i : nat) (x : A) :
  In (i, x) (combine (seq s (length l)) l) ->
  (s <= i < s + length l)%nat /\ l !! (i - s)%nat = Some x.
Proof.
  revert s. induction l as [|y l IH]; intros s; simpl; [done|].
  intros [[= <- <-]|H].
  - split; [lia|]. by rewrite Nat.sub_diag.
  - apply IH in H as [Hr Hl]. split; [lia|].
    replace (i - s)%nat with (S (i - S s)) by lia. done.
Qed.

Lemma enumerate_In {A} (l : list A) (i : nat) (x : A) :
  In (i, x) (enumerate l) -> (i < length l)%nat /\ l !! i = Some x.
Proof.
  intros H. apply enumerate_from_In in H as [Hr Hl].
  rewrite Nat.sub_0_r in Hl. split; [lia|done].
Qed.

Lemma length_enumerate {A} (l : list A) : length (enumerate l) = length l.
Proof. unfold enumerate. rewrite length_combine, length_seq. lia. Qed.

(** Step 4 when every channel has its two columns. *)
Lemma long_df_ok (df : raw_frame) (ps : list dict) :
  Forall wf_record ps -> (2 * length ps <= length df)%nat ->
  long_df df ps = Ok (map (fun '(idx, prm) => channel_frame df idx prm) (enumerate ps)).
Proof.
  intros Hwf Hlen. unfold long_df. apply for_each_ok.
  apply Forall2_fmap_r, Forall_Forall2_diag, Forall_forall.
  intros [idx prm] Hin. apply list_elem_of_In, enumerate_In in Hin as [Hidx Hprm].
  apply sub_frame_ok; [|lia].
  rewrite Forall_forall in Hwf. apply Hwf. by apply list_elem_of_lookup_2 in Hprm.
Qed.

(** Step 4 when the block has too few columns for the records. *)
Lemma long_df_raises (df : raw_frame) (ps : list dict) :
  Forall wf_record ps -> (length df < 2 * length ps)%nat ->
  long_df df ps = Raise (IndexError "single positional indexer is out-of-bounds").
Proof.
  intros Hwf Hlen. unfold long_df, enumerate.
  assert (forall (s : nat),
            (length df < 2 * (s + length ps))%nat ->
            (2 * s <= length df)%nat ->
            for_each (fun '(idx, prm) => sub_frame df idx prm)
                     (combine (seq s (length ps)) ps)
            = Raise (IndexError "single positional indexer is out-of-bounds")) as H.
  { clear Hlen. induction Hwf as [|prm ps Hw1 Hw IH]; intros s Hlt Hs; simpl in *; [lia|].
    destruct (Nat.le_gt_cases (length df) (2 * s + 1)) as [Hge|Hgt].
    - rewrite sub_frame_raises; [done|lia].
    - rewrite sub_frame_ok by (done || lia). cbn [rbind].
      rewrite (IH (S s)); [done|lia|lia]. }
  apply (H 0%nat); lia.
Qed.

End Frames.

Section Concat.

Lemma existsb_eqb_In (k : pystr) (l : list pystr) :
  existsb (Str.eqb k) l = true <-> In k l.
Proof.
  rewrite existsb_exists. split.
  - intros (x & Hx & E). apply eqb_eq in E. by subst.
  - intros H. exists k. split; [done|apply eqb_refl].
Qed.

Lemma add_labels_In (ks acc : list pystr) (k : pystr) :
  In k (fold_left (fun acc k => if existsb (Str.eqb k) acc then acc else acc ++ [k]) ks acc)
  <-> In k acc \/ In k ks.
Proof.
  revert acc. induction ks as [|k0 ks IH]; intros acc; simpl; [tauto|].
  rewrite IH. destruct (existsb (Str.eqb k0) acc) eqn:E.
  - apply existsb_eqb_In in E. split; [tauto|]. intros [H|[<-|H]]; tauto.
  - rewrite in_app_iff. simpl. tauto.
Qed.

Lemma union_labels_from_In (fs : list frame) (acc : list pystr) (k : pystr) :
  In k (fold_left
          (fun acc f =>
             fold_left (fun acc k => if existsb (Str.eqb k) acc then acc else acc ++ [k])
                       (map fst (columns f)) acc)
          fs acc)
  <-> In k acc \/ exists f, In f fs /\ In k (map fst (columns f)).
Proof.
  revert acc. induction fs as [|f fs IH]; intros acc; simpl.
  - split; [tauto|]. intros [H|(f & [] & _)]. done.
  - rewrite IH, add_labels_In. split.
    + intros [[H|H]|(f' & Hf' & H)]; [tauto| |]; right; eauto.
    + intros [H|(f' & [<-|Hf'] & H)]; [tauto|tauto|]. right. eauto.
Qed.

Lemma union_labels_In (fs : list frame) (k : pystr) :
  In k (union_labels fs) <-> exists f, In f fs /\ In k (map fst (columns f)).
Proof.
  unfold union_labels. rewrite union_labels_from_In. simpl. tauto.
Qed.

Lemma column_Some_In (cols : list (pystr * list cell)) (k : pystr) (c : list cell) :
  column cols k = Some c -> In k (map fst cols).
Proof.
  induction cols as [|[k0 c0] cols IH]; simpl; [done|].
  destruct (Str.eqb k0 k) eqn:E.
  - apply eqb_eq in E. by left.
  - intros H. right. by apply IH.
Qed.

Lemma column_tabulate (F : pystr -> list cell) (labels : list pystr) (k : pystr) :
  column (map (fun k => (k, F k)) labels) k
  = if existsb (Str.eqb k) labels then Some (F k) else None.
Proof.
  induction labels as [|k0 labels IH]; simpl; [done|].
  destruct (Str.eqb k0 k) eqn:E.
  - apply eqb_eq in E. subst k0. by rewrite eqb_refl.
  - rewrite IH. assert (Str.eqb k k0 = false) as ->; [|done].
    apply eqb_neq. apply eqb_neq in E. congruence.
Qed.

(** Lookup in the concatenation of blocks of the same length. *)
Lemma lookup_flat_map_uniform {A B} (g : A -> list B) (l : list A) (R i r : nat) (x : A) :
  Forall (fun y => length (g y) = R) l ->
  l !! i = Some x -> r < R ->
  flat_map g l !! (i * R + r) = g x !! r.
Proof.
  intros Hlen. revert i. induction Hlen as [|y l Hy Hlen IH]; intros [|i] Hi Hr; try done.
  - simpl in *. injection Hi as ->. by rewrite lookup_app_l by lia.
  - simpl in *. rewrite lookup_app_r by lia.
    replace (R + i * R + r - length (g y)) with (i * R + r) by lia.
    by apply IH.
Qed.

Lemma length_flat_map_uniform {A B} (g : A -> list B) (l : list A) (R : nat) :
  Forall (fun y => length (g y) = R) l ->
  length (flat_map g l) = R * length l.
Proof.
  induction 1 as [|y l Hy _ IH]; simpl; [lia|].
  rewrite length_app, Hy, IH. lia.
Qed.

(** [pd.concat] of frames of [R] rows each: the table has [R] rows
    per frame, and the cell of column [k] in row [r] of block [i] is
    the one of the [i]-th frame in the dtype of the column, or the
    missing value when that frame has no column [k]. *)
Lemma concat_uniform (subs : list frame) (R : nat) :
  subs <> [] -> Forall (has_rows R) subs ->
  exists out : frame,
    concat subs = Ok out
    /\ has_rows (R * length subs) out
    /\ forall (i r : nat) (f : frame) (k : pystr),
         subs !! i = Some f -> r < R ->
         at_ out k (i * R + r)
         = match column (columns f) k with
           | Some c => cast (result_dtype subs k) <$> c !! r
           | None => if existsb (Str.eqb k) (union_labels subs) then Some CNaN else None
           end.
Proof.
  intros Hne Hrows.
  assert (forall k d, Forall (fun f => length (match column (columns f) k with
                                               | Some c => map (cast d) c
                                               | None => replicate (nrows f) CNaN
                                               end) = R) subs) as Hblock.
  { intros k d. eapply Forall_impl; [exact Hrows|]. intros f [Hn Hcols]. simpl.
    destruct (column (columns f) k) as [c|] eqn:E.
    - rewrite Forall_forall in Hcols.
      assert (exists k', (k', c) ∈ columns f) as (k' & Hin).
      { clear -E. induction (columns f) as [|[k0 c0] cols IH]; simpl in E; [done|].
        destruct (Str.eqb k0 k).
        - injection E as ->. exists k0. by left.
        - destruct (IH E) as (k' & H). exists k'. by right. }
      rewrite length_map. apply (Hcols _ Hin).
    - by rewrite length_replicate. }
  destruct subs as [|f0 subs']; [done|].
  eexists. split; [reflexivity|]. split; [split|].
  - cbn [nrows].
    clear -Hrows. induction Hrows as [|f fs [Hn _] _ IH]; simpl; [lia|].
    rewrite Hn, IH. lia.
  - cbn [columns]. apply Forall_forall. intros [k c] Hin.
    apply list_elem_of_fmap in Hin as (k' & [= -> ->] & _).
    apply (length_flat_map_uniform _ (f0 :: subs') R (Hblock k' _)).
  - intros i r f k Hi Hr. unfold at_. cbn [columns].
    rewrite (column_tabulate
               (fun k => flat_map (fun f => match column (columns f) k with
                                            | Some c => map (cast (result_dtype (f0 :: subs') k)) c
                                            | None => replicate (nrows f) CNaN
                                            end) (f0 :: subs'))).
    destruct (column (columns f) k) as [c|] eqn:E.
    + assert (existsb (Str.eqb k) (union_labels (f0 :: subs')) = true) as ->.
      { apply existsb_eqb_In, union_labels_In. exists f. split.
        - apply list_elem_of_In. by apply list_elem_of_lookup_2 in Hi.
        - by apply column_Some_In in E. }
      rewrite (lookup_flat_map_uniform _ _ R i r f (Hblock k _) Hi Hr). rewrite E.
      by rewrite list_lookup_fmap.
    + destruct (existsb (Str.eqb k) (union_labels (f0 :: subs'))); [|done].
      rewrite (lookup_flat_map_uniform _ _ R i r f (Hblock k _) Hi Hr). rewrite E.
      destruct (proj1 (Forall_forall _ _) Hrows f) as [Hn _].
      { by apply list_elem_of_lookup_2 in Hi. }
      rewrite Hn. by apply lookup_replicate_2.
Qed.

End Concat.

(* ================================================================== *)
(** * Theorems: the long-form table *)
(* ================================================================== *)

Section Reshape.

Variable lines : list pystr.
Variable read_csv : Z -> result raw_frame.
Variables metadata_row skiprows : Z.

(** The metadata line yields the records [ps] and [read_csv] the
    block [df]. *)
Variable line : pystr.
Variable ps : list dict.
Variable df : raw_frame.
Hypothesis Hline : getitem lines (metadata_row - 1) = Ok line.
Hypothesis Hps : params (raw_entries (strip line)) = Ok ps.
Hypothesis Hdf : read_csv skiprows = Ok df.

Lemma load_after_metadata :
  load_cadence_vcsv lines read_csv metadata_row skiprows
  = (subs <~ long_df df ps ;; concat subs).
Proof.
  unfold load_cadence_vcsv. rewrite Hline. cbn [rbind]. cbn zeta.
  rewrite Hps. cbn [rbind]. by rewrite Hdf.
Qed.

Lemma load_ok_of_enough_columns :
  (0 < length ps)%nat -> (2 * length ps <= length df)%nat ->
  load_cadence_vcsv lines read_csv metadata_row skiprows
  = concat (map (fun '(idx, prm) => channel_frame df idx prm) (enumerate ps))
  /\ exists out,
       concat (map (fun '(idx, prm) => channel_frame df idx prm) (enumerate ps)) = Ok out.
Proof.
  intros HM Hcols. rewrite load_after_metadata.
  rewrite long_df_ok by (done || by apply params_wf in Hps). cbn [rbind].
  split; [done|].
  destruct ps as [|p ps']; [simpl in HM; lia|].
  unfold enumerate. simpl. by eexists.
Qed.

Lemma load_raises_of_few_columns :
  (length df < 2 * length ps)%nat ->
  load_cadence_vcsv lines read_csv metadata_row skiprows
  = Raise (IndexError "single positional indexer is out-of-bounds").
Proof.
  intros Hcols. rewrite load_after_metadata.
  by rewrite long_df_raises by (done || by apply params_wf in Hps).
Qed.

Lemma load_raises_of_no_record :
  length ps = 0%nat ->
  load_cadence_vcsv lines read_csv metadata_row skiprows
  = Raise (ValueError "No objects to concatenate").
Proof.
  intros HM. rewrite load_after_metadata.
  destruct ps; [done|simpl in HM; lia].
Qed.

End Reshape.

Section ReshapeProperties.

(** ** C5 *)

(** C5, counterexample: one record and a block of three columns
    ([3 <> 2 * 1]): the call returns a table and raises nothing. *)
Lemma C5_surplus_column_is_accepted :
  exists out : frame,
    load_cadence_vcsv [str "header"; str "Vout K 7 (V)"]
      (fun _ => Ok [[CInt 0]; [CInt 1]; [CInt 2]]) 2 6 = Ok out
    /\ params (raw_entries (strip (str "Vout K 7 (V)")))
       = Ok [[(str "signal", VStr (str "Vout")); (str "K", VInt 7)]]
    /\ raw_ncols [[CInt 0]; [CInt 1]; [CInt 2]] = 3.
Proof. eexists. vm_compute. repeat split. Qed.

(** C5, amended: no check of the column count exists.  With
    [M >= 1] records the call fails if and only if the block has
    fewer than [2 * M] columns; it then raises the [IndexError] of
    [iloc] and returns no table.  A block with [2 * M] columns or more
    is accepted. *)
Theorem C5_failure_iff_too_few_columns
    (lines : list pystr) (read_csv : Z -> result raw_frame)
    (metadata_row skiprows : Z) (line : pystr) (ps : list dict) (df : raw_frame) :
  getitem lines (metadata_row - 1) = Ok line ->
  params (raw_entries (strip line)) = Ok ps ->
  read_csv skiprows = Ok df ->
  0 < length ps ->
  ((exists e, load_cadence_vcsv lines read_csv metadata_row skiprows = Raise e)
   <-> raw_ncols df < 2 * length ps)
  /\ (raw_ncols df < 2 * length ps ->
      load_cadence_vcsv lines read_csv metadata_row skiprows
      = Raise (IndexError "single positional indexer is out-of-bounds"))
  /\ (2 * length ps <= raw_ncols df ->
      exists out, load_cadence_vcsv lines read_csv metadata_row skiprows = Ok out).
Proof.
  intros Hline Hps Hdf HM. unfold raw_ncols.
  pose proof (load_raises_of_few_columns _ _ _ _ _ _ _ Hline Hps Hdf) as Hfew.
  pose proof (load_ok_of_enough_columns _ _ _ _ _ _ _ Hline Hps Hdf HM) as Hok.
  assert (2 * length ps <= length df ->
          exists out, load_cadence_vcsv lines read_csv metadata_row skiprows = Ok out)
    as Hok'.
  { intros Hcols. destruct (Hok Hcols) as [Heq (out & Hout)]. exists out. congruence. }
  split; [|split; [done|done]].
  split.
  - intros (e & He).
    destruct (Nat.lt_ge_cases (length df) (2 * length ps)) as [|Hge]; [done|].
    destruct (Hok' Hge) as (out & Hout). congruence.
  - intros H. eexists. by apply Hfew.
Qed.

Lemma C5_failure_iff_too_few_columns_witness :
  getitem [str "header"; str "Vout K 7 (V); Vin K 8 (V)"] (2 - 1)
  = Ok (str "Vout K 7 (V); Vin K 8 (V)")
  /\ params (raw_entries (strip (str "Vout K 7 (V); Vin K 8 (V)")))
     = Ok [[(str "signal", VStr (str "Vout")); (str "K", VInt 7)];
           [(str "signal", VStr (str "Vin")); (str "K", VInt 8)]]
  /\ load_cadence_vcsv [str "header"; str "Vout K 7 (V); Vin K 8 (V)"]
       (fun _ => Ok [[CInt 0]; [CInt 1]; [CInt 2]]) 2 6
     = Raise (IndexError "single positional indexer is out-of-bounds").
Proof.
  split; [reflexivity|]. split; [reflexivity|].
  assert (0 < length [[(str "signal", VStr (str "Vout")); (str "K", VInt 7)];
                      [(str "signal", VStr (str "Vin")); (str "K", VInt 8)]]) as HM
    by (simpl; lia).
  refine (proj1 (proj2 (C5_failure_iff_too_few_columns
    [str "header"; str "Vout K 7 (V); Vin K 8 (V)"]
    (fun _ => Ok [[CInt 0]; [CInt 1]; [CInt 2]]) 2 6
    (str "Vout K 7 (V); Vin K 8 (V)")
    [[(str "signal", VStr (str "Vout")); (str "K", VInt 7)];
     [(str "signal", VStr (str "Vin")); (str "K", VInt 8)]]
    [[CInt 0]; [CInt 1]; [CInt 2]] eq_refl eq_refl eq_refl HM)) _).
  vm_compute. lia.
Defined.

(** ** C10 *)

Lemma sub_frame_take (df : raw_frame) (n idx : nat) (prm : dict) :
  (2 * idx + 1 < n)%nat ->
  sub_frame (take n df) idx prm = sub_frame df idx prm.
Proof.
  intros Hlt. unfold sub_frame, iloc_column.
  rewrite !lookup_take_lt by lia.
  assert (raw_nrows (take n df) = raw_nrows df) as ->; [|done].
  destruct n; [lia|]. by destruct df.
Qed.

(** C10, counterexample: a metadata line without any entry yields
    [M = 0] records; with a block of one column (more than [2 * 0])
    the call raises the [ValueError] of [pd.concat] on an empty
    list. *)
Lemma C10_no_record_raises :
  load_cadence_vcsv [str "header"; str "  "] (fun _ => Ok [[CInt 0]]) 2 6
  = Raise (ValueError "No objects to concatenate")
  /\ params (raw_entries (strip (str "  "))) = Ok []
  /\ 2 * 0 < raw_ncols [[CInt 0]].
Proof. split; [reflexivity|]. split; [reflexivity|]. vm_compute. lia. Qed.

(** C10, amended: for a header that yields [M >= 1] records and a
    block with more than [2 * M] columns the call returns a table,
    the one it returns for the block cut down to its first [2 * M]
    columns. *)
Theorem C10_surplus_columns_are_ignored
    (lines : list pystr) (read_csv : Z -> result raw_frame)
    (metadata_row skiprows : Z) (line : pystr) (ps : list dict) (df : raw_frame) :
  getitem lines (metadata_row - 1) = Ok line ->
  params (raw_entries (strip line)) = Ok ps ->
  read_csv skiprows = Ok df ->
  0 < length ps -> 2 * length ps < raw_ncols df ->
  exists out : frame,
    load_cadence_vcsv lines read_csv metadata_row skiprows = Ok out
    /\ load_cadence_vcsv lines (fun _ => Ok (take (2 * length ps) df))
         metadata_row skiprows = Ok out.
Proof.
  intros Hline Hps Hdf HM Hcols. unfold raw_ncols in Hcols.
  destruct (load_ok_of_enough_columns _ _ _ _ _ _ _ Hline Hps Hdf HM ltac:(lia))
    as [Heq (out & Hout)].
  exists out. split; [congruence|].
  rewrite (load_after_metadata lines (fun _ => Ok (take (2 * length ps) df))
             metadata_row skiprows line ps (take (2 * length ps) df) Hline Hps eq_refl).
  rewrite (load_after_metadata _ _ _ _ _ _ _ Hline Hps Hdf) in Heq.
  rewrite <- Hout, <- Heq. f_equal.
  unfold long_df. apply for_each_ext_in. intros [idx prm] Hin.
  apply enumerate_In in Hin as [Hidx _]. apply sub_frame_take. lia.
Qed.

Lemma C10_surplus_columns_are_ignored_witness :
  params (raw_entries (strip (str "Vout K 7 (V)")))
  = Ok [[(str "signal", VStr (str "Vout")); (str "K", VInt 7)]]
  /\ exists out : frame,
       load_cadence_vcsv [str "header"; str "Vout K 7 (V)"]
         (fun _ => Ok [[CInt 0]; [CInt 1]; [CInt 2]]) 2 6 = Ok out
       /\ load_cadence_vcsv [str "header"; str "Vout K 7 (V)"]
            (fun _ => Ok [[CInt 0]; [CInt 1]]) 2 6 = Ok out.
Proof.
  split; [reflexivity|].
  assert (0 < length [[(str "signal", VStr (str "Vout")); (str "K", VInt 7)]]) as HM
    by (simpl; lia).
  assert (2 * length [[(str "signal", VStr (str "Vout")); (str "K", VInt 7)]]
          < raw_ncols [[CInt 0]; [CInt 1]; [CInt 2]]) as Hc by (vm_compute; lia).
  exact (C10_surplus_columns_are_ignored
    [str "header"; str "Vout K 7 (V)"]
    (fun _ => Ok [[CInt 0]; [CInt 1]; [CInt 2]]) 2 6
    (str "Vout K 7 (V)")
    [[(str "signal", VStr (str "Vout")); (str "K", VInt 7)]]
    [[CInt 0]; [CInt 1]; [CInt 2]] eq_refl eq_refl eq_refl HM Hc).
Defined.

(** ** C6 *)

Lemma raw_nrows_rectangular (df : raw_frame) (R : nat) :
  rectangular df R -> df <> [] -> raw_nrows df = R.
Proof. intros H Hne. destruct df as [|c df]; [done|]. by apply Forall_cons in H as [H _]. Qed.

(** The frame of one channel: [R] rows, and column by column the
    parameter of that name when the record has one, else the base
    column. *)
Lemma channel_frame_spec (df : raw_frame) (R idx : nat) (prm : dict) :
  rectangular df R -> wf_record prm -> (2 * idx + 1 < length df)%nat ->
  has_rows R (channel_frame df idx prm)
  /\ forall k : pystr,
       column (columns (channel_frame df idx prm)) k
       = if Str.eqb k (str "signal")
         then Some (replicate R (default CNaN (cell_of_value <$> dict_get prm (str "signal"))))
         else match dict_get prm k with
              | Some v => Some (replicate R (cell_of_value v))
              | None =>
                  if Str.eqb k (str "time") then df !! (2 * idx)%nat
                  else if Str.eqb k (str "value") then df !! (2 * idx + 1)%nat
                  else if Str.eqb k (str "channel")
                       then Some (replicate R (CInt (Z.of_nat idx)))
                       else None
              end.
Proof.
  intros Hrect [Hnd _] Hlt.
  assert (df <> []) as Hne by (destruct df; [simpl in Hlt; lia|done]).
  unfold channel_frame. rewrite (raw_nrows_rectangular df R Hrect Hne).
  destruct (lookup_lt_is_Some_2 df (2 * idx)%nat ltac:(lia)) as (t & Ht).
  destruct (lookup_lt_is_Some_2 df (2 * idx + 1)%nat ltac:(lia)) as (v & Hv).
  rewrite Ht, Hv. cbn [default].
  match goal with
  | |- context [fold_left ?step prm {| nrows := R; columns := ?cols |}] =>
      destruct (add_parameters prm R cols Hnd) as (Hn & Hlen & Hcol)
  end.
  cbn zeta in Hn, Hlen, Hcol.
  split; [split; [exact Hn|]|].
  - apply Hlen. unfold rectangular in Hrect. rewrite Forall_forall in Hrect.
    repeat constructor; cbn [snd]; rewrite ?length_replicate; try done.
    + apply Hrect. by apply list_elem_of_lookup_2 in Ht.
    + apply Hrect. by apply list_elem_of_lookup_2 in Hv.
  - intros k. rewrite Hcol.
    destruct (Str.eqb k (str "signal")) eqn:Es.
    + apply eqb_eq in Es. subst k. reflexivity.
    + destruct (dict_get prm k); [done|].
      assert (forall a b : pystr, Str.eqb a b = Str.eqb b a) as Hsym.
      { intros a b. destruct (Str.eqb a b) eqn:E.
        - apply eqb_eq in E. subst. by rewrite eqb_refl.
        - symmetry. apply eqb_neq. apply eqb_neq in E. congruence. }
      cbn [column]. rewrite !(Hsym _ k), Es.
      destruct (Str.eqb k (str "time")); [done|].
      destruct (Str.eqb k (str "value")); [done|].
      by destruct (Str.eqb k (str "channel")).
Qed.

Lemma dtype_of_replicate_int (n : nat) (z : Z) :
  in_int64 z = true -> dtype_of (replicate n (CInt z)) = DInt64.
Proof.
  intros Hz. unfold dtype_of.
  assert (forallb (fun x => match x with CInt z => in_int64 z | _ => false end)
            (replicate n (CInt z)) = true) as ->; [|done].
  induction n as [|n IH]; cbn [replicate forallb]; [done|]. by rewrite Hz, IH.
Qed.

Lemma result_dtype_int (subs : list frame) (k : pystr) :
  subs <> [] ->
  Forall (fun f => exists c, column (columns f) k = Some c /\ dtype_of c = DInt64) subs ->
  result_dtype subs k = DInt64.
Proof.
  intros Hne Hall. unfold result_dtype.
  assert (forallb (fun f => match column (columns f) k with
                            | Some _ => true
                            | None => false
                            end) subs = true) as ->.
  { apply forallb_forall. intros f Hf. rewrite Forall_forall in Hall.
    destruct (Hall f) as (c & Hc & _); [by apply list_elem_of_In|]. by rewrite Hc. }
  assert (flat_map (fun f => match column (columns f) k with
                             | Some c => [dtype_of c]
                             | None => []
                             end) subs
          = map (fun _ => DInt64) subs) as ->.
  { clear Hne. induction Hall as [|f fs (c & Hc & Hd) _ IH]; cbn [flat_map map app]; [done|].
    by rewrite Hc, Hd, IH. }
  destruct subs as [|f fs]; [done|]. cbn [map common_dtype].
  assert (forallb (dtype_eqb DInt64) (map (fun _ => DInt64) fs) = true) as ->; [|done].
  clear. by induction fs.
Qed.

(** C6, counterexample: the rows do not always carry what the records
    and the block hold.  A record may name a parameter [time] (the
    entry [Vout time 5]); line 120 then overwrites the column of that
    name, and the rows of the channel carry [time = 5] instead of
    [data[r, 0]].  And [pd.concat] stores a column in one dtype: the
    integer parameter [K = 2^53 + 1] of the first channel comes back as
    the float [2^53] when the second channel has no parameter [K], and
    the integer [K = 7] as the float [7.0] when the second channel has
    [K = 0.5]. *)
Lemma C6_rows_that_differ_from_the_records :
  (exists out : frame,
     load_cadence_vcsv [str "header"; str "Vout time 5 (V)"]
       (fun _ => Ok [[CInt 10; CInt 11]; [CInt 20; CInt 21]]) 2 6 = Ok out
     /\ params (raw_entries (strip (str "Vout time 5 (V)")))
        = Ok [[(str "signal", VStr (str "Vout")); (str "time", VInt 5)]]
     /\ at_ out (str "time") 0 = Some (CInt 5)
     /\ raw_cell [[CInt 10; CInt 11]; [CInt 20; CInt 21]] 0 (2 * 0) = Some (CInt 10))
  /\ (exists out : frame,
        load_cadence_vcsv [str "header"; str "Vout K 9007199254740993 (V); Vin (V)"]
          (fun _ => Ok [[CInt 0]; [CInt 1]; [CInt 0]; [CInt 2]]) 2 6 = Ok out
        /\ params (raw_entries (strip (str "Vout K 9007199254740993 (V); Vin (V)")))
           = Ok [[(str "signal", VStr (str "Vout")); (str "K", VInt (2 ^ 53 + 1))];
                 [(str "signal", VStr (str "Vin"))]]
        /\ at_ out (str "K") 0 = Some (CFloat (of_int (2 ^ 53)))
        /\ at_ out (str "K") 1 = Some CNaN)
  /\ (exists out : frame,
        load_cadence_vcsv [str "header"; str "Vout K 7 (V); Vin K 0.5 (V)"]
          (fun _ => Ok [[CInt 0]; [CInt 1]; [CInt 0]; [CInt 2]]) 2 6 = Ok out
        /\ params (raw_entries (strip (str "Vout K 7 (V); Vin K 0.5 (V)")))
           = Ok [[(str "signal", VStr (str "Vout")); (str "K", VInt 7)];
                 [(str "signal", VStr (str "Vin"));
                  (str "K", VFloat (fdiv (of_int 1) (of_int 2)))]]
        /\ at_ out (str "K") 0 = Some (CFloat (of_int 7))
        /\ at_ out (str "K") 1 = Some (CFloat (fdiv (of_int 1) (of_int 2)))).
Proof. split; [|split]; eexists; vm_compute; repeat split. Qed.

(** C6, amended: for a rectangular block of [R] rows and [2 * M]
    columns ([M >= 1]: [read_csv] returns no frame without columns)
    the table has [R * M] rows; row [i * R + r] belongs to channel [i]
    and data row [r], and carries the signal of record [i], every
    parameter of record [i], and [time = data[r, 2i]],
    [value = data[r, 2i+1]], [channel = i] in the columns of these
    names unless record [i] has a parameter of that name, whose value
    then stands in the column; each of them as [pd.concat] stores it in
    the dtype of the column.  Floats, strings and missing values are
    stored as they are; an integer is stored as it is or, in a column
    of dtype float64, as the nearest float; it is stored as it is in a
    column that every record gives as an int64 parameter, and in the
    column [channel] when no record has a parameter of this name. *)
Theorem C6_long_form_rows
    (lines : list pystr) (read_csv : Z -> result raw_frame)
    (metadata_row skiprows : Z) (line : pystr) (ps : list dict)
    (df : raw_frame) (R : nat) :
  getitem lines (metadata_row - 1) = Ok line ->
  params (raw_entries (strip line)) = Ok ps ->
  read_csv skiprows = Ok df ->
  rectangular df R -> df <> [] ->
  raw_ncols df = 2 * length ps ->
  exists out : frame,
    load_cadence_vcsv lines read_csv metadata_row skiprows = Ok out
    /\ nrows out = R * length ps
    /\ Forall (fun kc => length kc.2 = R * length ps) (columns out)
    /\ (forall (i r : nat) (prm : dict),
          ps !! i = Some prm -> r < R ->
          at_ out (str "signal") (i * R + r)
          = stored df ps (str "signal") <$> (cell_of_value <$> dict_get prm (str "signal"))
          /\ (forall (k : pystr) (v : value),
                In (k, v) (parameters prm) ->
                at_ out k (i * R + r) = Some (stored df ps k (cell_of_value v)))
          /\ (dict_get prm (str "time") = None ->
              at_ out (str "time") (i * R + r)
              = stored df ps (str "time") <$> raw_cell df r (2 * i))
          /\ (dict_get prm (str "value") = None ->
              at_ out (str "value") (i * R + r)
              = stored df ps (str "value") <$> raw_cell df r (2 * i + 1))
          /\ (dict_get prm (str "channel") = None ->
              at_ out (str "channel") (i * R + r)
              = Some (stored df ps (str "channel") (CInt (Z.of_nat i)))))
    /\ (forall (k : pystr) (c : cell),
          (forall z, c <> CInt z) -> stored df ps k c = c)
    /\ (forall (k : pystr) (z : Z),
          stored df ps k (CInt z) = CInt z
          \/ (column_dtype df ps k = DFloat64
              /\ stored df ps k (CInt z) = CFloat (of_int z)))
    /\ (forall k : pystr,
          Forall (fun prm => exists z, dict_get prm k = Some (VInt z)
                                       /\ in_int64 z = true) ps ->
          forall z, stored df ps k (CInt z) = CInt z)
    /\ (Forall (fun prm => dict_get prm (str "channel") = None) ps ->
        in_int64 (Z.of_nat (length ps)) = true ->
        forall z, stored df ps (str "channel") (CInt z) = CInt z).
Proof.
  intros Hline Hps Hdf Hrect Hne Hcols. unfold raw_ncols in Hcols.
  assert (0 < length ps) as HM by (destruct df; [done|simpl in Hcols; lia]).
  pose proof (params_wf _ _ Hps) as Hwf.
  destruct (load_ok_of_enough_columns _ _ _ _ _ _ _ Hline Hps Hdf HM ltac:(lia))
    as [Heq _].
  fold (channel_frames df ps) in Heq.
  set (subs := channel_frames df ps) in *.
  assert (forall i prm, ps !! i = Some prm ->
            wf_record prm /\ 2 * i + 1 < length df
            /\ subs !! i = Some (channel_frame df i prm)) as Hrec.
  { intros i prm Hi. split; [|split].
    - rewrite Forall_forall in Hwf. apply Hwf. by apply list_elem_of_lookup_2 in Hi.
    - apply lookup_lt_Some in Hi. lia.
    - unfold subs, channel_frames.
      by rewrite list_lookup_fmap, (enumerate_lookup ps i prm Hi). }
  assert (forall f, f ∈ subs ->
            exists i prm, ps !! i = Some prm /\ f = channel_frame df i prm) as Hsubs.
  { intros f Hf. apply list_elem_of_fmap in Hf as ([idx prm] & -> & Hin).
    apply list_elem_of_In, enumerate_In in Hin as [Hidx Hprm]. by exists idx, prm. }
  assert (Forall (has_rows R) subs) as Hrows.
  { apply Forall_forall. intros f Hf.
    destruct (Hsubs f Hf) as (i & prm & Hi & ->).
    destruct (Hrec _ _ Hi) as (Hw & Hlt & _). by apply channel_frame_spec. }
  assert (length subs = length ps) as Hlen
    by (unfold subs, channel_frames; by rewrite length_map, length_enumerate).
  assert (subs <> []) as Hsne.
  { intros E. rewrite E in Hlen. simpl in Hlen. lia. }
  destruct (concat_uniform subs R Hsne Hrows) as (out & Hout & [Hn Hcl] & Hat).
  rewrite Hlen in Hn, Hcl.
  exists out. split; [congruence|]. split; [done|]. split; [done|].
  split; [|split; [|split; [|split]]].
  - intros i r prm Hi Hr.
    destruct (Hrec _ _ Hi) as (Hw & Hlt & Hsub).
    destruct (channel_frame_spec df R i prm Hrect Hw Hlt) as [_ Hcol].
    assert (forall k, at_ out k (i * R + r)
                      = match column (columns (channel_frame df i prm)) k with
                        | Some c => stored df ps k <$> c !! r
                        | None => if existsb (Str.eqb k) (union_labels subs)
                                  then Some CNaN else None
                        end) as Hrow by (intros k; by apply Hat).
    split; [|split; [|split; [|split]]].
    + rewrite Hrow, Hcol, eqb_refl. destruct Hw as [_ (sv & ->)]. cbn [fmap option_fmap option_map default].
      by rewrite lookup_replicate_2.
    + intros k v Hin. unfold parameters in Hin.
      apply filter_In in Hin as [Hin Hk]. cbn [fst] in Hk.
      apply negb_true_iff in Hk.
      assert (dict_get prm k = Some v) as Hget.
      { destruct Hw as [Hnd _]. clear -Hin Hnd.
        induction prm as [|[k0 v0] prm IH]; [done|]. simpl.
        apply NoDup_cons in Hnd as [Hk0 Hnd].
        destruct Hin as [[= -> ->]|Hin]; [by rewrite eqb_refl|].
        destruct (Str.eqb k0 k) eqn:E; [|by apply IH].
        apply eqb_eq in E. subst k0. exfalso. apply Hk0.
        apply list_elem_of_In. by apply (in_map fst) in Hin. }
      rewrite Hrow, Hcol, Hk, Hget. by rewrite lookup_replicate_2.
    + intros Hnone. rewrite Hrow, Hcol, Hnone. unfold raw_cell.
      change (Str.eqb (str "time") (str "signal")) with false.
      change (Str.eqb (str "time") (str "time")) with true. cbn iota.
      destruct (lookup_lt_is_Some_2 df (2 * i) ltac:(lia)) as (c & ->). done.
    + intros Hnone. rewrite Hrow, Hcol, Hnone. unfold raw_cell.
      change (Str.eqb (str "value") (str "signal")) with false.
      change (Str.eqb (str "value") (str "time")) with false.
      change (Str.eqb (str "value") (str "value")) with true. cbn iota.
      destruct (lookup_lt_is_Some_2 df (2 * i + 1) Hlt) as (c & ->). done.
    + intros Hnone. rewrite Hrow, Hcol, Hnone.
      change (Str.eqb (str "channel") (str "signal")) with false.
      change (Str.eqb (str "channel") (str "time")) with false.
      change (Str.eqb (str "channel") (str "value")) with false.
      change (Str.eqb (str "channel") (str "channel")) with true. cbn iota.
      by rewrite lookup_replicate_2.
  - intros k c Hc. unfold stored, cast.
    destruct (column_dtype df ps k), c as [x|z|s|b|]; try done. by destruct (Hc z).
  - intros k z. unfold stored, cast.
    destruct (column_dtype df ps k); auto.
  - intros k Hall z. unfold stored, column_dtype. fold subs.
    rewrite (result_dtype_int subs k Hsne); [done|].
    apply Forall_forall. intros f Hf.
    destruct (Hsubs f Hf) as (i & prm & Hi & ->).
    destruct (Hrec _ _ Hi) as (Hw & Hlt & _).
    destruct (channel_frame_spec df R i prm Hrect Hw Hlt) as [_ Hcol].
    rewrite Forall_forall in Hall.
    destruct (Hall prm) as (z' & Hz' & Hin); [by apply list_elem_of_lookup_2 in Hi|].
    rewrite Hcol. destruct (Str.eqb k (str "signal")) eqn:Es.
    + apply eqb_eq in Es. subst k. rewrite Hz'.
      eexists. split; [reflexivity|]. by apply dtype_of_replicate_int.
    + rewrite Hz'. eexists. split; [reflexivity|]. by apply dtype_of_replicate_int.
  - intros Hall Hbound z. unfold stored, column_dtype. fold subs.
    rewrite (result_dtype_int subs _ Hsne); [done|].
    apply Forall_forall. intros f Hf.
    destruct (Hsubs f Hf) as (i & prm & Hi & ->).
    destruct (Hrec _ _ Hi) as (Hw & Hlt & _).
    destruct (channel_frame_spec df R i prm Hrect Hw Hlt) as [_ Hcol].
    rewrite Forall_forall in Hall.
    rewrite Hcol, (Hall prm) by (by apply list_elem_of_lookup_2 in Hi).
    change (Str.eqb (str "channel") (str "signal")) with false.
    change (Str.eqb (str "channel") (str "time")) with false.
    change (Str.eqb (str "channel") (str "value")) with false.
    change (Str.eqb (str "channel") (str "channel")) with true. cbn iota.
    eexists. split; [reflexivity|]. apply dtype_of_replicate_int.
    apply lookup_lt_Some in Hi. apply in_int64_spec in Hbound. apply in_int64_spec. lia.
Qed.

Lemma C6_long_form_rows_witness :
  params (raw_entries (strip (str "Vout K 7 (V); Vin K 8 gain 0.5 (V)")))
  = Ok [[(str "signal", VStr (str "Vout")); (str "K", VInt 7)];
        [(str "signal", VStr (str "Vin")); (str "K", VInt 8);
         (str "gain", VFloat (S754_finite false 4503599627370496 (-53)))]]
  /\ exists out : frame,
       load_cadence_vcsv [str "header"; str "Vout K 7 (V); Vin K 8 gain 0.5 (V)"]
         (fun _ => Ok [[CInt 0; CInt 1]; [CInt 10; CInt 11];
                       [CInt 0; CInt 1]; [CInt 20; CInt 21]]) 2 6 = Ok out
       /\ nrows out = 2 * 2
       /\ at_ out (str "K") 2 = Some (CInt 8).
Proof.
  split; [reflexivity|].
  assert (rectangular [[CInt 0; CInt 1]; [CInt 10; CInt 11];
                       [CInt 0; CInt 1]; [CInt 20; CInt 21]] 2) as Hrect
    by (repeat constructor).
  destruct (C6_long_form_rows
    [str "header"; str "Vout K 7 (V); Vin K 8 gain 0.5 (V)"]
    (fun _ => Ok [[CInt 0; CInt 1]; [CInt 10; CInt 11];
                  [CInt 0; CInt 1]; [CInt 20; CInt 21]]) 2 6
    (str "Vout K 7 (V); Vin K 8 gain 0.5 (V)")
    [[(str "signal", VStr (str "Vout")); (str "K", VInt 7)];
     [(str "signal", VStr (str "Vin")); (str "K", VInt 8);
      (str "gain", VFloat (S754_finite false 4503599627370496 (-53)))]]
    [[CInt 0; CInt 1]; [CInt 10; CInt 11]; [CInt 0; CInt 1]; [CInt 20; CInt 21]] 2
    eq_refl eq_refl eq_refl Hrect ltac:(discriminate) eq_refl)
    as (out & Hout & Hn & _ & Hrow & _ & _ & Hint & _).
  exists out. split; [exact Hout|]. split; [exact Hn|].
  destruct (Hrow 1 0 [(str "signal", VStr (str "Vin")); (str "K", VInt 8);
                      (str "gain", VFloat (S754_finite false 4503599627370496 (-53)))]
              eq_refl ltac:(lia)) as (_ & Hpar & _).
  pose proof (Hpar (str "K") (VInt 8) ltac:(left; reflexivity)) as HK.
  cbn [cell_of_value] in HK. rewrite Hint in HK; [exact HK|].
  repeat constructor; eexists; split; reflexivity.
Defined.

End ReshapeProperties.

(* ================================================================== *)
(** * Theorems: reading back an entry *)
(* ================================================================== *)

Section Characters.

Lemma plain_char_spec (c : ascii) :
  plain_char c = true ->
  isspace c = false /\ Shlex.quotes c = false /\ Shlex.escape c = false
  /\ c <> "("%char /\ c <> ")"%char /\ c <> ";"%char.
Proof.
  unfold plain_char. rewrite !andb_true_iff, !negb_true_iff.
  intros (((((H1 & H2) & H3) & H4) & H5) & H6).
  repeat split; try done; intros ->; done.
Qed.

Lemma shlex_whitespace_isspace (c : ascii) :
  Shlex.whitespace c = true -> isspace c = true.
Proof.
  by destruct c as [[] [] [] [] [] [] [] []].
Qed.

Lemma not_isspace (c : ascii) :
  isspace c = false ->
  Shlex.whitespace c = false /\ code c <> 10 /\ c <> " "%char.
Proof.
  intros H. split; [|split].
  - destruct (Shlex.whitespace c) eqn:E; [|done].
    apply shlex_whitespace_isspace in E. congruence.
  - intros E. unfold isspace in H. rewrite E in H. done.
  - intros ->. done.
Qed.

Lemma plain_word_spec (w : pystr) :
  plain_word w = true <-> w <> [] /\ Forall (fun c => plain_char c = true) w.
Proof.
  unfold plain_word. rewrite andb_true_iff, negb_true_iff, Nat.eqb_neq.
  rewrite forallb_forall, Forall_forall. split.
  - intros [Hn H]. split; [by destruct w|]. intros c Hc. apply H. by apply list_elem_of_In.
  - intros [Hn H]. split; [by destruct w|]. intros c Hc. apply H. by apply list_elem_of_In.
Qed.

Lemma nonempty_last {A} (l : list A) : l <> [] -> exists l' x, l = l' ++ [x].
Proof.
  intros H. destruct (exists_last H) as (l' & x & ->). eauto.
Qed.

End Characters.

Section Strip.

Lemma drop_while_app_all (p : ascii -> bool) (a b : pystr) :
  Forall (fun c => p c = true) a -> drop_while p (a ++ b) = drop_while p b.
Proof. induction 1 as [|c a Hc _ IH]; simpl; [done|]. by rewrite Hc. Qed.

Lemma rstrip_nonspace_end (s : pystr) (c : ascii) (ws : pystr) :
  isspace c = false -> Forall (fun x => isspace x = true) ws ->
  rstrip ((s ++ [c]) ++ ws) = s ++ [c].
Proof.
  intros Hc Hws. unfold rstrip. rewrite !rev_app_distr.
  rewrite drop_while_app_all by (by apply Forall_rev).
  simpl. rewrite Hc. simpl. by rewrite rev_involutive.
Qed.

Lemma lstrip_nonspace_start (s : pystr) (c : ascii) :
  isspace c = false -> lstrip (c :: s) = c :: s.
Proof. intros Hc. unfold lstrip. simpl. by rewrite Hc. Qed.

(** A text that starts and ends with a character other than
    whitespace is what [strip] leaves of it and of its padded
    forms. *)
Lemma strip_padded (s : pystr) (ws : pystr) :
  s <> [] ->
  (forall c s', s = c :: s' -> isspace c = false) ->
  (forall s' c, s = s' ++ [c] -> isspace c = false) ->
  Forall (fun x => isspace x = true) ws ->
  strip (s ++ ws) = s.
Proof.
  intros Hne Hfirst Hlast Hws. unfold strip.
  destruct s as [|c s']; [done|].
  rewrite <- app_comm_cons, lstrip_nonspace_start by (by eapply Hfirst).
  rewrite app_comm_cons.
  destruct (nonempty_last (c :: s') Hne) as (s0 & x & E). rewrite E.
  apply rstrip_nonspace_end; [|done]. by eapply Hlast.
Qed.

Lemma split_head (sep : ascii) (a b : pystr) :
  Forall (fun c => c <> sep) a ->
  hd [] (Str.split sep (a ++ sep :: b)) = a.
Proof.
  induction 1 as [|c a Hc _ IH]; simpl.
  - by rewrite Ascii.eqb_refl.
  - assert (Ascii.eqb c sep = false) as -> by (by apply Ascii.eqb_neq).
    destruct (Str.split sep (a ++ sep :: b)) as [|w ws]; simpl in *; congruence.
Qed.

Lemma split_single (sep : ascii) (s : pystr) :
  Forall (fun c => c <> sep) s -> Str.split sep s = [s].
Proof.
  induction 1 as [|c a Hc _ IH]; simpl; [done|].
  assert (Ascii.eqb c sep = false) as -> by (by apply Ascii.eqb_neq).
  by rewrite IH.
Qed.

Lemma startswith_app (p r : pystr) : startswith p (p ++ r) = Some r.
Proof. induction p as [|a p IH]; simpl; [done|]. by rewrite Ascii.eqb_refl. Qed.

End Strip.

Section Regex.

Lemma lazy_group_unfold (s : pystr) :
  Re.lazy_group s
  = if Re.closes s then Some []
    else match s with
         | c :: s' =>
             if Nat.eqb (code c) 10 then None
             else match Re.lazy_group s' with
                  | Some g => Some (c :: g)
                  | None => None
                  end
         | [] => None
         end.
Proof. by destruct s. Qed.

(** No closing parenthesis can be reached from inside a text without
    one that ends with a character other than whitespace. *)
Lemma closes_inside (g : pystr) (c : ascii) (tail : pystr) :
  Forall (fun x => x <> ")"%char) (g ++ [c]) -> isspace c = false ->
  Re.closes ((g ++ [c]) ++ tail) = false.
Proof.
  intros Hg Hc. unfold Re.closes.
  induction g as [|x g IH]; simpl.
  - rewrite Hc. apply Forall_cons in Hg as [Hx _].
    destruct c as [[] [] [] [] [] [] [] []]; done.
  - apply Forall_cons in Hg as [Hx Hg]. destruct (isspace x); [by apply IH|].
    destruct x as [[] [] [] [] [] [] [] []]; done.
Qed.

(** The lazy group stops at the end of such a text when the closing
    parenthesis follows. *)
Lemma lazy_group_exact (g : pystr) (c : ascii) (tail : pystr) :
  Forall (fun x => x <> ")"%char /\ code x <> 10) (g ++ [c]) -> isspace c = false ->
  Re.closes tail = true ->
  Re.lazy_group ((g ++ [c]) ++ tail) = Some (g ++ [c]).
Proof.
  intros Hg Hc Htail.
  assert (Forall (fun x => x <> ")"%char) (g ++ [c])) as Hp
    by (eapply Forall_impl; [exact Hg|]; by intros x [H _]).
  induction g as [|x g IH].
  - rewrite lazy_group_unfold, (closes_inside [] c tail Hp Hc).
    simpl. apply Forall_cons in Hg as [[_ Hn] _].
    apply Nat.eqb_neq in Hn. rewrite Hn.
    by rewrite lazy_group_unfold, Htail.
  - rewrite lazy_group_unfold, (closes_inside (x :: g) c tail Hp Hc).
    simpl. apply Forall_cons in Hg as [[_ Hn] Hg].
    apply Nat.eqb_neq in Hn. rewrite Hn.
    apply Forall_cons in Hp as [_ Hp].
    by rewrite (IH Hg Hp).
Qed.

End Regex.

Section Tokens.

Lemma tokens_word (w s : pystr) (e : Shlex.lexstate) (tok : pystr) (q : bool) :
  Forall word_char w ->
  Shlex.tokens Shlex.InWord e tok q (w ++ s) = Shlex.tokens Shlex.InWord e (tok ++ w) q s.
Proof.
  intros Hw. revert tok. induction Hw as [|c w (H1 & H2 & H3) _ IH]; intros tok.
  - by rewrite app_nil_r.
  - simpl. rewrite H1, H2, H3, IH. by rewrite <- app_assoc.
Qed.

Lemma tokens_start_word (c : ascii) (w s : pystr) (e : Shlex.lexstate) :
  Forall word_char (c :: w) ->
  Shlex.tokens Shlex.InSpace e [] false ((c :: w) ++ s)
  = Shlex.tokens Shlex.InWord e (c :: w) false s.
Proof.
  intros Hw. apply Forall_cons in Hw as [(H1 & H2 & H3) Hw].
  simpl. rewrite H1, H2, H3. apply (tokens_word w s e [c] false Hw).
Qed.

Lemma tokens_in_quote (w s : pystr) (e : Shlex.lexstate) (tok : pystr) (q : bool) :
  Forall quoted_char w ->
  Shlex.tokens (Shlex.InQuote dquote) e tok q (w ++ dquote :: s)
  = Shlex.tokens Shlex.InWord e (tok ++ w) true s.
Proof.
  intros Hw. revert tok q. induction Hw as [|c w [H1 H2] _ IH]; intros tok q.
  - cbn [app Shlex.tokens]. rewrite Ascii.eqb_refl. by rewrite app_nil_r.
  - rewrite <- app_comm_cons. cbn [Shlex.tokens].
    assert (Ascii.eqb c dquote = false) as -> by (by apply Ascii.eqb_neq).
    rewrite H2. cbn [andb]. rewrite IH. by rewrite <- app_assoc.
Qed.

(** After a token, a sequence of tokens each preceded by one space is
    read back token by token. *)
Lemma tokens_items (items : list (bool * pystr)) (e : Shlex.lexstate)
    (tok : pystr) (q : bool) :
  Forall renderable items -> tok <> [] \/ q = true ->
  Shlex.tokens Shlex.InWord e tok q (flat_map (fun item => " "%char :: rendered item) items)
  = Ok (tok :: map snd items).
Proof.
  intros Hitems. revert e tok q.
  induction Hitems as [|[b w] items Hw _ IH]; intros e tok q Htok.
  - simpl. unfold Shlex.emit.
    assert (negb (Nat.eqb (length tok) 0) || q = true) as ->; [|done].
    destruct Htok as [H| ->]; [by destruct tok|apply orb_true_r].
  - cbn [flat_map]. rewrite <- app_comm_cons.
    cbn [Shlex.tokens]. change (Shlex.whitespace " ") with true. cbn iota.
    assert (negb (Nat.eqb (length tok) 0) || q = true) as ->.
    { destruct Htok as [H| ->]; [by destruct tok|apply orb_true_r]. }
    unfold rendered, renderable in *. cbn [fst snd] in *. destruct b.
    + rewrite <- app_comm_cons. cbn [Shlex.tokens].
      change (Shlex.whitespace dquote) with false.
      change (Shlex.escape dquote) with false.
      change (Shlex.quotes dquote) with true. cbn iota.
      rewrite <- app_assoc. cbn [app].
      rewrite tokens_in_quote by done. cbn [app].
      rewrite IH by (by right). done.
    + destruct Hw as [Hne Hw]. destruct w as [|c w]; [done|].
      rewrite tokens_start_word by done.
      rewrite IH by (by left). done.
Qed.

End Tokens.

Section Entries.

Lemma plain_word_chars (w : pystr) :
  plain_word w = true ->
  w <> [] /\ Forall word_char w /\ Forall quoted_char w /\ Forall inner_char w
  /\ ends_plain w /\ (forall c w', w = c :: w' -> plain_char c = true).
Proof.
  intros H. apply plain_word_spec in H as [Hne Hw].
  split; [done|]. split; [|split; [|split; [|split]]].
  - eapply Forall_impl; [exact Hw|]. intros c Hc.
    apply plain_char_spec in Hc as (H1 & H2 & H3 & _).
    apply not_isspace in H1 as (H1 & _). by repeat split.
  - eapply Forall_impl; [exact Hw|]. intros c Hc.
    apply plain_char_spec in Hc as (_ & H2 & H3 & _).
    split; [|done]. intros ->. done.
  - eapply Forall_impl; [exact Hw|]. intros c Hc. by left.
  - destruct (nonempty_last w Hne) as (w' & c & ->).
    exists w', c. split; [done|].
    apply Forall_app in Hw as [_ Hc]. by apply Forall_cons in Hc as [Hc _].
  - intros c w' ->. by apply Forall_cons in Hw as [Hc _].
Qed.

Lemma inner_char_spec (c : ascii) :
  inner_char c ->
  c <> ")"%char /\ code c <> 10 /\ c <> "("%char /\ c <> ";"%char.
Proof.
  intros [H|[->| ->]]; [|done|done].
  apply plain_char_spec in H as (H1 & _ & _ & H4 & H5 & H6).
  apply not_isspace in H1 as (_ & H1 & _). done.
Qed.

Lemma bare_inner_items (signal : pystr) (kvs : list (pystr * pystr)) :
  bare_inner signal kvs
  = signal ++ flat_map (fun item => " "%char :: rendered item) (bare_items kvs).
Proof.
  unfold bare_inner, bare_items. f_equal.
  induction kvs as [|[k t] kvs IH]; [done|].
  cbn [flat_map app]. unfold rendered at 1 2. cbn [fst snd].
  rewrite <- IH. by rewrite <- !app_assoc.
Qed.

Lemma wrapped_inner_items (signal : pystr) (kvs : list (pystr * pystr)) :
  wrapped_inner signal kvs
  = signal ++ flat_map (fun item => " "%char :: rendered item) (wrapped_items kvs).
Proof.
  unfold wrapped_inner, wrapped_items. f_equal.
  induction kvs as [|[k t] kvs IH]; [done|].
  cbn [flat_map app]. unfold rendered at 1 2. cbn [fst snd].
  rewrite <- IH. rewrite <- !app_assoc. cbn [app]. by rewrite <- !app_assoc.
Qed.

Lemma items_tokens (kvs : list (pystr * pystr)) :
  map snd (bare_items kvs) = flat_map (fun '(k, t) => [k; t]) kvs
  /\ map snd (wrapped_items kvs) = flat_map (fun '(k, t) => [k; t]) kvs.
Proof.
  unfold bare_items, wrapped_items.
  induction kvs as [|[k t] kvs [IH1 IH2]]; [done|].
  cbn [flat_map app map snd]. by rewrite IH1, IH2.
Qed.

Lemma items_renderable (kvs : list (pystr * pystr)) :
  buildable kvs ->
  Forall renderable (bare_items kvs) /\ Forall renderable (wrapped_items kvs).
Proof.
  intros [_ H]. unfold bare_items, wrapped_items.
  induction H as [|[k t] kvs (Hk & Ht & _) _ [IH1 IH2]]; [by split|].
  cbn [fst snd] in *.
  apply plain_word_chars in Hk as (Hk1 & Hk2 & Hk3 & _).
  apply plain_word_chars in Ht as (Ht1 & Ht2 & _).
  cbn [flat_map app]. split; repeat constructor; done.
Qed.

(** Both forms of the text between the parentheses give the signal
    name and then, in turn, each name and the text of its value. *)
Lemma split_inner (signal : pystr) (kvs : list (pystr * pystr)) :
  plain_word signal = true -> buildable kvs ->
  Shlex.split (bare_inner signal kvs)
  = Ok (signal :: flat_map (fun '(k, t) => [k; t]) kvs)
  /\ Shlex.split (wrapped_inner signal kvs)
     = Ok (signal :: flat_map (fun '(k, t) => [k; t]) kvs).
Proof.
  intros Hs Hkvs.
  apply plain_word_chars in Hs as (Hne & Hw & _).
  destruct (items_renderable kvs Hkvs) as [Hb Hwr].
  destruct (items_tokens kvs) as [Eb Ew].
  destruct signal as [|c w]; [done|].
  rewrite bare_inner_items, wrapped_inner_items. unfold Shlex.split.
  rewrite !tokens_start_word by done.
  rewrite !tokens_items by (done || by left).
  by rewrite Eb, Ew.
Qed.

End Entries.

Section EntryBase.

Lemma ends_plain_app (pre s : pystr) : ends_plain s -> ends_plain (pre ++ s).
Proof.
  intros (body & c & -> & Hc). exists (pre ++ body), c. by rewrite app_assoc.
Qed.

(** The text between the parentheses, in either form: its characters,
    its first and its last one. *)
Lemma inner_shape (f : pystr * pystr -> pystr) (signal : pystr)
    (kvs : list (pystr * pystr)) :
  plain_word signal = true -> buildable kvs ->
  (forall k t, exists x, f (k, t) = x ++ t /\ (Forall inner_char k -> Forall inner_char x)) ->
  let inner := signal ++ flat_map f kvs in
  Forall inner_char inner /\ ends_plain inner
  /\ exists c rest, inner = c :: rest /\ plain_char c = true.
Proof.
  intros Hs [_ Hkvs] Hf. cbn zeta.
  apply plain_word_chars in Hs as (Hne & _ & _ & Hin & Hend & Hfirst).
  split; [|split].
  - apply Forall_app. split; [done|].
    induction Hkvs as [|[k t] kvs (Hk & Ht & _) _ IH]; [constructor|].
    cbn [flat_map fst snd] in *. apply Forall_app. split; [|done].
    destruct (Hf k t) as (x & -> & Hx).
    apply plain_word_chars in Hk as (_ & _ & _ & Hk & _).
    apply plain_word_chars in Ht as (_ & _ & _ & Ht & _).
    apply Forall_app. split; [by apply Hx|done].
  - revert Hend. generalize signal.
    induction Hkvs as [|[k t] kvs (Hk & Ht & _) _ IH]; intros pre Hpre.
    + by rewrite app_nil_r.
    + cbn [flat_map fst snd] in *. rewrite app_assoc. apply IH.
      destruct (Hf k t) as (x & -> & _). rewrite app_assoc.
      apply ends_plain_app. by apply plain_word_chars in Ht as (_ & _ & _ & _ & Ht & _).
  - destruct signal as [|c w]; [done|]. exists c, (w ++ flat_map f kvs).
    split; [done|]. by eapply Hfirst.
Qed.

Lemma bare_inner_shape (signal : pystr) (kvs : list (pystr * pystr)) :
  plain_word signal = true -> buildable kvs ->
  Forall inner_char (bare_inner signal kvs) /\ ends_plain (bare_inner signal kvs)
  /\ exists c rest, bare_inner signal kvs = c :: rest /\ plain_char c = true.
Proof.
  intros Hs Hkvs. apply (inner_shape _ signal kvs Hs Hkvs).
  intros k t. exists (" "%char :: k ++ [" "%char]). split.
  - cbn [app]. by rewrite <- app_assoc.
  - intros Hk. constructor; [right; by left|].
    apply Forall_app. split; [done|]. constructor; [right; by left|constructor].
Qed.

Lemma wrapped_inner_shape (signal : pystr) (kvs : list (pystr * pystr)) :
  plain_word signal = true -> buildable kvs ->
  Forall inner_char (wrapped_inner signal kvs) /\ ends_plain (wrapped_inner signal kvs)
  /\ exists c rest, wrapped_inner signal kvs = c :: rest /\ plain_char c = true.
Proof.
  intros Hs Hkvs. apply (inner_shape _ signal kvs Hs Hkvs).
  intros k t. exists (" "%char :: dquote :: k ++ [dquote; " "%char]). split.
  - cbn [app]. by rewrite <- app_assoc.
  - intros Hk. constructor; [right; by left|]. constructor; [by right; right|].
    apply Forall_app. split; [done|].
    constructor; [by right; right|]. constructor; [right; by left|constructor].
Qed.

(** A word without parenthesis followed by a space does not start
    with [leafValue(]. *)
Lemma startswith_word (p0 w rest : pystr) :
  ~ In " "%char p0 -> Forall (fun x => x <> "("%char) w ->
  startswith (p0 ++ ["("%char]) (w ++ " "%char :: rest) = None.
Proof.
  intros Hp Hw. revert p0 Hp. induction Hw as [|x w Hx _ IH]; intros p0 Hp.
  - destruct p0 as [|a p0]; cbn [startswith app]; [done|].
    assert (Ascii.eqb a " " = false) as ->; [|done].
    apply Ascii.eqb_neq. intros ->. apply Hp. by left.
  - destruct p0 as [|a p0]; cbn [startswith app].
    + assert (Ascii.eqb "(" x = false) as ->; [|done].
      apply Ascii.eqb_neq. congruence.
    + destruct (Ascii.eqb a x); [|done]. apply IH. intros H. apply Hp. by right.
Qed.

Lemma entry_base_bare (signal : pystr) (kvs : list (pystr * pystr)) (units : pystr) :
  plain_word signal = true -> buildable kvs ->
  entry_base (bare_entry signal kvs units) = bare_inner signal kvs.
Proof.
  intros Hs Hkvs.
  destruct (bare_inner_shape signal kvs Hs Hkvs) as (Hin & Hend & c & rest & Hc & Hcp).
  unfold entry_base.
  assert (Re.match_leafValue (bare_entry signal kvs units) = None) as ->.
  { unfold Re.match_leafValue, bare_entry, bare_inner.
    assert (exists rest', (signal ++ flat_map (fun '(k, t) => " "%char :: k ++ " "%char :: t) kvs)
                          ++ str "  (" ++ units ++ str ")"
                          = signal ++ " "%char :: rest') as (rest' & ->).
    { rewrite <- app_assoc. destruct kvs as [|[k t] kvs]; eexists; reflexivity. }
    change (str "leafValue(") with (str "leafValue" ++ ["("%char]).
    rewrite startswith_word; [done| |].
    - intros H. unfold str in H. simpl in H.
      repeat (destruct H as [H|H]; [discriminate H|]). done.
    - apply plain_word_chars in Hs as (_ & _ & _ & Hs & _).
      eapply Forall_impl; [exact Hs|]. intros x Hx.
      by apply inner_char_spec in Hx as (_ & _ & H & _). }
  unfold bare_entry.
  change (str "  (" ++ units ++ str ")")
    with (str "  " ++ "("%char :: units ++ str ")").
  rewrite app_assoc, split_head.
  - cbn [hd]. apply strip_padded.
    + by rewrite Hc.
    + intros c' s' E. rewrite Hc in E. injection E as <- <-.
      by apply plain_char_spec in Hcp as (H & _).
    + intros s' c' E. destruct Hend as (body & c0 & E0 & Hc0).
      rewrite E0 in E. apply app_inj_tail in E as [_ <-].
      by apply plain_char_spec in Hc0 as (H & _).
    + by repeat constructor.
  - apply Forall_app. split.
    + eapply Forall_impl; [exact Hin|]. intros x Hx.
      by apply inner_char_spec in Hx as (_ & _ & H & _).
    + by repeat constructor.
Qed.

Lemma entry_base_wrapped (signal : pystr) (kvs : list (pystr * pystr)) (units : pystr) :
  plain_word signal = true -> buildable kvs ->
  entry_base (wrapped_entry signal kvs units) = wrapped_inner signal kvs.
Proof.
  intros Hs Hkvs.
  destruct (wrapped_inner_shape signal kvs Hs Hkvs) as (Hin & Hend & c & rest & Hc & Hcp).
  unfold entry_base, Re.match_leafValue, wrapped_entry.
  change (str "leafValue( ") with (str "leafValue(" ++ [" "%char]).
  rewrite <- app_assoc, startswith_app. cbn [app].
  destruct Hend as (body & c0 & E0 & Hc0).
  assert (Re.lazy_group (wrapped_inner signal kvs ++ str " ) (" ++ units ++ str ")")
          = Some (wrapped_inner signal kvs)) as Hlazy.
  { rewrite E0. apply lazy_group_exact.
    - rewrite <- E0. eapply Forall_impl; [exact Hin|].
      intros x Hx. by apply inner_char_spec in Hx as (H1 & H2 & _).
    - by apply plain_char_spec in Hc0 as (H & _).
    - reflexivity. }
  cbn [Re.after_prefix]. change (isspace " ") with true. cbn iota.
  rewrite Hc in *. rewrite <- app_comm_cons in *. cbn [Re.after_prefix].
  apply plain_char_spec in Hcp as (Hsp & _). rewrite Hsp.
  by rewrite Hlazy.
Qed.

End EntryBase.

Section Integers.

Local Open Scope Z_scope.

Lemma digitpart_uint (d : Decimal.uint) (more : bool) :
  digitpart_from more (str (NilEmpty.string_of_uint d)) = (uint_digits d, []).
Proof.
  revert more. unfold str.
  induction d as [|d IH|d IH|d IH|d IH|d IH|d IH|d IH|d IH|d IH|d IH]; intros more;
    [done|..];
    cbn [NilEmpty.string_of_uint list_ascii_of_string uint_digits digitpart_from];
    change (digit_of "0") with (Some 0); change (digit_of "1") with (Some 1);
    change (digit_of "2") with (Some 2); change (digit_of "3") with (Some 3);
    change (digit_of "4") with (Some 4); change (digit_of "5") with (Some 5);
    change (digit_of "6") with (Some 6); change (digit_of "7") with (Some 7);
    change (digit_of "8") with (Some 8); change (digit_of "9") with (Some 9);
    cbn iota; by rewrite IH.
Qed.

Lemma digits_value_acc (d : Decimal.uint) (acc : positive) :
  fold_left (fun acc d => 10 * acc + d) (uint_digits d) (Z.pos acc)
  = Z.pos (Pos.of_uint_acc d acc).
Proof.
  revert acc.
  induction d as [|d IH|d IH|d IH|d IH|d IH|d IH|d IH|d IH|d IH|d IH]; intros acc;
    [done|..]; cbn [uint_digits fold_left Pos.of_uint_acc]; rewrite <- IH; f_equal; lia.
Qed.

Lemma digits_value_uint (d : Decimal.uint) :
  digits_value (uint_digits d) = Z.of_N (Pos.of_uint d).
Proof.
  unfold digits_value.
  induction d as [|d IH|d IH|d IH|d IH|d IH|d IH|d IH|d IH|d IH|d IH];
    [done|exact IH|..];
    cbn [uint_digits fold_left Pos.of_uint Z.of_N]; rewrite <- digits_value_acc; f_equal.
Qed.

Lemma uint_text (d : Decimal.uint) :
  let t := str (NilEmpty.string_of_uint d) in
  length (uint_digits d) = length t
  /\ Forall (fun c => plain_char c = true /\ c <> "-"%char /\ c <> "+"%char) t.
Proof.
  unfold str.
  induction d as [|d [IH1 IH2]|d [IH1 IH2]|d [IH1 IH2]|d [IH1 IH2]|d [IH1 IH2]
                  |d [IH1 IH2]|d [IH1 IH2]|d [IH1 IH2]|d [IH1 IH2]|d [IH1 IH2]];
    cbn [NilEmpty.string_of_uint list_ascii_of_string uint_digits length];
    (split; [by rewrite ?IH1|]); try constructor; try done.
Qed.

Lemma number_space_isspace (c : ascii) : number_space c = true -> isspace c = true.
Proof. by destruct c as [[] [] [] [] [] [] [] []]. Qed.

Lemma number_strip_no_space (s : pystr) :
  Forall (fun c => isspace c = false) s -> number_strip s = s.
Proof.
  intros H. unfold number_strip.
  assert (forall l, Forall (fun c => isspace c = false) l ->
                    drop_while number_space l = l) as Hd.
  { intros l Hl. destruct Hl as [|c l Hc _]; simpl; [done|].
    destruct (number_space c) eqn:E; [|done].
    apply number_space_isspace in E. congruence. }
  rewrite (Hd s H), Hd by (by apply Forall_rev). apply rev_involutive.
Qed.

(** An integer written in decimal is read back by [int]. *)
Lemma number_decimal (z : Z) :
  (length (decimal (Z.abs z)) <= max_str_digits)%nat ->
  number (decimal z) = Ok (VInt z) /\ plain_word (decimal z) = true.
Proof.
  intros Hlen.
  assert (forall (neg : bool) (p : positive) (t : pystr),
            t = str (NilEmpty.string_of_uint (Pos.to_uint p)) ->
            (length t <= max_str_digits)%nat ->
            sign t = (false, t)
            /\ (match digitpart t with
                | ((_ :: _) as ds, []) =>
                    if (length ds <=? max_str_digits)%nat
                    then Some (if neg then - digits_value ds else digits_value ds)
                    else None
                | _ => None
                end = Some (if neg then Z.neg p else Z.pos p))
            /\ Forall (fun c => plain_char c = true) t /\ t <> []) as Hpos.
  { intros neg p t -> Ht.
    destruct (uint_text (Pos.to_uint p)) as [Hl Hc]. cbn zeta in Hl, Hc.
    pose proof (Unsigned.to_uint_nonnil p) as Hnn.
    split; [|split; [|split]].
    - destruct (str (NilEmpty.string_of_uint (Pos.to_uint p))) as [|c t]; [done|].
      apply Forall_cons in Hc as [(_ & Hm & Hp) _].
      unfold sign. destruct c as [[] [] [] [] [] [] [] []]; done.
    - unfold digitpart. rewrite digitpart_uint.
      destruct (uint_digits (Pos.to_uint p)) as [|d0 ds] eqn:E.
      { by destruct (Pos.to_uint p). }
      rewrite Hl.
      assert ((length (str (NilEmpty.string_of_uint (Pos.to_uint p))) <=? max_str_digits)%nat
              = true) as -> by (by apply Nat.leb_le).
      rewrite <- E, digits_value_uint, DecimalPos.Unsigned.of_to.
      by destruct neg.
    - eapply Forall_impl; [exact Hc|]. by intros c (H & _).
    - destruct (Pos.to_uint p); done. }
  assert (forall t, Forall (fun c => plain_char c = true) t ->
                    Forall (fun c => isspace c = false) t) as Hns.
  { intros t H. eapply Forall_impl; [exact H|]. intros c Hc.
    by apply plain_char_spec in Hc as (H' & _). }
  unfold number, int_of_str, decimal in *. destruct z as [|p|p].
  - by vm_compute.
  - change (Z.abs (Z.pos p)) with (Z.pos p) in *.
    cbn [Z.to_int NilZero.string_of_int] in *.
    assert (NilZero.string_of_uint (Pos.to_uint p)
            = NilEmpty.string_of_uint (Pos.to_uint p)) as E.
    { pose proof (Unsigned.to_uint_nonnil p). by destruct (Pos.to_uint p). }
    rewrite E in *.
    destruct (Hpos false p _ eq_refl Hlen) as (Hsign & Hval & Hplain & Hne).
    rewrite number_strip_no_space by (by apply Hns). rewrite Hsign, Hval.
    split; [done|]. apply plain_word_spec. by split.
  - change (Z.abs (Z.neg p)) with (Z.pos p) in *.
    cbn [Z.to_int NilZero.string_of_int] in *.
    assert (NilZero.string_of_uint (Pos.to_uint p)
            = NilEmpty.string_of_uint (Pos.to_uint p)) as E.
    { pose proof (Unsigned.to_uint_nonnil p). by destruct (Pos.to_uint p). }
    rewrite E in *. unfold str in *. cbn [list_ascii_of_string] in *.
    destruct (Hpos true p _ eq_refl) as (Hsign & Hval & Hplain & Hne).
    { exact Hlen. }
    unfold str in *.
    rewrite number_strip_no_space by (constructor; [done|by apply Hns]).
    cbn [sign]. rewrite Hval.
    split; [done|]. apply plain_word_spec. split; [done|]. by constructor.
Qed.

End Integers.

(* ================================================================== *)
(** * Theorems: floats written as text *)
(* ================================================================== *)

Section FloatText.

Local Open Scope Z_scope.

(** ** Rounding a number that needs none *)

Lemma iter_pos_iter {A} (f : A -> A) (p : positive) (x : A) :
  SpecFloat.iter_pos f p x = Pos.iter f x p.
Proof.
  revert x. induction p as [p IH|p IH|]; intros x; cbn [SpecFloat.iter_pos Pos.iter].
  - by rewrite !IH, !Pos.iter_swap.
  - by rewrite !IH.
  - done.
Qed.

Lemma shr_exact_iter (p m : positive) :
  SpecFloat.iter_pos shr_1 p
    {| shr_m := Z.pos (Pos.iter xO m p); shr_r := false; shr_s := false |}
  = {| shr_m := Z.pos m; shr_r := false; shr_s := false |}.
Proof.
  rewrite iter_pos_iter. induction p as [|p IH] using Pos.peano_ind.
  - reflexivity.
  - rewrite !Pos.iter_succ, <- Pos.iter_swap. cbn [shr_1 orb]. exact IH.
Qed.

Lemma canonical_of_valid (s : bool) (m : positive) (e : Z) :
  valid (S754_finite s m e) = true ->
  fexp prec emax (Zdigits2 (Z.pos m) + e) = e /\ e <= emax - prec.
Proof.
  unfold valid, valid_binary, bounded, canonical_mantissa.
  intros Hv. apply andb_prop in Hv as [Hc Hb].
  apply Z.eqb_eq in Hc. apply Z.leb_le in Hb. by split.
Qed.

Lemma Zdigits2_mul_pow (m : positive) (n : Z) :
  0 <= n -> Zdigits2 (Z.pos m * 2 ^ n) = Zdigits2 (Z.pos m) + n.
Proof.
  intros Hn. destruct (Zdigits2_bounds (Z.pos m) ltac:(lia)) as [Hlo Hhi].
  assert (0 < Zdigits2 (Z.pos m)) by (simpl; lia).
  assert (0 < 2 ^ n) by (apply Z.pow_pos_nonneg; lia).
  apply Zdigits2_unique; [|lia]. split.
  - replace (Zdigits2 (Z.pos m) + n - 1) with (Zdigits2 (Z.pos m) - 1 + n) by lia.
    rewrite Z.pow_add_r by lia. nia.
  - rewrite Z.pow_add_r by lia. nia.
Qed.

(** A number of the format, given with [n] more binary digits, is
    rounded to itself. *)
Lemma binary_round_aux_exact (s : bool) (m : positive) (e n : Z) :
  valid (S754_finite s m e) = true -> 0 <= n ->
  binary_round_aux prec emax s (Z.pos m * 2 ^ n) (e - n) loc_Exact = S754_finite s m e.
Proof.
  intros Hv Hn. destruct (canonical_of_valid s m e Hv) as [Hc Hb].
  unfold binary_round_aux.
  assert (shr_fexp prec emax (Z.pos m * 2 ^ n) (e - n) loc_Exact
          = ({| shr_m := Z.pos m; shr_r := false; shr_s := false |}, e)) as ->.
  { unfold shr_fexp. rewrite Zdigits2_mul_pow by done.
    replace (Zdigits2 (Z.pos m) + n + (e - n)) with (Zdigits2 (Z.pos m) + e) by lia.
    rewrite Hc. replace (e - (e - n)) with n by lia.
    unfold shr. destruct n as [|p|p]; [| |lia].
    - rewrite Z.mul_1_r. cbn [shr_record_of_loc]. f_equal. lia.
    - cbn [shr_record_of_loc].
      replace (Z.pos m * 2 ^ Z.pos p) with (Z.pos (Pos.iter xO m p))
        by (by rewrite iter_xO_mul, Pos2Z.inj_mul, Pos2Z.inj_pow).
      rewrite shr_exact_iter. f_equal. lia. }
  cbn [shr_m loc_of_shr_record round_nearest_even].
  assert (shr_fexp prec emax (Z.pos m) e loc_Exact
          = ({| shr_m := Z.pos m; shr_r := false; shr_s := false |}, e)) as ->.
  { unfold shr_fexp. rewrite Hc, Z.sub_diag. reflexivity. }
  cbn [shr_m]. by apply Z.leb_le in Hb as ->.
Qed.

(** ** The decimal number that a float is *)

(** The decimal [m * 2^e * 10^0] of a float with [e >= 0]. *)
Lemma float_of_decimal_integer (s : bool) (m : positive) (e : Z) (M : positive) :
  valid (S754_finite s m e) = true -> 0 <= e ->
  Z.pos M = Z.pos m * 2 ^ e ->
  float_of_decimal s (Z.pos M) 0 = S754_finite s m e.
Proof.
  intros Hv He HM. destruct (canonical_of_valid s m e Hv) as [Hc Hb].
  unfold float_of_decimal. rewrite Z.pow_0_r, Z.mul_1_r.
  assert (binary_round prec emax s M 0 = S754_finite s m e) as Hround.
  { unfold binary_round.
    change (Z.pos (digits2_pos M)) with (Zdigits2 (Z.pos M)).
    rewrite HM, Zdigits2_mul_pow, Z.add_0_r, Hc by done.
    unfold shl_align. rewrite Z.sub_0_r.
    destruct e as [|p|p] eqn:Ee; [| |lia].
    - rewrite <- (binary_round_aux_exact s m 0 0 Hv ltac:(lia)).
      f_equal. lia.
    - rewrite <- (binary_round_aux_exact s m (Z.pos p) (Z.pos p) Hv ltac:(lia)).
      f_equal; lia. }
  unfold binary_normalize. by destruct s.
Qed.

(** The decimal [m * 5^k * 10^-k] of a float with [e = -k < 0]. *)
Lemma float_of_decimal_fraction (s : bool) (m k : positive) :
  valid (S754_finite s m (Z.neg k)) = true ->
  float_of_decimal s (Z.pos (m * 5 ^ k)) (Z.neg k) = S754_finite s m (Z.neg k).
Proof.
  intros Hv. destruct (canonical_of_valid s m _ Hv) as [Hc Hb].
  unfold float_of_decimal, SFdiv_core_binary.
  set (M := Z.pos (m * 5 ^ k)). set (D := Z.pos (10 ^ k)).
  assert (M = Z.pos m * 5 ^ Z.pos k) as HM
    by (subst M; by rewrite Pos2Z.inj_mul, Pos2Z.inj_pow).
  assert (D = 2 ^ Z.pos k * 5 ^ Z.pos k) as HD.
  { subst D. rewrite Pos2Z.inj_pow. change (Z.pos 10) with (2 * 5).
    by rewrite Z.pow_mul_l. }
  assert (0 < 5 ^ Z.pos k) as H5 by (apply Z.pow_pos_nonneg; lia).
  assert (0 < 2 ^ Z.pos k) as H2 by (apply Z.pow_pos_nonneg; lia).
  assert (0 < M) as HMp by (subst M; lia).
  assert (0 < D) as HDp by (subst D; lia).
  (* the exponent of the quotient is not above the one of the float *)
  assert (Zdigits2 M + Z.pos k <= Zdigits2 (Z.pos m) + Zdigits2 D) as Hd.
  { destruct (Zdigits2_bounds M HMp) as [Hlo _].
    destruct (Zdigits2_bounds (Z.pos m) ltac:(lia)) as [_ Hhi].
    destruct (Zdigits2_bounds D HDp) as [_ HhiD].
    pose proof (Zdigits2_nonneg D) as HnD.
    assert (0 < Zdigits2 M) as HdM by (subst M; simpl; lia).
    assert (0 < Zdigits2 (Z.pos m)) as Hdm by (simpl; lia).
    assert (2 ^ (Zdigits2 M - 1 + Z.pos k) < 2 ^ (Zdigits2 (Z.pos m) + Zdigits2 D)) as Hlt.
    { rewrite !Z.pow_add_r by lia.
      apply Z.le_lt_trans with (M * 2 ^ Z.pos k); [nia|].
      replace (M * 2 ^ Z.pos k) with (Z.pos m * D) by (rewrite HM, HD; ring).
      nia. }
    apply Z.pow_lt_mono_r_iff in Hlt; lia. }
  rewrite !Z.add_0_r, !Z.sub_0_r.
  set (e' := Z.min (fexp prec emax (Zdigits2 M - Zdigits2 D)) 0).
  assert (e' <= Z.neg k) as He'.
  { subst e'. rewrite fexp_spec in *. lia. }
  destruct (0 - e') as [|n|n] eqn:En; [lia| |lia].
  rewrite Z.shiftl_mul_pow2 by lia.
  assert (M * 2 ^ Z.pos n = (Z.pos m * 2 ^ (Z.pos n - Z.pos k)) * D) as Hprod.
  { rewrite HM, HD.
    replace (Z.pos n) with ((Z.pos n - Z.pos k) + Z.pos k) at 1 by lia.
    rewrite Z.pow_add_r by lia. ring. }
  destruct (Z.div_eucl (M * 2 ^ Z.pos n) D) as [q r] eqn:Ediv.
  assert (q = Z.pos m * 2 ^ (Z.pos n - Z.pos k) /\ r = 0) as [-> ->].
  { split.
    - change q with (fst (q, r)). rewrite <- Ediv.
      change (fst (Z.div_eucl (M * 2 ^ Z.pos n) D)) with ((M * 2 ^ Z.pos n) / D).
      rewrite Hprod. apply Z.div_mul. lia.
    - change r with (snd (q, r)). rewrite <- Ediv.
      change (snd (Z.div_eucl (M * 2 ^ Z.pos n) D)) with ((M * 2 ^ Z.pos n) mod D).
      rewrite Hprod. apply Z.mod_mul. lia. }
  assert (new_location D 0 = loc_Exact) as ->.
  { unfold new_location. by destruct (Z.even D). }
  replace e' with (Z.neg k - (Z.pos n - Z.pos k)) by lia.
  apply binary_round_aux_exact; [done|lia].
Qed.

(** ** Reading the text of a float *)

Lemma isdigit_spec (c : ascii) :
  isdigit c = true ->
  plain_char c = true /\ isspace c = false /\ lower c = c
  /\ (forall t, sign (c :: t) = (false, c :: t))
  /\ (forall t, Str.eqb (c :: t) (str "inf") = false
                /\ Str.eqb (c :: t) (str "infinity") = false
                /\ Str.eqb (c :: t) (str "nan") = false).
Proof. by destruct c as [[] [] [] [] [] [] [] []]. Qed.

Lemma uint_text_digits (d : Decimal.uint) :
  Forall (fun c => isdigit c = true) (str (NilEmpty.string_of_uint d)).
Proof.
  unfold str.
  induction d as [|d IH|d IH|d IH|d IH|d IH|d IH|d IH|d IH|d IH|d IH];
    cbn [NilEmpty.string_of_uint list_ascii_of_string]; by constructor.
Qed.

Lemma digits_text_spec (p : positive) :
  exists (c : ascii) (t : pystr),
    digits_text p = c :: t /\ Forall (fun c => isdigit c = true) (c :: t).
Proof.
  pose proof (uint_text_digits (Pos.to_uint p)) as H.
  pose proof (Unsigned.to_uint_nonnil p) as Hnn.
  unfold digits_text in *.
  destruct (str (NilEmpty.string_of_uint (Pos.to_uint p))) as [|c t] eqn:E.
  - by destruct (Pos.to_uint p).
  - by exists c, t.
Qed.

(** The digit part ends at the exponent mark. *)
Lemma digitpart_uint_e (d : Decimal.uint) (more : bool) (r : pystr) :
  digitpart_from more (str (NilEmpty.string_of_uint d) ++ "e"%char :: r)
  = (uint_digits d, "e"%char :: r).
Proof.
  revert more. unfold str.
  induction d as [|d IH|d IH|d IH|d IH|d IH|d IH|d IH|d IH|d IH|d IH]; intros more;
    [by destruct more|..];
    cbn [NilEmpty.string_of_uint list_ascii_of_string uint_digits digitpart_from app];
    change (digit_of "0") with (Some 0); change (digit_of "1") with (Some 1);
    change (digit_of "2") with (Some 2); change (digit_of "3") with (Some 3);
    change (digit_of "4") with (Some 4); change (digit_of "5") with (Some 5);
    change (digit_of "6") with (Some 6); change (digit_of "7") with (Some 7);
    change (digit_of "8") with (Some 8); change (digit_of "9") with (Some 9);
    cbn iota; by rewrite IH.
Qed.

Lemma digits_value_text (p : positive) :
  digits_value (uint_digits (Pos.to_uint p)) = Z.pos p.
Proof. by rewrite digits_value_uint, DecimalPos.Unsigned.of_to. Qed.

Lemma uint_digits_nonnil (p : positive) : uint_digits (Pos.to_uint p) <> [].
Proof.
  pose proof (Unsigned.to_uint_nonnil p). by destruct (Pos.to_uint p).
Qed.

(** A number written as digits and an exponent is read by [float],
    and not by [int]. *)
Lemma float_of_str_scientific (s : bool) (P : positive) (E : pystr) (e : Z) :
  exponent ("e"%char :: E) = Some (e, []) ->
  Forall (fun c => plain_char c = true) E ->
  let t := (if s then str "-" else []) ++ digits_text P ++ "e"%char :: E in
  float_of_str t = Some (float_of_decimal s (Z.pos P) e)
  /\ int_of_str t = None
  /\ plain_word t = true.
Proof.
  intros He HE t.
  destruct (digits_text_spec P) as (c & D & HD & Hdig).
  assert (Forall (fun c => plain_char c = true) (digits_text P ++ "e"%char :: E)) as Hplain.
  { apply Forall_app. split.
    - rewrite HD. eapply Forall_impl; [exact Hdig|].
      intros x Hx. by apply isdigit_spec in Hx as (H & _).
    - by constructor. }
  assert (Forall (fun c => plain_char c = true) t) as Hplain_t.
  { subst t. destruct s; [by constructor|done]. }
  assert (number_strip t = t) as Hstrip.
  { apply number_strip_no_space. eapply Forall_impl; [exact Hplain_t|].
    intros x Hx. by apply plain_char_spec in Hx as (H & _). }
  assert (sign t = (s, digits_text P ++ "e"%char :: E)) as Hsign.
  { subst t. destruct s; [reflexivity|]. rewrite HD. cbn [app].
    apply Forall_cons in Hdig as [Hc _].
    by apply isdigit_spec in Hc as (_ & _ & _ & H & _). }
  assert (digitpart (digits_text P ++ "e"%char :: E)
          = (uint_digits (Pos.to_uint P), "e"%char :: E)) as Hpart
    by apply digitpart_uint_e.
  pose proof (uint_digits_nonnil P) as Hnn.
  split; [|split].
  - unfold float_of_str. rewrite Hstrip, Hsign. cbv beta iota zeta.
    assert (Str.eqb (map lower (digits_text P ++ "e"%char :: E)) (str "inf") = false
            /\ Str.eqb (map lower (digits_text P ++ "e"%char :: E)) (str "infinity") = false
            /\ Str.eqb (map lower (digits_text P ++ "e"%char :: E)) (str "nan") = false)
      as (-> & -> & ->).
    { rewrite HD. cbn [app map].
      apply Forall_cons in Hdig as [Hc _].
      apply isdigit_spec in Hc as (_ & _ & -> & _ & H). apply H. }
    cbn [orb]. rewrite Hpart.
    destruct (uint_digits (Pos.to_uint P)) as [|d0 ds] eqn:Eds; [done|].
    rewrite He, app_nil_r. cbn [length Z.of_nat].
    by rewrite <- Eds, digits_value_text, Z.sub_0_r.
  - unfold int_of_str. rewrite Hstrip, Hsign, Hpart.
    by destruct (uint_digits (Pos.to_uint P)).
  - apply plain_word_spec. split; [|done].
    subst t. rewrite HD. by destruct s.
Qed.

Lemma exponent_zero : exponent (str "e0") = Some (0, []).
Proof. reflexivity. Qed.

Lemma exponent_negative (k : positive) :
  exponent ("e"%char :: "-"%char :: digits_text k) = Some (Z.neg k, []).
Proof.
  unfold exponent. change (Ascii.eqb (lower "e") "e") with true. cbn iota.
  cbn [sign]. unfold digitpart, digits_text.
  rewrite digitpart_uint.
  pose proof (uint_digits_nonnil k) as Hnn.
  destruct (uint_digits (Pos.to_uint k)) as [|d0 ds] eqn:Eds; [done|].
  by rewrite <- Eds, digits_value_text.
Qed.

(** The text of a float is read back as that float, by [float] and
    not by [int], and it is a plain word. *)
Lemma float_text_read (x : float64) :
  valid x = true ->
  number (float_text x) = Ok (VFloat x)
  /\ int_of_str (float_text x) = None
  /\ float_of_str (float_text x) = Some x
  /\ plain_word (float_text x) = true.
Proof.
  intros Hv.
  assert (float_of_str (float_text x) = Some x
          /\ int_of_str (float_text x) = None
          /\ plain_word (float_text x) = true) as (Hf & Hi & Hp).
  { destruct x as [s|s| |s m e].
    - by destruct s.
    - by destruct s.
    - done.
    - unfold float_text. destruct e as [|k|k].
      + destruct (float_of_str_scientific s m (str "0") 0 exponent_zero)
          as (Hf & Hi & Hp); [by repeat constructor|].
        cbv zeta in Hf, Hi, Hp.
        change (str "e0") with ("e"%char :: str "0").
        rewrite Hf, Hi, Hp.
        split; [|done]. f_equal.
        apply float_of_decimal_integer; [done|lia|lia].
      + destruct (float_of_str_scientific s (m * 2 ^ k) (str "0") 0 exponent_zero)
          as (Hf & Hi & Hp); [by repeat constructor|].
        cbv zeta in Hf, Hi, Hp.
        change (str "e0") with ("e"%char :: str "0").
        rewrite Hf, Hi, Hp.
        split; [|done]. f_equal.
        apply float_of_decimal_integer; [done|lia|].
        by rewrite Pos2Z.inj_mul, Pos2Z.inj_pow.
      + destruct (float_of_str_scientific s (m * 5 ^ k) ("-"%char :: digits_text k)
                    (Z.neg k) (exponent_negative k)) as (Hf & Hi & Hp).
        { constructor; [done|].
          destruct (digits_text_spec k) as (c & D & -> & Hdig).
          eapply Forall_impl; [exact Hdig|].
          intros y Hy. by apply isdigit_spec in Hy as (H & _). }
        cbv zeta in Hf, Hi, Hp.
        change (str "e-" ++ digits_text k) with ("e"%char :: "-"%char :: digits_text k).
        rewrite Hf, Hi, Hp. split; [|done]. f_equal.
        by apply float_of_decimal_fraction. }
  split; [|done]. unfold number. by rewrite Hi, Hf.
Qed.

End FloatText.

Section RoundTrip.

Lemma dict_set_new (d : dict) (k : pystr) (v : value) :
  dict_get d k = None -> dict_set d k v = d ++ [(k, v)].
Proof.
  induction d as [|[k0 v0] d IH]; simpl; [done|].
  destruct (Str.eqb k0 k); [done|]. intros H. by rewrite IH.
Qed.

(** The loop stores the parameters in the order of the entry. *)
Lemma pairs_kvs (kvs : list (pystr * pystr)) (vs : list value) (p : dict) :
  Forall2 (fun kt v => denotes kt.2 v) kvs vs ->
  NoDup (map fst p ++ map fst kvs) ->
  pairs (flat_map (fun '(k, t) => [k; t]) kvs) p
  = Ok (p ++ zip_with (fun kt v => (kt.1, v)) kvs vs).
Proof.
  intros H. revert p. induction H as [|[k t] v kvs vs Hv _ IH]; intros p Hnd.
  - simpl. by rewrite app_nil_r.
  - cbn [flat_map app pairs fst snd] in *. unfold denotes in Hv. rewrite Hv.
    cbn [rbind].
    assert (dict_get p k = None) as Hnew.
    { apply dict_get_None. intros Hin. apply NoDup_app in Hnd as (_ & Hdis & _).
      apply (Hdis k); [by apply list_elem_of_In|]. simpl. by left. }
    rewrite (dict_set_new p k v Hnew), IH.
    + cbn [zip_with fst]. by rewrite <- app_assoc.
    + rewrite map_app. cbn [map fst]. rewrite <- app_assoc. exact Hnd.
Qed.

Lemma round_trip_record (signal : pystr) (kvs : list (pystr * pystr)) (vs : list value) :
  buildable kvs -> Forall2 (fun kt v => denotes kt.2 v) kvs vs ->
  pairs (flat_map (fun '(k, t) => [k; t]) kvs) [(str "signal", VStr signal)]
  = Ok ((str "signal", VStr signal) :: zip_with (fun kt v => (kt.1, v)) kvs vs).
Proof.
  intros [Hnd Hk] Hv. rewrite (pairs_kvs kvs vs _ Hv); [done|].
  cbn [map fst app]. apply NoDup_cons. split; [|done].
  intros Hin. apply list_elem_of_fmap in Hin as ([k t] & E & Hin).
  rewrite Forall_forall in Hk. destruct (Hk _ Hin) as (_ & _ & Hne). by cbn [fst] in *.
Qed.

(** A line that consists of one entry. *)
Lemma raw_entries_single (c : ascii) (body : pystr) :
  isspace c = false -> Forall (fun x => x <> ";"%char) (c :: body ++ [")"%char]) ->
  raw_entries (strip (c :: body ++ [")"%char])) = [c :: body ++ [")"%char]].
Proof.
  intros Hc Hsemi.
  assert (strip (c :: body ++ [")"%char]) = c :: body ++ [")"%char]) as Hstrip.
  { rewrite <- (app_nil_r (c :: body ++ [")"%char])) at 1. apply strip_padded.
    - done.
    - by intros ? ? [= <- _].
    - intros s' c' E. rewrite app_comm_cons in E. by apply app_inj_tail in E as [_ <-].
    - constructor. }
  unfold raw_entries. rewrite Hstrip, split_single by done.
  cbn [List.filter]. rewrite Hstrip. cbn [length Nat.eqb negb map].
  rewrite Hstrip. f_equal.
  unfold rstrip_char. rewrite app_comm_cons, rev_app_distr. cbn [rev app drop_while].
  change (Ascii.eqb "," ")") with false. cbn iota.
  cbn [rev]. rewrite !rev_app_distr. cbn [rev app]. by rewrite rev_involutive.
Qed.

(** An entry built from texts that denote the values yields the
    record of these values, alone on a line as well. *)
Lemma entry_round_trip_texts
    (signal : pystr) (kvs : list (pystr * pystr)) (vs : list value) (units : pystr) :
  plain_word signal = true -> buildable kvs ->
  Forall2 (fun kt v => denotes kt.2 v) kvs vs ->
  let record := (str "signal", VStr signal) :: zip_with (fun kt v => (kt.1, v)) kvs vs in
  entry_params (bare_entry signal kvs units) = Ok record
  /\ entry_params (wrapped_entry signal kvs units) = Ok record
  /\ (Forall (fun x => x <> ";"%char) units ->
      params (raw_entries (strip (bare_entry signal kvs units))) = Ok [record]
      /\ params (raw_entries (strip (wrapped_entry signal kvs units))) = Ok [record]).
Proof.
  intros Hs Hkvs Hvs record.
  destruct (split_inner signal kvs Hs Hkvs) as [Hsb Hsw].
  pose proof (round_trip_record signal kvs vs Hkvs Hvs) as Hrec.
  assert (entry_params (bare_entry signal kvs units) = Ok record) as Hbare.
  { rewrite entry_params_tokens, entry_base_bare, Hsb by done. exact Hrec. }
  assert (entry_params (wrapped_entry signal kvs units) = Ok record) as Hwrapped.
  { rewrite entry_params_tokens, entry_base_wrapped, Hsw by done. exact Hrec. }
  split; [exact Hbare|]. split; [exact Hwrapped|].
  intros Hunits.
  destruct (bare_inner_shape signal kvs Hs Hkvs) as (Hin & _ & c & rest & Hc & Hcp).
  destruct (wrapped_inner_shape signal kvs Hs Hkvs) as (Hinw & _).
  assert (forall s, Forall inner_char s -> Forall (fun x => x <> ";"%char) s) as Hsemi.
  { intros s H. eapply Forall_impl; [exact H|]. intros x Hx.
    by apply inner_char_spec in Hx as (_ & _ & _ & H'). }
  split.
  - assert (bare_entry signal kvs units
            = c :: (rest ++ str "  (" ++ units) ++ [")"%char]) as E.
    { unfold bare_entry. rewrite Hc. cbn [app]. by rewrite <- !app_assoc. }
    rewrite E, raw_entries_single.
    + rewrite <- E. unfold params. cbn [for_each]. by rewrite Hbare.
    + by apply plain_char_spec in Hcp as (H & _).
    + rewrite <- E. unfold bare_entry. rewrite !Forall_app.
      split; [by apply Hsemi|]. split; [by repeat constructor|].
      split; [done|by repeat constructor].
  - assert (wrapped_entry signal kvs units
            = "l"%char :: (str "eafValue( " ++ wrapped_inner signal kvs
                           ++ str " ) (" ++ units) ++ [")"%char]) as E.
    { unfold wrapped_entry. cbn [app]. by rewrite <- !app_assoc. }
    rewrite E, raw_entries_single.
    + rewrite <- E. unfold params. cbn [for_each]. by rewrite Hwrapped.
    + done.
    + rewrite <- E. unfold wrapped_entry. rewrite !Forall_app.
      split; [by repeat constructor|]. split; [by apply Hsemi|].
      split; [by repeat constructor|]. split; [done|by repeat constructor].
Qed.

(** The text of a value is a plain word that is read back as the
    value. *)
Lemma value_text_read (v : value) :
  writable v -> denotes (value_text v) v /\ plain_word (value_text v) = true.
Proof.
  destruct v as [t|z|x]; cbn [writable value_text]; intros Hw.
  - done.
  - by apply number_decimal.
  - by destruct (float_text_read x Hw) as (H1 & _ & _ & H2).
Qed.

Lemma written_buildable (prm : list (pystr * value)) :
  writable_params prm ->
  buildable (written prm)
  /\ Forall2 (fun kt v => denotes kt.2 v) (written prm) (map snd prm)
  /\ zip_with (fun kt v => (kt.1, v)) (written prm) (map snd prm) = prm.
Proof.
  intros [Hnd Hall]. unfold buildable, written.
  assert (map fst (map (fun kv : pystr * value => (kv.1, value_text kv.2)) prm)
          = map fst prm) as Hfst.
  { rewrite map_map. by apply map_ext. }
  rewrite Hfst. split; [split; [done|]|split].
  - apply Forall_forall. intros [k t] Hin.
    apply list_elem_of_fmap in Hin as ([k' v] & [= -> ->] & Hin).
    rewrite Forall_forall in Hall. destruct (Hall _ Hin) as (Hk & Hne & Hw).
    cbn [fst snd] in *. split; [done|]. split; [|done].
    by apply value_text_read.
  - clear Hnd Hfst. induction Hall as [|[k v] prm (_ & _ & Hw) _ IH]; cbn [map].
    + constructor.
    + constructor; [|exact IH]. cbn [snd] in *. by apply value_text_read.
  - clear. induction prm as [|[k v] prm IH]; cbn [map zip_with fst snd]; [done|].
    by rewrite IH.
Qed.

(** ** C7 *)

(** C7, counterexample: entries that do not give back what they were
    built from.  The record keeps the signal name under the key
    [signal] of the same dict as the parameters, so that the bare
    entry built from the signal [Vout] and the map [{signal: 5}]
    yields a record whose signal is the integer 5.  The bare entry
    built from the signal name [I(R1)] is cut at its first parenthesis
    and yields the signal [I] without any parameter.  A signal name
    with a space, [V out], gives two tokens, [K] is then read as a
    value and the entry raises [ValueError]; one with a double quote between [a] and [b] makes
    [shlex] raise; a backslash between them is dropped; an empty signal name makes the
    first parameter name the signal.  And the integer [10^4300], of
    4301 digits, is refused by [int] and comes back as the float
    [inf]. *)
Lemma C7_entries_that_do_not_come_back :
  (bare_entry (str "Vout") [(str "signal", str "5")] (str "V") = str "Vout signal 5  (V)"
   /\ entry_params (str "Vout signal 5  (V)") = Ok [(str "signal", VInt 5)])
  /\ (bare_entry (str "I(R1)") [(str "K", str "7")] (str "A") = str "I(R1) K 7  (A)"
      /\ entry_params (str "I(R1) K 7  (A)") = Ok [(str "signal", VStr (str "I"))])
  /\ (bare_entry (str "V out") [(str "K", str "7")] (str "V") = str "V out K 7  (V)"
      /\ entry_params (str "V out K 7  (V)")
         = Raise (ValueError "could not convert string to float: 'K'"))
  /\ entry_params (bare_entry (str "a" ++ [dquote] ++ str "b") [(str "K", str "7")] (str "V"))
     = Raise (ValueError "No closing quotation")
  /\ entry_params (bare_entry (str "a" ++ [backslash] ++ str "b") [(str "K", str "7")] (str "V"))
     = Ok [(str "signal", VStr (str "ab")); (str "K", VInt 7)]
  /\ entry_params (bare_entry [] [(str "K", str "7")] (str "V"))
     = Raise (IndexError "list index out of range")
  /\ (length (decimal (10 ^ 4300)) = 4301%nat
      /\ entry_params (bare_entry (str "Vout") (written [(str "K", VInt (10 ^ 4300))]) (str "V"))
         = Ok [(str "signal", VStr (str "Vout")); (str "K", VFloat (S754_infinity false))]).
Proof. vm_compute. repeat split. Qed.

(** C7, amended: for a signal name and parameter names made of plain
    characters (at least one; no whitespace, quote, backslash,
    parenthesis or semicolon), the parameter names distinct and other
    than [signal], and values that are integers of at most 4300 digits
    or floats, the entry built from them in the bare form and the one
    in the wrapped form (an integer written in decimal, a float as the
    decimal number it is) both yield the record with the same signal
    and, in order, the same parameter values with their types: each
    integer is read by [int] and comes back as that integer, each
    float is refused by [int], read by [float] and comes back as that
    float.  A line that consists of the entry yields that one record.
    The same holds for any other plain texts of the values that [int]
    or [float] reads as them; and the entry
    [leafValue( Vout2 "vpp" 0.1 K 7 clk_delay -1e-12 ) (V)] yields
    [{signal: Vout2, vpp: 0.1, K: 7, clk_delay: -1e-12}] with [vpp]
    and [clk_delay] floats and [K] an integer. *)
Theorem C7_entry_round_trip
    (signal : pystr) (prm : list (pystr * value)) (units : pystr) :
  plain_word signal = true -> writable_params prm ->
  let record := (str "signal", VStr signal) :: prm in
  entry_params (bare_entry signal (written prm) units) = Ok record
  /\ entry_params (wrapped_entry signal (written prm) units) = Ok record
  /\ Forall (fun kv =>
               match kv.2 with
               | VInt z => int_of_str (value_text kv.2) = Some z
               | VFloat x => int_of_str (value_text kv.2) = None
                             /\ float_of_str (value_text kv.2) = Some x
               | VStr _ => False
               end) prm
  /\ (Forall (fun x => x <> ";"%char) units ->
      params (raw_entries (strip (bare_entry signal (written prm) units))) = Ok [record]
      /\ params (raw_entries (strip (wrapped_entry signal (written prm) units)))
         = Ok [record])
  /\ (forall (kvs : list (pystr * pystr)),
        buildable kvs -> Forall2 (fun kt kv => denotes kt.2 kv.2 /\ kt.1 = kv.1) kvs prm ->
        entry_params (bare_entry signal kvs units) = Ok record
        /\ entry_params (wrapped_entry signal kvs units) = Ok record)
  /\ entry_params example_entry
     = Ok [(str "signal", VStr (str "Vout2"));
           (str "vpp", VFloat (fdiv (of_int 1) (of_int 10)));
           (str "K", VInt 7);
           (str "clk_delay", VFloat (fdiv (of_int (-1)) (of_int (10 ^ 12))))].
Proof.
  intros Hs Hprm record.
  destruct (written_buildable prm Hprm) as (Hb & Hd & Hzip).
  destruct (entry_round_trip_texts signal (written prm) (map snd prm) units Hs Hb Hd)
    as (Hbare & Hwrapped & Hline).
  cbv zeta in Hbare, Hwrapped, Hline. rewrite Hzip in Hbare, Hwrapped, Hline.
  split; [exact Hbare|]. split; [exact Hwrapped|].
  split; [|split; [exact Hline|split]].
  - destruct Hprm as [_ Hall]. eapply Forall_impl; [exact Hall|].
    intros [k v] (_ & _ & Hw). cbn [snd] in *.
    destruct v as [t|z|x]; cbn [writable value_text] in *; [done| |].
    + destruct (number_decimal z Hw) as [Hn _]. unfold number in Hn.
      destruct (int_of_str (decimal z)) as [z'|]; [by inversion Hn|].
      by destruct (float_of_str (decimal z)).
    + by destruct (float_text_read x Hw) as (_ & H1 & H2 & _).
  - intros kvs Hkvs Hden.
    assert (Forall2 (fun kt v => denotes kt.2 v) kvs (map snd prm)) as Hd'.
    { clear -Hden. induction Hden as [|kt kv kvs prm [H _] _ IH]; cbn [map];
        by constructor. }
    assert (zip_with (fun kt v => (kt.1, v)) kvs (map snd prm) = prm) as Hzip'.
    { clear -Hden. induction Hden as [|[k t] [k' v] kvs prm [_ H] _ IH];
        cbn [map zip_with fst snd] in *; [done|]. by rewrite IH, H. }
    destruct (entry_round_trip_texts signal kvs (map snd prm) units Hs Hkvs Hd')
      as (Hbare' & Hwrapped' & _).
    cbv zeta in Hbare', Hwrapped'. rewrite Hzip' in Hbare', Hwrapped'. by split.
  - vm_compute. reflexivity.
Qed.

Lemma C7_entry_round_trip_witness :
  plain_word (str "Vout2") = true
  /\ writable_params [(str "vpp", VFloat (fdiv (of_int 1) (of_int 10)));
                      (str "K", VInt 7);
                      (str "clk_delay", VFloat (fdiv (of_int (-1)) (of_int (10 ^ 12))))]
  /\ entry_params
       (str "Vout2 vpp 10000000000000000555111512312578270211815834045410156250e-56 K 7 clk_delay -99999999999999997988664762925561536725284350612952266601496376097202301025390625e-92  (V)")
     = Ok [(str "signal", VStr (str "Vout2"));
           (str "vpp", VFloat (S754_finite false 7205759403792794 (-56)));
           (str "K", VInt 7);
           (str "clk_delay", VFloat (S754_finite true 4951760157141521 (-92)))].
Proof.
  assert (writable_params [(str "vpp", VFloat (fdiv (of_int 1) (of_int 10)));
                           (str "K", VInt 7);
                           (str "clk_delay", VFloat (fdiv (of_int (-1)) (of_int (10 ^ 12))))])
    as Hw.
  { split.
    - cbn [map fst].
      apply NoDup_cons_2; [|apply NoDup_cons_2; [|apply NoDup_singleton]].
      + rewrite !elem_of_cons, elem_of_nil.
        intros [H|[H|H]]; [discriminate H|discriminate H|exact H].
      + intros H. apply list_elem_of_singleton in H. discriminate H.
    - repeat constructor; cbn [fst snd writable]; try discriminate; vm_compute; lia. }
  split; [reflexivity|]. split; [exact Hw|].
  exact (proj1 (C7_entry_round_trip (str "Vout2") _ (str "V") eq_refl Hw)).
Defined.

End RoundTrip.

(* ================================================================== *)
(** * Further properties of generate_coherent_frequencies *)
(* ================================================================== *)

Section SelectorFurther.

Local Open Scope Z_scope.

Lemma gcd_prime_power (a p n : Z) :
  Z.prime p -> 0 < n -> (Z.gcd a (p ^ n) = 1 <-> ~ (p | a)).
Proof.
  intros Hp Hn. split.
  - intros Hg Hd.
    assert ((p | p ^ n)) as Hpn.
    { exists (p ^ (n - 1)). replace n with (Z.succ (n - 1)) at 1 by lia.
      rewrite Z.pow_succ_r by lia. apply Z.mul_comm. }
    pose proof (Z.gcd_greatest a (p ^ n) p Hd Hpn) as Hdiv.
    rewrite Hg in Hdiv. apply Z.divide_1_r in Hdiv.
    apply Z.prime_ge_2 in Hp. lia.
  - intros Hnd. change (Z.coprime a (p ^ n)).
    apply Z.coprime_pow_r; [lia|]. symmetry.
    by apply Z.coprime_prime_l.
Qed.

Lemma prime_power_step (k p n : Z) :
  Z.prime p -> 0 < n -> Z.gcd k (p ^ n) <> 1 -> Z.gcd (k - 1) (p ^ n) = 1.
Proof.
  intros Hp Hn Hg. apply gcd_prime_power; [done..|].
  intros Hd.
  assert ((p | k)) as Hk.
  { destruct (Z.BoolSpec_divide p k) as [|Hnd]; [done|].
    exfalso. apply Hg. by apply gcd_prime_power. }
  assert ((p | 1)) as H1.
  { replace 1 with (k - (k - 1)) by lia. by apply Z.divide_sub_r. }
  apply Z.divide_1_r in H1. apply Z.prime_ge_2 in Hp. lia.
Qed.

(** X1: when the window length is a power of a prime (a power of two,
    as FFT lengths are, or a prime), the single decrement is enough:
    every returned cycle count is coprime with [N].  An element whose
    first estimate is the lowest int64 is left aside unless the prime
    is two. *)
Theorem X1_prime_power_window_is_coprime
    (h : store) (f_0 : pyobj) (fs : float64) (N p n : Z) :
  valid_arg h f_0 -> in_int64 N = true ->
  Z.prime p -> 0 < n -> N = p ^ n ->
  exists (f_i K : pyobj) (h' : store) (ks : list Z),
    generate_coherent_frequencies f_0 fs N h = Ok ((f_i, K), h')
    /\ elements h' K = Some (Int64Buf ks)
    /\ length ks = length (input_values h f_0)
    /\ forall (i : nat) (x : float64) (k : Z),
         input_values h f_0 !! i = Some x -> ks !! i = Some k ->
         initial_cycles fs N x <> INT64_MIN \/ p = 2 ->
         Z.gcd k N = 1.
Proof.
  intros Hv HN Hp Hn HNp.
  destruct (gcf_returns h f_0 fs N Hv HN) as (f_i & K & h1 & Hrun & HK & _).
  eexists f_i, K, (h ++ h1), _. split; [exact Hrun|]. split; [exact HK|].
  split; [by rewrite length_map|].
  intros i x k Hx Hk Hedge.
  rewrite list_lookup_fmap, Hx in Hk. injection Hk as <-.
  rewrite corrected_cycles_eq by done. cbn zeta.
  destruct (Z.eqb_spec (Z.gcd (initial_cycles fs N x) N) 1) as [E|E]; [done|].
  destruct (Z.eq_dec (initial_cycles fs N x) INT64_MIN) as [Emin|Hne].
  - destruct Hedge as [Hne | ->]; [done|]. rewrite Emin.
    change (wrap64 (INT64_MIN - 1)) with INT64_MAX.
    rewrite HNp. apply gcd_prime_power; [done..|].
    intros [c Hc]. unfold INT64_MAX in Hc. lia.
  - rewrite wrap64_pred by (apply float_to_int64_range || done).
    rewrite HNp in *. by apply prime_power_step.
Qed.

Lemma X1_prime_power_window_is_coprime_witness :
  exists (f_i : pyobj) (h' : store),
    generate_coherent_frequencies (PyFloat (of_int 3)) (of_int 2) 4 []
    = Ok ((f_i, PyInt 5), h')
    /\ initial_cycles (of_int 2) 4 (of_int 3) = 6
    /\ Z.gcd 5 4 = 1.
Proof.
  destruct (X1_prime_power_window_is_coprime [] (PyFloat (of_int 3)) (of_int 2) 4 2 2
              I eq_refl Z.prime_2 eq_refl eq_refl)
    as (f_i & K & h' & ks & Hrun & HK & _ & Hg).
  vm_compute in Hrun. injection Hrun as <- <- <-.
  eexists _, _. split; [vm_compute; reflexivity|]. split; [reflexivity|].
  apply (Hg 0%nat (of_int 3) 5); [reflexivity | by injection HK as <- | left; by vm_compute].
Defined.

(** X2: the call on an array agrees, element by element, with the
    call on each element as a scalar: at every index the array of
    cycle counts and the array of frequencies hold what the scalar call
    returns for the element at this index. *)
Theorem X2_array_call_agrees_with_scalar_calls
    (h : store) (a : ndarray) (fs : float64) (N : Z) :
  valid_arg h (PyArr a) -> in_int64 N = true ->
  exists (f_i K : pyobj) (h' : store) (ks : list Z) (fis : list float64),
    generate_coherent_frequencies (PyArr a) fs N h = Ok ((f_i, K), h')
    /\ elements h' K = Some (Int64Buf ks)
    /\ elements h' f_i = Some (Float64Buf fis)
    /\ length ks = length (input_values h (PyArr a))
    /\ length fis = length (input_values h (PyArr a))
    /\ forall (i : nat) (x : float64),
         input_values h (PyArr a) !! i = Some x ->
         exists (f : float64) (k : Z) (h'' : store),
           generate_coherent_frequencies (PyFloat x) fs N h = Ok ((PyFloat f, PyInt k), h'')
           /\ ks !! i = Some k /\ fis !! i = Some f.
Proof.
  intros Hv HN.
  destruct (gcf_returns h (PyArr a) fs N Hv HN) as (f_i & K & h1 & Hrun & HK & Hf & _).
  eexists f_i, K, (h ++ h1), _, _. split; [exact Hrun|]. split; [exact HK|].
  split; [exact Hf|]. rewrite !length_map. split; [done|]. split; [done|].
  intros i x Hx.
  destruct (gcf_returns h (PyFloat x) fs N I HN)
    as (f_i' & K' & h2 & Hrun' & HK' & Hf' & (f & k & -> & ->)).
  simpl in HK', Hf'. injection HK' as ->. injection Hf' as ->.
  eexists _, _, _. split; [exact Hrun'|].
  by rewrite !list_lookup_fmap, Hx.
Qed.

Lemma X2_array_call_agrees_with_scalar_calls_witness :
  exists (f : float64) (h'' : store),
    generate_coherent_frequencies (PyFloat (of_int 3)) (of_int 2) 6
      [Float64Buf [of_int 1; of_int 3]]
    = Ok ((PyFloat f, PyInt 8), h'').
Proof.
  assert (valid_arg [Float64Buf [of_int 1; of_int 3]]
            (PyArr {| base := 0; shape := [2%nat] |})) as Hv
    by (eexists; split; reflexivity).
  destruct (X2_array_call_agrees_with_scalar_calls _ _ (of_int 2) 6 Hv eq_refl)
    as (f_i & K & h' & ks & fis & Hrun & HK & _ & _ & _ & Hel).
  destruct (Hel 1%nat (of_int 3) eq_refl) as (f & k & h'' & Hs & Hk & _).
  vm_compute in Hrun. injection Hrun as <- <- <-.
  vm_compute in HK. injection HK as <-.
  injection Hk as <-. by exists f, h''.
Defined.

(** X3: a Python int and the float of the same value give the same
    pair of results. *)
Theorem X3_int_scalar_is_read_as_float
    (h : store) (z : Z) (fs : float64) (N : Z) :
  in_int64 z = true -> in_int64 N = true ->
  exists (f : float64) (k : Z) (h1 h2 : store),
    generate_coherent_frequencies (PyInt z) fs N h = Ok ((PyFloat f, PyInt k), h1)
    /\ generate_coherent_frequencies (PyFloat (of_int z)) fs N h
       = Ok ((PyFloat f, PyInt k), h2).
Proof.
  intros Hz HN.
  destruct (gcf_returns h (PyInt z) fs N Hz HN)
    as (f_i & K & h1 & Hrun & HK & Hf & (f & k & -> & ->)).
  destruct (gcf_returns h (PyFloat (of_int z)) fs N I HN)
    as (f_i' & K' & h2 & Hrun' & HK' & Hf' & (f' & k' & -> & ->)).
  simpl in HK, Hf, HK', Hf'.
  injection HK as ->. injection Hf as ->. injection HK' as ->. injection Hf' as ->.
  by eexists _, _, _, _.
Qed.

Lemma X3_int_scalar_is_read_as_float_witness :
  exists (f : float64) (k : Z) (h1 h2 : store),
    generate_coherent_frequencies (PyInt 1000000) (of_int 10000000) 1000 []
    = Ok ((PyFloat f, PyInt k), h1)
    /\ generate_coherent_frequencies (PyFloat (of_int 1000000)) (of_int 10000000) 1000 []
       = Ok ((PyFloat f, PyInt k), h2).
Proof.
  exact (X3_int_scalar_is_read_as_float [] 1000000 (of_int 10000000) 1000 eq_refl eq_refl).
Defined.

(** X4: for an array with at least one dimension the two results are
    new arrays: the buffer of each was allocated during the call, so
    that neither is a view of the input or of any array the caller
    holds, and the two do not share their buffer. *)
Theorem X4_outputs_are_new_arrays
    (h : store) (a : ndarray) (fs : float64) (N : Z) :
  valid_arg h (PyArr a) -> in_int64 N = true -> ndim a <> 0%nat ->
  exists (fa ka : ndarray) (h' : store),
    generate_coherent_frequencies (PyArr a) fs N h = Ok ((PyArr fa, PyArr ka), h')
    /\ (length h <= base fa < length h')%nat
    /\ (length h <= base ka < length h')%nat
    /\ base fa <> base ka
    /\ base fa <> base a /\ base ka <> base a.
Proof.
  intros (b & Hb & Hlen) HN Hnd.
  rewrite (gcf_array_run h a fs N b Hb Hlen HN).
  apply Nat.eqb_neq in Hnd. rewrite Hnd.
  eexists _, _, _. split; [reflexivity|].
  apply lookup_lt_Some in Hb.
  cbn [base]. rewrite length_app. cbn [temporaries length]. lia.
Qed.

Lemma X4_outputs_are_new_arrays_witness :
  exists (fa ka : ndarray) (h' : store),
    generate_coherent_frequencies (PyArr {| base := 0; shape := [2%nat] |}) (of_int 2) 6
      [Float64Buf [of_int 1; of_int 3]]
    = Ok ((PyArr fa, PyArr ka), h')
    /\ base fa <> base ka.
Proof.
  assert (valid_arg [Float64Buf [of_int 1; of_int 3]]
            (PyArr {| base := 0; shape := [2%nat] |})) as Hv
    by (eexists; split; reflexivity).
  assert (ndim {| base := 0; shape := [2%nat] |} <> 0%nat) as Hnd by (vm_compute; lia).
  destruct (X4_outputs_are_new_arrays _ _ (of_int 2) 6 Hv eq_refl Hnd)
    as (fa & ka & h' & Hrun & _ & _ & Hne & _).
  by exists fa, ka, h'.
Defined.

(** X16: where the first estimate is a multiple of the window length
    (the input frequency is a multiple of [fs], or lies below [fs / N]
    and gives the estimate 0), the returned cycle count is one below it
    and coprime with [N], for every [N >= 2]. *)
Theorem X16_multiple_of_the_window_steps_down
    (h : store) (f_0 : pyobj) (fs : float64) (N : Z) :
  valid_arg h f_0 -> in_int64 N = true -> 2 <= N ->
  exists (f_i K : pyobj) (h' : store) (ks : list Z),
    generate_coherent_frequencies f_0 fs N h = Ok ((f_i, K), h')
    /\ elements h' K = Some (Int64Buf ks)
    /\ length ks = length (input_values h f_0)
    /\ forall (i : nat) (x : float64) (k m : Z),
         input_values h f_0 !! i = Some x -> ks !! i = Some k ->
         initial_cycles fs N x = m * N -> initial_cycles fs N x <> INT64_MIN ->
         k = m * N - 1 /\ Z.gcd k N = 1.
Proof.
  intros Hv HN H2.
  destruct (gcf_returns h f_0 fs N Hv HN) as (f_i & K & h1 & Hrun & HK & _).
  eexists f_i, K, (h ++ h1), _. split; [exact Hrun|]. split; [exact HK|].
  split; [by rewrite length_map|].
  intros i x k m Hx Hk Hm Hmin.
  rewrite list_lookup_fmap, Hx in Hk. injection Hk as <-.
  rewrite corrected_cycles_eq by done. cbn zeta.
  rewrite wrap64_pred by (apply float_to_int64_range || done).
  rewrite Hm in *.
  assert (Z.gcd (m * N) N = N) as Hg.
  { rewrite Z.gcd_comm, (Z.mul_comm m N). apply Z.gcd_mul_diag_l. lia. }
  rewrite Hg. destruct (Z.eqb_spec N 1) as [|_]; [lia|].
  split; [done|].
  replace (m * N - 1) with (- 1 + m * N) by lia.
  rewrite Z.gcd_comm, Z.gcd_add_mult_diag_r.
  change (-1) with (- (1)). rewrite Z.gcd_opp_r. apply Z.gcd_1_r.
Qed.

Lemma X16_multiple_of_the_window_steps_down_witness :
  exists (f_i : pyobj) (h' : store),
    generate_coherent_frequencies (PyFloat (of_int 2)) (of_int 2) 6 []
    = Ok ((f_i, PyInt 5), h')
    /\ initial_cycles (of_int 2) 6 (of_int 2) = 1 * 6.
Proof.
  destruct (X16_multiple_of_the_window_steps_down [] (PyFloat (of_int 2)) (of_int 2) 6
              I eq_refl ltac:(lia))
    as (f_i & K & h' & ks & Hrun & _).
  vm_compute in Hrun. injection Hrun as <- <- <-.
  eexists _, _. split; [vm_compute; reflexivity | reflexivity].
Defined.

Lemma of_int_finite (N : Z) :
  N <> 0 -> Z.abs N < 2 ^ 53 -> exists s m e, of_int N = S754_finite s m e.
Proof.
  intros Hne Hlt. unfold of_int, binary_normalize.
  destruct N as [|p|p]; [done| |].
  - destruct (binary_round_small false p ltac:(lia)) as (k & _ & ->). by eexists _, _, _.
  - destruct (binary_round_small true p ltac:(lia)) as (k & _ & ->). by eexists _, _, _.
Qed.

(** X17: the frequency zero is not kept.  For [f0 = 0.0] (of either
    sign), a finite sample rate other than zero and a window length
    [2 <= N < 2^53], the first estimate is 0, which is not coprime
    with [N]: the call returns [K = -1] and the frequency
    [-1 / N * fs]. *)
Theorem X17_zero_frequency_gives_minus_one
    (h : store) (s sf : bool) (mf : positive) (ef : Z) (N : Z) :
  2 <= N < 2 ^ 53 ->
  exists h' : store,
    generate_coherent_frequencies (PyFloat (S754_zero s)) (S754_finite sf mf ef) N h
    = Ok ((PyFloat (coherent_frequency (S754_finite sf mf ef) N (-1)), PyInt (-1)), h')
    /\ initial_cycles (S754_finite sf mf ef) N (S754_zero s) = 0.
Proof.
  intros HN.
  assert (in_int64 N = true) as HN64 by (apply in_int64_spec; lia).
  assert (initial_cycles (S754_finite sf mf ef) N (S754_zero s) = 0) as H0.
  { unfold initial_cycles, fdiv, fmul. cbn [SFdiv].
    destruct (of_int_finite N ltac:(lia) ltac:(lia)) as (s' & m' & e' & ->).
    reflexivity. }
  assert (corrected_cycles (S754_finite sf mf ef) N (S754_zero s) = -1) as Hk.
  { rewrite corrected_cycles_eq by done. cbn zeta. rewrite H0.
    rewrite Z.gcd_0_l, Z.abs_eq by lia.
    destruct (Z.eqb_spec N 1) as [|_]; [lia|]. reflexivity. }
  destruct (gcf_returns h (PyFloat (S754_zero s)) (S754_finite sf mf ef) N I HN64)
    as (f_i & K & h1 & Hrun & HK & Hf & (f & k & -> & ->)).
  simpl in HK, Hf. injection HK as ->. injection Hf as ->.
  rewrite Hk in Hrun. by exists (h ++ h1).
Qed.

Lemma X17_zero_frequency_gives_minus_one_witness :
  exists h' : store,
    generate_coherent_frequencies (PyFloat (of_int 0)) (of_int 10000000) 1000 []
    = Ok ((PyFloat (coherent_frequency (of_int 10000000) 1000 (-1)), PyInt (-1)), h').
Proof.
  destruct (X17_zero_frequency_gives_minus_one [] false false 5368709120000000 (-29) 1000
              ltac:(lia))
    as (h' & Hrun & _).
  by exists h'.
Defined.

End SelectorFurther.

(* ================================================================== *)
(** * Further properties of load_cadence_vcsv: the metadata line *)
(* ================================================================== *)

Section HeaderLine.

Lemma split_nonempty (sep : ascii) (s : pystr) : Str.split sep s <> [].
Proof.
  destruct s as [|c s]; cbn [Str.split]; [done|].
  destruct (Ascii.eqb c sep); [done|]. by destruct (Str.split sep s).
Qed.

Lemma split_app_sep (sep : ascii) (a b : pystr) :
  Str.split sep (a ++ sep :: b) = Str.split sep a ++ Str.split sep b.
Proof.
  induction a as [|c a IH]; cbn [app Str.split].
  - by rewrite Ascii.eqb_refl.
  - destruct (Ascii.eqb c sep); [by rewrite IH|].
    rewrite IH. pose proof (split_nonempty sep a).
    by destruct (Str.split sep a).
Qed.

Lemma split_prefix (sep : ascii) (a s : pystr) :
  Forall (fun c => c <> sep) a ->
  exists first rest,
    Str.split sep s = first :: rest /\ Str.split sep (a ++ s) = (a ++ first) :: rest.
Proof.
  induction 1 as [|c a Hc _ (first & rest & Hs & IH)]; cbn [app Str.split].
  - destruct s as [|c s]; cbn [Str.split]; [by eexists _, _|].
    destruct (Ascii.eqb c sep); [by eexists _, _|].
    destruct (Str.split sep s); by eexists _, _.
  - exists first, rest. split; [done|].
    assert (Ascii.eqb c sep = false) as -> by (by apply Ascii.eqb_neq).
    by rewrite IH.
Qed.

Lemma split_suffix (sep : ascii) (s a : pystr) :
  Forall (fun c => c <> sep) a ->
  exists init last,
    Str.split sep s = init ++ [last] /\ Str.split sep (s ++ a) = init ++ [last ++ a].
Proof.
  intros Ha. induction s as [|c s (init & last & Hs & IH)]; cbn [app Str.split].
  - exists [], []. split; [done|]. by apply split_single.
  - destruct (Ascii.eqb c sep).
    + exists ([] :: init), last. by rewrite Hs, IH.
    + rewrite Hs, IH. destruct init as [|w ws]; cbn [app].
      * by exists [], (c :: last).
      * by exists ((c :: w) :: ws), last.
Qed.

Lemma drop_while_prefix (p : ascii -> bool) (s : pystr) :
  exists ws, s = ws ++ drop_while p s /\ Forall (fun c => p c = true) ws.
Proof.
  induction s as [|c s (ws & Hs & Hws)]; cbn [drop_while].
  - by exists [].
  - destruct (p c) eqn:Hc.
    + exists (c :: ws). split; [cbn [app]; congruence|by constructor].
    + by exists [].
Qed.

Lemma drop_while_app (p : ascii -> bool) (a b : pystr) :
  drop_while p (a ++ b)
  = match drop_while p a with
    | [] => drop_while p b
    | x => x ++ b
    end.
Proof.
  induction a as [|c a IH]; cbn [app drop_while].
  - by destruct (drop_while p b).
  - by destruct (p c).
Qed.

Lemma drop_while_all (p : ascii -> bool) (ws : pystr) :
  Forall (fun c => p c = true) ws -> drop_while p ws = [].
Proof. induction 1 as [|c ws Hc _ IH]; cbn [drop_while]; [done|]. by rewrite Hc. Qed.

Lemma rstrip_app_spaces (s ws : pystr) :
  Forall (fun c => isspace c = true) ws -> rstrip (s ++ ws) = rstrip s.
Proof.
  intros Hws. unfold rstrip. rewrite rev_app_distr.
  by rewrite drop_while_app_all by (by apply Forall_rev).
Qed.

Lemma strip_app_spaces_l (ws s : pystr) :
  Forall (fun c => isspace c = true) ws -> strip (ws ++ s) = strip s.
Proof. intros Hws. unfold strip, lstrip. by rewrite drop_while_app_all. Qed.

Lemma strip_app_spaces_r (s ws : pystr) :
  Forall (fun c => isspace c = true) ws -> strip (s ++ ws) = strip s.
Proof.
  intros Hws. unfold strip, lstrip. rewrite drop_while_app.
  destruct (drop_while isspace s) as [|c t] eqn:E.
  - by rewrite (drop_while_all _ _ Hws).
  - by apply rstrip_app_spaces.
Qed.

Lemma spaces_no_semicolon (ws : pystr) :
  Forall (fun c => isspace c = true) ws -> Forall (fun c => c <> ";"%char) ws.
Proof. intros H. eapply Forall_impl; [exact H|]. by intros c Hc ->. Qed.

Lemma raw_entries_spaces_l (ws s : pystr) :
  Forall (fun c => isspace c = true) ws -> raw_entries (ws ++ s) = raw_entries s.
Proof.
  intros Hws. unfold raw_entries.
  destruct (split_prefix ";" ws s (spaces_no_semicolon _ Hws)) as (first & rest & -> & ->).
  cbn [List.filter]. rewrite (strip_app_spaces_l _ _ Hws).
  destruct (negb (length (strip first) =? 0)%nat); cbn [map];
    by rewrite ?(strip_app_spaces_l _ _ Hws).
Qed.

Lemma raw_entries_spaces_r (s ws : pystr) :
  Forall (fun c => isspace c = true) ws -> raw_entries (s ++ ws) = raw_entries s.
Proof.
  intros Hws. unfold raw_entries.
  destruct (split_suffix ";" s ws (spaces_no_semicolon _ Hws)) as (init & last & -> & ->).
  rewrite !List.filter_app, !map_app. cbn [List.filter].
  rewrite (strip_app_spaces_r _ _ Hws).
  destruct (negb (length (strip last) =? 0)%nat); cbn [map];
    by rewrite ?(strip_app_spaces_r _ _ Hws).
Qed.

(** The [.strip()] of line 68 changes nothing for the entries. *)
Lemma raw_entries_strip (s : pystr) : raw_entries (strip s) = raw_entries s.
Proof.
  unfold strip, lstrip.
  destruct (drop_while_prefix isspace s) as (ws1 & Hs & Hws1).
  destruct (drop_while_prefix isspace (rev (drop_while isspace s))) as (ws2 & Hr & Hws2).
  assert (drop_while isspace s = rstrip (drop_while isspace s) ++ rev ws2) as Ht.
  { unfold rstrip. rewrite <- rev_app_distr, <- Hr. by rewrite rev_involutive. }
  rewrite <- (raw_entries_spaces_r _ (rev ws2)) by (by apply Forall_rev).
  rewrite <- Ht. rewrite Hs at 2. by rewrite raw_entries_spaces_l.
Qed.

Lemma raw_entries_app (a b : pystr) :
  raw_entries (a ++ ";"%char :: b) = raw_entries a ++ raw_entries b.
Proof. unfold raw_entries. by rewrite split_app_sep, List.filter_app, map_app. Qed.

Lemma for_each_app {A B} (f : A -> result B) (l1 l2 : list A) :
  for_each f (l1 ++ l2)
  = (r1 <~ for_each f l1 ;; r2 <~ for_each f l2 ;; Ok (r1 ++ r2)).
Proof.
  induction l1 as [|x l1 IH]; cbn [app for_each].
  - by destruct (for_each f l2).
  - destruct (f x) as [y|e]; cbn [rbind]; [|done].
    rewrite IH. destruct (for_each f l1) as [r1|e]; cbn [rbind]; [|done].
    by destruct (for_each f l2).
Qed.

Lemma blank_spec (s : pystr) :
  blank s = true <-> Forall (fun c => isspace c = true) s.
Proof. unfold blank. rewrite forallb_forall, List.Forall_forall. done. Qed.

Lemma strip_blank (s : pystr) : blank s = true -> strip s = [].
Proof.
  intros H. apply blank_spec in H. unfold strip, lstrip.
  by rewrite (drop_while_all _ _ H).
Qed.

(** X5: the metadata line is read entry by entry.  The entries of
    [a;b] are those of [a] followed by those of [b], whatever
    surrounds the line; so are the records, and an error in [a] comes
    before any in [b].  A segment of whitespace only gives no entry. *)
Theorem X5_header_line_is_read_entry_by_entry (a b : pystr) :
  raw_entries (strip (a ++ ";"%char :: b)) = raw_entries a ++ raw_entries b
  /\ params (raw_entries (strip (a ++ ";"%char :: b)))
     = (r1 <~ params (raw_entries a) ;;
        r2 <~ params (raw_entries b) ;;
        Ok (r1 ++ r2))
  /\ raw_entries (strip a) = raw_entries a
  /\ (blank a = true -> raw_entries a = []).
Proof.
  split; [|split; [|split]].
  - by rewrite raw_entries_strip, raw_entries_app.
  - rewrite raw_entries_strip, raw_entries_app. apply for_each_app.
  - apply raw_entries_strip.
  - intros Hb. unfold raw_entries.
    rewrite split_single by (apply spaces_no_semicolon; by apply blank_spec).
    cbn [List.filter]. by rewrite strip_blank.
Qed.

Lemma rstrip_char_commas (e commas : pystr) (c : ascii) :
  Forall (fun x => x = ","%char) commas -> c <> ","%char ->
  rstrip_char "," ((e ++ [c]) ++ commas) = e ++ [c].
Proof.
  intros Hcs Hc. unfold rstrip_char. rewrite !rev_app_distr.
  rewrite drop_while_app_all.
  - cbn [rev app drop_while].
    assert (Ascii.eqb "," c = false) as -> by (apply Ascii.eqb_neq; congruence).
    cbn [rev]. by rewrite rev_involutive.
  - apply Forall_rev. eapply Forall_impl; [exact Hcs|]. by intros x ->.
Qed.

Lemma raw_entries_segment (ws1 ws2 s : pystr) :
  Forall (fun c => isspace c = true) ws1 ->
  Forall (fun c => isspace c = true) ws2 ->
  Forall (fun c => c <> ";"%char) s -> s <> [] ->
  (forall c s', s = c :: s' -> isspace c = false) ->
  (forall s' c, s = s' ++ [c] -> isspace c = false) ->
  raw_entries (ws1 ++ s ++ ws2) = [rstrip_char "," s].
Proof.
  intros Hw1 Hw2 Hsemi Hne Hfirst Hlast.
  rewrite raw_entries_spaces_l, raw_entries_spaces_r by done.
  unfold raw_entries. rewrite split_single by done.
  assert (strip s = s) as Hstrip.
  { rewrite <- (app_nil_r s) at 1. apply strip_padded; [done..|constructor]. }
  cbn [List.filter]. rewrite Hstrip.
  destruct s as [|c s]; [done|]. cbn [length Nat.eqb negb map].
  by rewrite Hstrip.
Qed.

(** X6: an entry is kept without the whitespace around it and the
    commas that end it: a segment made of an entry [e] (without
    semicolon, starting with a character that is not whitespace and
    ending with one that is neither whitespace nor a comma), padded
    with whitespace and followed by commas, gives the one entry [e].
    A segment of commas only is kept as the empty entry, on which
    line 88 raises [IndexError]. *)
Theorem X6_entry_is_trimmed
    (ws1 ws2 commas body : pystr) (c0 c1 : ascii) :
  Forall (fun c => isspace c = true) ws1 ->
  Forall (fun c => isspace c = true) ws2 ->
  Forall (fun c => c = ","%char) commas ->
  isspace c0 = false -> isspace c1 = false -> c1 <> ","%char ->
  Forall (fun c => c <> ";"%char) (c0 :: body ++ [c1]) ->
  raw_entries (ws1 ++ ((c0 :: body ++ [c1]) ++ commas) ++ ws2) = [c0 :: body ++ [c1]]
  /\ raw_entries (ws1 ++ (","%char :: commas) ++ ws2) = [[]]
  /\ entry_params [] = Raise (IndexError "list index out of range").
Proof.
  intros Hw1 Hw2 Hcs Hc0 Hc1 Hcomma Hsemi.
  assert (Forall (fun c => c <> ";"%char) commas) as Hcs'
    by (eapply Forall_impl; [exact Hcs|]; by intros x ->).
  assert (Forall (fun c => isspace c = false) commas) as Hcs''
    by (eapply Forall_impl; [exact Hcs|]; by intros x ->).
  split; [|split; [|reflexivity]].
  - rewrite raw_entries_segment; try done.
    + by rewrite app_comm_cons, rstrip_char_commas.
    + by apply Forall_app.
    + intros c s' E. by injection E as <- _.
    + intros s' x E. destruct commas as [|k ks].
      * rewrite app_nil_r, app_comm_cons in E. by apply app_inj_tail in E as [_ <-].
      * destruct (nonempty_last (k :: ks) ltac:(done)) as (cs & y & Ey).
        rewrite Ey, app_assoc in E. apply app_inj_tail in E as [_ <-].
        rewrite Ey in Hcs''. apply Forall_app in Hcs'' as [_ Hy]. by inversion Hy.
  - rewrite raw_entries_segment; try done.
    + f_equal. unfold rstrip_char.
      rewrite (drop_while_all (Ascii.eqb ",") (rev (","%char :: commas))); [done|].
      apply Forall_rev. constructor; [done|].
      eapply Forall_impl; [exact Hcs|]. by intros x ->.
    + by constructor.
    + intros c s' E. by injection E as <- _.
    + intros s' x E.
      assert (Forall (fun c => isspace c = false) (s' ++ [x])) as H
        by (rewrite <- E; by constructor).
      apply Forall_app in H as [_ H]. by inversion H.
Qed.

Lemma X6_entry_is_trimmed_witness :
  raw_entries (str "  Vout K 7 (V),, ") = [str "Vout K 7 (V)"].
Proof.
  apply (X6_entry_is_trimmed (str "  ") (str " ") (str ",,") (str "out K 7 (V") "V" ")").
  - by repeat constructor.
  - by repeat constructor.
  - by repeat constructor.
  - reflexivity.
  - reflexivity.
  - discriminate.
  - by repeat constructor.
Defined.

End HeaderLine.

(* ================================================================== *)
(** * Further properties of load_cadence_vcsv: one entry *)
(* ================================================================== *)

Section OneEntry.

Lemma eqb_sym_str (a b : pystr) : Str.eqb a b = Str.eqb b a.
Proof.
  destruct (Str.eqb a b) eqn:E1, (Str.eqb b a) eqn:E2; try done.
  - apply eqb_eq in E1. apply eqb_neq in E2. congruence.
  - apply eqb_neq in E1. apply eqb_eq in E2. congruence.
Qed.

Lemma pairs_ok_iff (rest : list pystr) :
  forall p : dict,
    (exists p', pairs rest p = Ok p')
    <-> Nat.even (length rest) = true /\ forallb parsable (values_of rest) = true.
Proof.
  induction rest as [| x | key val rest IH] using list_pair_ind; intros p.
  - cbn. split; [done|]. by exists p.
  - cbn. split; [by intros [p' H]|by intros [H _]].
  - cbn [pairs values_of forallb length Nat.even].
    unfold parsable at 1. destruct (number val) as [v|e]; cbn [rbind].
    + rewrite IH. done.
    + split; [by intros [p' H]|by intros [_ H]].
Qed.

(** X7: an entry is accepted exactly when its text splits into an
    odd number of tokens (the signal name, then names and values in
    pairs) and [int] or [float] accepts every value. *)
Theorem X7_entry_is_accepted_iff (ent : pystr) :
  (exists p : dict, entry_params ent = Ok p)
  <-> exists parts : list pystr,
        Shlex.split (entry_base ent) = Ok parts
        /\ Nat.odd (length parts) = true
        /\ forallb parsable (values_of (tail parts)) = true.
Proof.
  rewrite entry_params_tokens.
  destruct (Shlex.split (entry_base ent)) as [parts|e]; cbn [rbind].
  - destruct parts as [|signal rest].
    + split; [by intros [p H]|]. by intros (parts & [= <-] & H & _).
    + rewrite pairs_ok_iff. split.
      * intros [He Hv]. exists (signal :: rest). split; [done|].
        cbn [tail length]. by rewrite Nat.odd_succ.
      * intros (parts & [= <-] & Ho & Hv). cbn [tail length] in *.
        by rewrite Nat.odd_succ in Ho.
  - split; [by intros [p H]|by intros (parts & H & _)].
Qed.

Lemma pairs_last_value (rest : list pystr) :
  forall (p p' : dict) (k : pystr),
    pairs rest p = Ok p' ->
    dict_get p' k
    = match last_value rest k with
      | Some t => match number t with Ok v => Some v | Raise _ => None end
      | None => dict_get p k
      end.
Proof.
  induction rest as [| x | key val rest IH] using list_pair_ind; intros p p' k.
  - cbn. by intros [= <-].
  - done.
  - cbn [pairs last_value]. destruct (number val) as [v|e] eqn:Hval; cbn [rbind]; [|done].
    intros Hp. rewrite (IH _ _ k Hp).
    destruct (last_value rest k); [done|].
    rewrite dict_get_set. destruct (Str.eqb key k); [by rewrite Hval|done].
Qed.

(** X8: a record holds every name once; a name given several times
    in an entry holds the value given last (the name [signal]
    included, which then replaces the signal name). *)
Theorem X8_repeated_name_keeps_last_value
    (ent signal : pystr) (rest : list pystr) (p : dict) :
  Shlex.split (entry_base ent) = Ok (signal :: rest) ->
  entry_params ent = Ok p ->
  NoDup (map fst p)
  /\ forall k : pystr,
       dict_get p k
       = match last_value rest k with
         | Some t => match number t with Ok v => Some v | Raise _ => None end
         | None => if Str.eqb k (str "signal") then Some (VStr signal) else None
         end.
Proof.
  intros Hsplit Hp. split; [by apply entry_params_wf in Hp as [H _]|].
  intros k. rewrite entry_params_tokens, Hsplit in Hp. cbn [rbind] in Hp.
  rewrite (pairs_last_value _ _ _ k Hp). cbn [dict_get].
  by rewrite (eqb_sym_str (str "signal") k).
Qed.

Lemma X8_repeated_name_keeps_last_value_witness :
  entry_params (str "Vout K 7 gain 0.5 K 8 (V)")
  = Ok [(str "signal", VStr (str "Vout")); (str "K", VInt 8);
        (str "gain", VFloat (S754_finite false 4503599627370496 (-53)))]
  /\ dict_get [(str "signal", VStr (str "Vout")); (str "K", VInt 8);
               (str "gain", VFloat (S754_finite false 4503599627370496 (-53)))] (str "K")
     = Some (VInt 8).
Proof.
  split; [by vm_compute|].
  destruct (X8_repeated_name_keeps_last_value (str "Vout K 7 gain 0.5 K 8 (V)") (str "Vout")
              [str "K"; str "7"; str "gain"; str "0.5"; str "K"; str "8"]
              [(str "signal", VStr (str "Vout")); (str "K", VInt 8);
               (str "gain", VFloat (S754_finite false 4503599627370496 (-53)))])
    as [_ H]; [by vm_compute..|].
  rewrite (H (str "K")). by vm_compute.
Defined.


(** ** The two forms and what follows them *)

Lemma closes_app (s t : pystr) :
  Re.closes (s ++ ")"%char :: t) = Re.closes (s ++ [")"%char]).
Proof.
  unfold Re.closes. rewrite !drop_while_app.
  destruct (drop_while isspace s) as [|c r]; [|done].
  cbn [drop_while]. by change (isspace ")") with false.
Qed.

Lemma lazy_group_app (s t : pystr) :
  Re.lazy_group (s ++ ")"%char :: t) = Re.lazy_group (s ++ [")"%char]).
Proof.
  induction s as [|c s IH].
  - cbn [app]. rewrite !lazy_group_unfold. by change (Re.closes (")"%char :: ?x)) with true.
  - rewrite (lazy_group_unfold ((c :: s) ++ ")"%char :: t)).
    rewrite (lazy_group_unfold ((c :: s) ++ [")"%char])).
    rewrite closes_app. cbn [app]. by rewrite IH.
Qed.

Lemma after_prefix_app (s t : pystr) :
  Re.after_prefix (s ++ ")"%char :: t) = Re.after_prefix (s ++ [")"%char]).
Proof.
  induction s as [|c s IH].
  - cbn [app Re.after_prefix]. change (isspace ")") with false. cbn iota.
    apply (lazy_group_app []).
  - pose proof (lazy_group_app (c :: s) t) as Hl. cbn [app] in Hl.
    cbn [app Re.after_prefix]. by rewrite IH, Hl.
Qed.

Lemma closes_without_paren (s : pystr) :
  forallb (fun c => negb (Ascii.eqb c ")")) s = true -> Re.closes s = false.
Proof.
  unfold Re.closes. induction s as [|c s IH]; cbn [forallb drop_while]; [done|].
  intros [Hc Hs]%andb_true_iff. destruct (isspace c); [by apply IH|].
  destruct (Ascii.eqb_spec c ")") as [->|Hne]; [done|].
  destruct c as [[] [] [] [] [] [] [] []]; try done.
Qed.

Lemma lazy_group_without_paren (s : pystr) :
  forallb (fun c => negb (Ascii.eqb c ")")) s = true -> Re.lazy_group s = None.
Proof.
  induction s as [|c s IH]; intros Hs; rewrite lazy_group_unfold.
  - done.
  - rewrite closes_without_paren by done.
    cbn [forallb] in Hs. apply andb_true_iff in Hs as [_ Hs].
    rewrite IH by done. by destruct (code c =? 10)%nat.
Qed.

Lemma after_prefix_without_paren (s : pystr) :
  forallb (fun c => negb (Ascii.eqb c ")")) s = true -> Re.after_prefix s = None.
Proof.
  induction s as [|c s IH]; intros Hs; cbn [Re.after_prefix].
  - done.
  - rewrite (lazy_group_without_paren (c :: s)) by done.
    cbn [forallb] in Hs. apply andb_true_iff in Hs as [_ Hs].
    rewrite IH by done. by destruct (isspace c).
Qed.

(** X9: an entry that opens [leafValue(] and never closes the
    parenthesis is not rejected: the pattern of line 76 does not match,
    the text is cut at its first parenthesis, and the record that comes
    back has the signal name [leafValue] and no parameter. *)
Theorem X9_unclosed_leafValue_is_a_signal_name (rest : pystr) :
  forallb (fun c => negb (Ascii.eqb c ")")) rest = true ->
  Re.match_leafValue (str "leafValue(" ++ rest) = None
  /\ entry_params (str "leafValue(" ++ rest)
     = Ok [(str "signal", VStr (str "leafValue"))].
Proof.
  intros Hrest.
  assert (Re.match_leafValue (str "leafValue(" ++ rest) = None) as Hm.
  { unfold Re.match_leafValue. rewrite startswith_app.
    by apply after_prefix_without_paren. }
  split; [exact Hm|].
  assert (entry_base (str "leafValue(" ++ rest) = str "leafValue") as Hbase.
  { unfold entry_base. rewrite Hm.
    change (str "leafValue(" ++ rest) with (str "leafValue" ++ "("%char :: rest).
    rewrite split_head; [done|]. by repeat constructor. }
  rewrite entry_params_tokens, Hbase. reflexivity.
Qed.

Lemma X9_unclosed_leafValue_is_a_signal_name_witness :
  entry_params (str "leafValue( Vout K 7")
  = Ok [(str "signal", VStr (str "leafValue"))].
Proof.
  apply (X9_unclosed_leafValue_is_a_signal_name (str " Vout K 7")). reflexivity.
Defined.

Lemma startswith_paren (p0 a b : pystr) :
  forallb (fun c => negb (Ascii.eqb c "(")) p0 = true ->
  forallb (fun c => negb (Ascii.eqb c "(")) a = true ->
  a <> p0 ->
  startswith (p0 ++ ["("%char]) (a ++ "("%char :: b) = None.
Proof.
  revert a. induction p0 as [|x p0 IH]; intros a Hp Ha Hne.
  - destruct a as [|y a]; [done|]. cbn [app startswith forallb] in *.
    apply andb_true_iff in Ha as [Hy _].
    rewrite Ascii.eqb_sym. by destruct (Ascii.eqb y "(").
  - cbn [forallb] in Hp. apply andb_true_iff in Hp as [Hx Hp].
    destruct a as [|y a]; cbn [app startswith forallb] in *.
    + by destruct (Ascii.eqb x "(").
    + apply andb_true_iff in Ha as [_ Ha].
      destruct (Ascii.eqb_spec x y) as [->|Hxy]; [|done].
      apply IH; [done..|]. congruence.
Qed.

Lemma startswith_without_paren (p0 a : pystr) :
  forallb (fun c => negb (Ascii.eqb c "(")) a = true ->
  startswith (p0 ++ ["("%char]) a = None.
Proof.
  revert a. induction p0 as [|x p0 IH]; intros a Ha.
  - destruct a as [|y a]; [done|]. cbn [app startswith forallb] in *.
    apply andb_true_iff in Ha as [Hy _].
    rewrite Ascii.eqb_sym. by destruct (Ascii.eqb y "(").
  - destruct a as [|y a]; cbn [app startswith forallb] in *; [done|].
    apply andb_true_iff in Ha as [_ Ha].
    destruct (Ascii.eqb x y); [by apply IH|done].
Qed.

Lemma forallb_not_char (c0 : ascii) (s : pystr) :
  forallb (fun c => negb (Ascii.eqb c c0)) s = true -> Forall (fun c => c <> c0) s.
Proof.
  rewrite forallb_forall, List.Forall_forall. intros H c Hc ->.
  specialize (H _ Hc). by rewrite Ascii.eqb_refl in H.
Qed.

(** X10: what follows the text of an entry is never read.  In the
    wrapped form, what follows the first closing parenthesis is
    ignored; in the bare form, what follows the first opening
    parenthesis is (the signal name [leafValue] apart, which makes the
    entry a wrapped one). *)
Theorem X10_text_after_the_entry_is_ignored :
  (forall s t : pystr,
     entry_params (str "leafValue(" ++ s ++ ")"%char :: t)
     = entry_params (str "leafValue(" ++ s ++ [")"%char]))
  /\ (forall a b : pystr,
        forallb (fun c => negb (Ascii.eqb c "(")) a = true ->
        a <> str "leafValue" ->
        entry_params (a ++ "("%char :: b) = entry_params a).
Proof.
  assert (forall e1 e2, entry_base e1 = entry_base e2 -> entry_params e1 = entry_params e2)
    as Hbase by (intros e1 e2 H; unfold entry_params; by rewrite H).
  split.
  - intros s t. apply Hbase. unfold entry_base, Re.match_leafValue.
    rewrite !startswith_app, after_prefix_app.
    destruct (Re.after_prefix (s ++ [")"%char])); [done|].
    change (str "leafValue(" ++ ?x) with (str "leafValue" ++ "("%char :: x).
    by rewrite !split_head by (by repeat constructor).
  - intros a b Ha Hne. apply Hbase. unfold entry_base, Re.match_leafValue.
    change (str "leafValue(") with (str "leafValue" ++ ["("%char]).
    rewrite startswith_paren by done.
    rewrite startswith_without_paren by done.
    rewrite split_head by (by apply forallb_not_char).
    by rewrite split_single by (by apply forallb_not_char).
Qed.

(** ** Quotes that are not closed *)

Lemma quote_char (q : ascii) :
  Shlex.quotes q = true -> Shlex.whitespace q = false /\ Shlex.escape q = false.
Proof.
  unfold Shlex.quotes. intros [H|H]%orb_true_iff; apply Ascii.eqb_eq in H; by subst.
Qed.

Lemma tokens_in_open_quote (q : ascii) (post : pystr) :
  Forall (fun c => c <> q /\ Shlex.escape c = false) post ->
  forall (e : Shlex.lexstate) (tok : pystr) (qd : bool),
    Shlex.tokens (Shlex.InQuote q) e tok qd post
    = Raise (ValueError "No closing quotation").
Proof.
  induction 1 as [|c post [Hc He] _ IH]; intros e tok qd; cbn [Shlex.tokens]; [done|].
  assert (Ascii.eqb c q = false) as -> by (by apply Ascii.eqb_neq).
  rewrite He. cbn [andb]. apply IH.
Qed.

Lemma tokens_to_open_quote (q : ascii) (pre post : pystr) :
  Shlex.quotes q = true ->
  Forall (fun c => Shlex.quotes c = false /\ Shlex.escape c = false) pre ->
  Forall (fun c => c <> q /\ Shlex.escape c = false) post ->
  forall (st e : Shlex.lexstate) (tok : pystr) (qd : bool),
    st = Shlex.InSpace \/ st = Shlex.InWord ->
    Shlex.tokens st e tok qd (pre ++ q :: post)
    = Raise (ValueError "No closing quotation").
Proof.
  intros Hq Hpre Hpost. destruct (quote_char q Hq) as [Hqw Hqe].
  induction Hpre as [|c pre [Hcq Hce] _ IH]; intros st e tok qd Hst; cbn [app Shlex.tokens].
  - destruct Hst as [-> | ->]; rewrite Hqw, ?Hqe, Hq; by apply tokens_in_open_quote.
  - assert (forall e' tok' qd',
              Shlex.tokens Shlex.InSpace e' tok' qd' (pre ++ q :: post)
              = Raise (ValueError "No closing quotation")) as IHs
      by (intros; apply IH; by left).
    assert (forall e' tok' qd',
              Shlex.tokens Shlex.InWord e' tok' qd' (pre ++ q :: post)
              = Raise (ValueError "No closing quotation")) as IHw
      by (intros; apply IH; by right).
    destruct Hst as [-> | ->]; rewrite Hcq, Hce;
      destruct (Shlex.whitespace c);
      repeat match goal with
             | |- context [if ?b then _ else _] => destruct b
             end;
      by rewrite ?IHs, ?IHw.
Qed.

(** X11: an entry whose text has a quote that is never closed (a name
    with an apostrophe, say) raises [ValueError] from [shlex.split]
    with the message [No closing quotation]. *)
Theorem X11_unclosed_quote_raises
    (ent pre post : pystr) (q : ascii) :
  entry_base ent = pre ++ q :: post ->
  Shlex.quotes q = true ->
  Forall (fun c => Shlex.quotes c = false /\ Shlex.escape c = false) pre ->
  Forall (fun c => c <> q /\ Shlex.escape c = false) post ->
  entry_params ent = Raise (ValueError "No closing quotation").
Proof.
  intros Hbase Hq Hpre Hpost. rewrite entry_params_tokens, Hbase.
  unfold Shlex.split. rewrite tokens_to_open_quote by (done || by left). done.
Qed.

Lemma X11_unclosed_quote_raises_witness :
  entry_params (str "Vout' K 7 (V)") = Raise (ValueError "No closing quotation").
Proof.
  apply (X11_unclosed_quote_raises _ (str "Vout") (str " K 7") "'").
  - reflexivity.
  - reflexivity.
  - by repeat constructor.
  - by repeat constructor.
Defined.

End OneEntry.

(* ================================================================== *)
(** * Further properties of load_cadence_vcsv: quoted names *)
(* ================================================================== *)

Section QuotedNames.

Lemma name_char_spec (c : ascii) :
  name_char c = true -> quoted_char c /\ entry_char c.
Proof.
  unfold name_char, quoted_char, entry_char.
  intros H. repeat (apply andb_true_iff in H as [H ?]).
  repeat match goal with
         | H : negb _ = true |- _ => apply negb_true_iff in H
         end.
  repeat match goal with
         | H : Ascii.eqb _ _ = false |- _ => apply Ascii.eqb_neq in H
         end.
  repeat split; try done. by apply Nat.eqb_neq.
Qed.

Lemma plain_char_entry (c : ascii) : plain_char c = true -> entry_char c.
Proof.
  intros H. assert (inner_char c) as Hi by (by left).
  apply inner_char_spec in Hi as (? & ? & ? & ?). by repeat split.
Qed.

Lemma quoted_inner_items (signal : pystr) (kvs : list (pystr * pystr)) :
  quoted_inner signal kvs
  = dquote :: signal ++ dquote
    :: flat_map (fun item => " "%char :: rendered item) (wrapped_items kvs).
Proof.
  unfold quoted_inner. do 2 f_equal. f_equal.
  induction kvs as [|[k t] kvs IH]; [done|].
  cbn [flat_map wrapped_items app rendered fst snd]. rewrite IH.
  by rewrite <- !app_assoc.
Qed.

Lemma quotable_items (kvs : list (pystr * pystr)) :
  quotable kvs -> Forall renderable (wrapped_items kvs).
Proof.
  intros [_ H]. induction H as [|[k t] kvs (Hk & Ht & _) _ IH]; [constructor|].
  cbn [wrapped_items flat_map app fst snd] in *.
  constructor; [|constructor; [|exact IH]].
  - unfold renderable. cbn [fst snd].
    rewrite forallb_forall in Hk. apply List.Forall_forall. intros c Hc.
    by apply name_char_spec, Hk.
  - unfold renderable. cbn [fst snd].
    by apply plain_word_chars in Ht as (? & ? & _).
Qed.

Lemma split_quoted_inner (signal : pystr) (kvs : list (pystr * pystr)) :
  forallb name_char signal = true -> quotable kvs ->
  Shlex.split (quoted_inner signal kvs)
  = Ok (signal :: flat_map (fun '(k, t) => [k; t]) kvs).
Proof.
  intros Hs Hkvs. rewrite quoted_inner_items. unfold Shlex.split.
  cbn [Shlex.tokens]. change (Shlex.whitespace dquote) with false.
  change (Shlex.escape dquote) with false. change (Shlex.quotes dquote) with true.
  cbn iota. rewrite tokens_in_quote.
  - rewrite tokens_items; [|by apply quotable_items|by right].
    cbn [app]. f_equal. f_equal. by destruct (items_tokens kvs).
  - rewrite forallb_forall in Hs. apply List.Forall_forall. intros c Hc.
    by apply name_char_spec, Hs.
Qed.

(** The characters of the text, and its last one. *)
Lemma quoted_inner_shape (signal : pystr) (kvs : list (pystr * pystr)) :
  forallb name_char signal = true -> quotable kvs ->
  Forall entry_char (quoted_inner signal kvs)
  /\ exists body c, quoted_inner signal kvs = body ++ [c] /\ isspace c = false.
Proof.
  intros Hs [_ Hkvs].
  assert (entry_char dquote) as Hdq by (by repeat split).
  assert (entry_char " "%char) as Hsp by (by repeat split).
  assert (Forall entry_char signal) as Hsig.
  { rewrite forallb_forall in Hs. apply List.Forall_forall. intros c Hc.
    by apply name_char_spec, Hs. }
  unfold quoted_inner. split.
  - constructor; [done|]. apply Forall_app. split; [done|]. constructor; [done|].
    induction Hkvs as [|[k t] kvs (Hk & Ht & _) _ IH]; [constructor|].
    cbn [flat_map fst snd] in *. apply Forall_app. split; [|done].
    constructor; [done|]. constructor; [done|]. apply Forall_app. split.
    + rewrite forallb_forall in Hk. apply List.Forall_forall. intros c Hc.
      by apply name_char_spec, Hk.
    + constructor; [done|]. constructor; [done|].
      apply plain_word_spec in Ht as [_ Ht].
      eapply Forall_impl; [exact Ht|]. intros c Hc. by apply plain_char_entry.
  - assert (forall pre : pystr,
              (exists body c, pre = body ++ [c] /\ isspace c = false) ->
              exists body c,
                pre ++ flat_map (fun '(k, t) =>
                                   " "%char :: dquote :: k ++ dquote :: " "%char :: t) kvs
                = body ++ [c] /\ isspace c = false) as Hgen.
    { induction Hkvs as [|[k t] kvs (Hk & Ht & _) _ IH]; intros pre Hpre.
      - cbn [flat_map]. by rewrite app_nil_r.
      - cbn [flat_map fst snd] in *. rewrite app_assoc. apply IH.
        apply plain_word_chars in Ht as (_ & _ & _ & _ & (b & c & -> & Hc) & _).
        exists (pre ++ " "%char :: dquote :: k ++ dquote :: " "%char :: b), c.
        split; [|by apply plain_char_spec in Hc as (? & _)].
        rewrite <- app_assoc. cbn [app]. by rewrite <- app_assoc. }
    destruct (Hgen (dquote :: signal ++ [dquote])) as (body & c & E & Hc).
    + exists (dquote :: signal), dquote. by split.
    + exists body, c. split; [|done]. rewrite <- E.
      cbn [app]. f_equal. by rewrite <- app_assoc.
Qed.

Lemma entry_base_quoted_bare (signal : pystr) (kvs : list (pystr * pystr)) (units : pystr) :
  forallb name_char signal = true -> quotable kvs ->
  entry_base (quoted_bare_entry signal kvs units) = quoted_inner signal kvs.
Proof.
  intros Hs Hkvs.
  destruct (quoted_inner_shape signal kvs Hs Hkvs) as (Hin & body & c & E & Hc).
  unfold entry_base.
  assert (Re.match_leafValue (quoted_bare_entry signal kvs units) = None) as -> by done.
  unfold quoted_bare_entry.
  change (str "  (" ++ units ++ str ")")
    with (str "  " ++ "("%char :: units ++ str ")").
  rewrite app_assoc, split_head.
  - cbn [hd]. apply strip_padded.
    + unfold quoted_inner. done.
    + intros c' s' E'. unfold quoted_inner in E'. by injection E' as <- _.
    + intros s' c' E'. rewrite E in E'. by apply app_inj_tail in E' as [_ <-].
    + by repeat constructor.
  - apply Forall_app. split.
    + eapply Forall_impl; [exact Hin|]. by intros x (_ & H & _).
    + by repeat constructor.
Qed.

Lemma entry_base_quoted_wrapped (signal : pystr) (kvs : list (pystr * pystr))
    (units : pystr) :
  forallb name_char signal = true -> quotable kvs ->
  entry_base (quoted_wrapped_entry signal kvs units) = quoted_inner signal kvs.
Proof.
  intros Hs Hkvs.
  destruct (quoted_inner_shape signal kvs Hs Hkvs) as (Hin & body & c & E & Hc).
  unfold entry_base, Re.match_leafValue, quoted_wrapped_entry.
  change (str "leafValue( ") with (str "leafValue(" ++ [" "%char]).
  rewrite <- app_assoc, startswith_app. cbn [app].
  assert (Re.lazy_group (quoted_inner signal kvs ++ str " ) (" ++ units ++ str ")")
          = Some (quoted_inner signal kvs)) as Hlazy.
  { rewrite E. apply lazy_group_exact.
    - rewrite <- E. eapply Forall_impl; [exact Hin|]. by intros x (? & _ & _ & ?).
    - done.
    - reflexivity. }
  cbn [Re.after_prefix]. change (isspace " ") with true. cbn iota.
  unfold quoted_inner in *. rewrite <- app_comm_cons in *. cbn [Re.after_prefix].
  change (isspace dquote) with false. cbn iota.
  by rewrite Hlazy.
Qed.

(** X12: names between double quotes come back as single tokens,
    whatever spaces they hold.  For a signal name and parameter names
    made of characters other than the double quote, the backslash, the
    parentheses, the semicolon and the newline (the parameter names
    pairwise distinct and different from [signal]) and values written
    as plain texts of numbers, the entry with every name quoted, in the
    bare or in the wrapped form, yields the signal name and the
    parameters in order, also as the only entry of a metadata line. *)
Theorem X12_quoted_names_come_back
    (signal : pystr) (kvs : list (pystr * pystr)) (vs : list value) (units : pystr) :
  forallb name_char signal = true -> quotable kvs ->
  Forall2 (fun kt v => denotes kt.2 v) kvs vs ->
  let record := (str "signal", VStr signal) :: zip_with (fun kt v => (kt.1, v)) kvs vs in
  entry_params (quoted_bare_entry signal kvs units) = Ok record
  /\ entry_params (quoted_wrapped_entry signal kvs units) = Ok record
  /\ (Forall (fun x => x <> ";"%char) units ->
      params (raw_entries (strip (quoted_bare_entry signal kvs units))) = Ok [record]
      /\ params (raw_entries (strip (quoted_wrapped_entry signal kvs units))) = Ok [record]).
Proof.
  intros Hs Hkvs Hvs record.
  assert (pairs (flat_map (fun '(k, t) => [k; t]) kvs) [(str "signal", VStr signal)]
          = Ok record) as Hpairs.
  { rewrite (pairs_kvs kvs vs _ Hvs); [done|].
    destruct Hkvs as [Hnd Hk].
    cbn [map fst app]. apply NoDup_cons. split; [|done].
    intros Hin. apply list_elem_of_fmap in Hin as ([k t] & E & Hin).
    rewrite Forall_forall in Hk. destruct (Hk _ Hin) as (_ & _ & Hne). by cbn [fst] in *. }
  assert (entry_params (quoted_bare_entry signal kvs units) = Ok record) as Hbare.
  { rewrite entry_params_tokens, entry_base_quoted_bare, split_quoted_inner by done.
    exact Hpairs. }
  assert (entry_params (quoted_wrapped_entry signal kvs units) = Ok record) as Hwrapped.
  { rewrite entry_params_tokens, entry_base_quoted_wrapped, split_quoted_inner by done.
    exact Hpairs. }
  split; [exact Hbare|]. split; [exact Hwrapped|].
  intros Hunits.
  destruct (quoted_inner_shape signal kvs Hs Hkvs) as (Hin & _).
  assert (Forall (fun x => x <> ";"%char) (quoted_inner signal kvs)) as Hsemi
    by (eapply Forall_impl; [exact Hin|]; by intros x (_ & _ & ? & _)).
  split.
  - assert (exists body, quoted_bare_entry signal kvs units = dquote :: body ++ [")"%char])
      as (body & E).
    { unfold quoted_bare_entry.
      change (str "  (" ++ units ++ str ")") with ((str "  (" ++ units) ++ [")"%char]).
      rewrite app_assoc. unfold quoted_inner at 1. rewrite <- !app_comm_cons.
      by eexists. }
    rewrite E, raw_entries_single, <- E.
    + unfold params. cbn [for_each]. by rewrite Hbare.
    + done.
    + rewrite <- E. unfold quoted_bare_entry. apply Forall_app. split; [done|].
      apply Forall_app. split; [by repeat constructor|].
      apply Forall_app. split; [done|by repeat constructor].
  - assert (exists body,
              quoted_wrapped_entry signal kvs units = "l"%char :: body ++ [")"%char])
      as (body & E).
    { unfold quoted_wrapped_entry.
      exists (str "eafValue( " ++ quoted_inner signal kvs ++ str " ) (" ++ units).
      change (str "leafValue( ") with ("l"%char :: str "eafValue( ").
      cbn [app]. f_equal. rewrite <- !app_assoc. done. }
    rewrite E, raw_entries_single, <- E.
    + unfold params. cbn [for_each]. by rewrite Hwrapped.
    + done.
    + rewrite <- E. unfold quoted_wrapped_entry. apply Forall_app. split; [by repeat constructor|].
      apply Forall_app. split; [done|].
      apply Forall_app. split; [by repeat constructor|].
      apply Forall_app. split; [done|by repeat constructor].
Qed.

Lemma X12_quoted_names_come_back_witness :
  entry_params (str "leafValue( " ++ [dquote] ++ str "V out 2" ++ [dquote] ++ str " "
                ++ [dquote] ++ str "clk delay" ++ [dquote] ++ str " 7 ) (V)")
  = Ok [(str "signal", VStr (str "V out 2")); (str "clk delay", VInt 7)].
Proof.
  assert (quotable [(str "clk delay", str "7")]) as Hq.
  { split; [apply NoDup_singleton|].
    constructor; [|constructor]. split; [reflexivity|]. split; [reflexivity|discriminate]. }
  assert (Forall2 (fun kt v => denotes kt.2 v) [(str "clk delay", str "7")] [VInt 7]) as Hv
    by (repeat constructor).
  exact (proj1 (proj2 (X12_quoted_names_come_back (str "V out 2") [(str "clk delay", str "7")]
                         [VInt 7] (str "V") eq_refl Hq Hv))).
Defined.

End QuotedNames.

(* ================================================================== *)
(** * Further properties of load_cadence_vcsv: the whole call *)
(* ================================================================== *)

Section WholeCall.

Lemma getitem_lookup {A} (l : list A) (j : nat) (x : A) :
  l !! j = Some x ->
  getitem l (Z.of_nat j) = Ok x
  /\ getitem l (Z.of_nat j - Z.of_nat (length l)) = Ok x.
Proof.
  intros Hj. pose proof (lookup_lt_Some _ _ _ Hj) as Hlt. unfold getitem. split.
  - destruct (Z.ltb_spec (Z.of_nat j) 0) as [|_]; [lia|].
    destruct (Z.leb_spec 0 (Z.of_nat j)) as [_|]; [|lia].
    destruct (Z.ltb_spec (Z.of_nat j) (Z.of_nat (length l))) as [_|]; [|lia].
    cbn [andb]. by rewrite Nat2Z.id, Hj.
  - destruct (Z.ltb_spec (Z.of_nat j - Z.of_nat (length l)) 0) as [_|]; [|lia].
    replace (Z.of_nat j - Z.of_nat (length l) + Z.of_nat (length l))%Z
      with (Z.of_nat j) by lia.
    destruct (Z.leb_spec 0 (Z.of_nat j)) as [_|]; [|lia].
    destruct (Z.ltb_spec (Z.of_nat j) (Z.of_nat (length l))) as [_|]; [|lia].
    cbn [andb]. by rewrite Nat2Z.id, Hj.
Qed.

Lemma getitem_out_of_range {A} (l : list A) (i : Z) :
  (i < - Z.of_nat (length l) \/ Z.of_nat (length l) <= i)%Z ->
  getitem l i = Raise (IndexError "list index out of range").
Proof.
  intros Hi. unfold getitem.
  destruct (Z.ltb_spec i 0).
  - destruct (Z.leb_spec 0 (i + Z.of_nat (length l))); [lia|done].
  - destruct (Z.ltb_spec i (Z.of_nat (length l))); [lia|].
    by rewrite andb_false_r.
Qed.

(** X13: of the lines of the file, the call reads the one at
    [metadata_row] only, counted from one; [metadata_row <= 0] counts
    from the end of the file ([0] is the last line).  When the file has
    no such line the call raises [IndexError], whatever the numeric
    block holds. *)
Theorem X13_only_the_metadata_line_is_read
    (lines : list pystr) (read_csv : Z -> result raw_frame) (skiprows : Z) :
  (forall metadata_row : Z,
     (metadata_row - 1 < - Z.of_nat (length lines)
      \/ Z.of_nat (length lines) <= metadata_row - 1)%Z ->
     load_cadence_vcsv lines read_csv metadata_row skiprows
     = Raise (IndexError "list index out of range"))
  /\ (forall (j : nat) (line : pystr),
        lines !! j = Some line ->
        load_cadence_vcsv lines read_csv (Z.of_nat j + 1) skiprows
        = load_cadence_vcsv [line] read_csv 1 skiprows
        /\ load_cadence_vcsv lines read_csv (Z.of_nat j + 1 - Z.of_nat (length lines)) skiprows
           = load_cadence_vcsv [line] read_csv 1 skiprows).
Proof.
  split.
  - intros metadata_row Hrow. unfold load_cadence_vcsv.
    by rewrite getitem_out_of_range.
  - intros j line Hj. destruct (getitem_lookup lines j line Hj) as [H1 H2].
    unfold load_cadence_vcsv.
    replace (Z.of_nat j + 1 - 1)%Z with (Z.of_nat j) by lia.
    replace (Z.of_nat j + 1 - Z.of_nat (length lines) - 1)%Z
      with (Z.of_nat j - Z.of_nat (length lines))%Z by lia.
    rewrite H1, H2. done.
Qed.

Lemma column_None_iff (cols : list (pystr * list cell)) (k : pystr) :
  column cols k = None <-> ~ In k (map fst cols).
Proof.
  induction cols as [|[k0 c0] cols IH]; cbn [column map fst In]; [tauto|].
  destruct (Str.eqb k0 k) eqn:E.
  - apply eqb_eq in E. split; [done|]. intros H. exfalso. apply H. by left.
  - apply eqb_neq in E. rewrite IH. tauto.
Qed.

Lemma concat_labels (subs : list frame) (out : frame) :
  concat subs = Ok out -> map fst (columns out) = union_labels subs.
Proof.
  destruct subs as [|f subs]; [done|]. cbn [concat]. intros [= <-].
  cbn [columns]. rewrite map_map. cbn [fst]. apply map_id.
Qed.

Lemma base_labels_spec (k : pystr) :
  In k base_labels
  <-> Str.eqb k (str "signal") = true \/ Str.eqb k (str "time") = true
      \/ Str.eqb k (str "value") = true \/ Str.eqb k (str "channel") = true.
Proof.
  unfold base_labels. cbn [In]. rewrite !eqb_eq.
  split; intros H; repeat destruct H as [H|H]; auto; done.
Qed.

(** X14: the columns of the table are the four of every channel and
    the names of the parameters of all the records; in a column named
    after a parameter, the rows of a channel whose record lacks this
    parameter hold the missing value. *)
Theorem X14_missing_parameters_are_NaN
    (lines : list pystr) (read_csv : Z -> result raw_frame)
    (metadata_row skiprows : Z) (line : pystr) (ps : list dict)
    (df : raw_frame) (R : nat) :
  getitem lines (metadata_row - 1) = Ok line ->
  params (raw_entries (strip line)) = Ok ps ->
  read_csv skiprows = Ok df ->
  rectangular df R -> 0 < length ps -> 2 * length ps <= raw_ncols df ->
  exists out : frame,
    load_cadence_vcsv lines read_csv metadata_row skiprows = Ok out
    /\ (forall k : pystr,
          In k (map fst (columns out))
          <-> In k base_labels \/ exists prm, In prm ps /\ dict_get prm k <> None)
    /\ forall (i r : nat) (prm : dict) (k : pystr),
         ps !! i = Some prm -> r < R ->
         In k (map fst (columns out)) -> ~ In k base_labels ->
         dict_get prm k = None ->
         at_ out k (i * R + r) = Some CNaN.
Proof.
  intros Hline Hps Hdf Hrect HM Hcols. unfold raw_ncols in Hcols.
  pose proof (params_wf _ _ Hps) as Hwf.
  destruct (load_ok_of_enough_columns _ _ _ _ _ _ _ Hline Hps Hdf HM Hcols) as [Heq _].
  set (subs := map (fun '(idx, prm) => channel_frame df idx prm) (enumerate ps)) in *.
  assert (forall i prm, ps !! i = Some prm ->
            wf_record prm /\ 2 * i + 1 < length df
            /\ subs !! i = Some (channel_frame df i prm)) as Hrec.
  { intros i prm Hi. split; [|split].
    - rewrite Forall_forall in Hwf. apply Hwf. by apply list_elem_of_lookup_2 in Hi.
    - apply lookup_lt_Some in Hi. lia.
    - unfold subs. by rewrite list_lookup_fmap, (enumerate_lookup ps i prm Hi). }
  assert (Forall (has_rows R) subs) as Hrows.
  { apply Forall_forall. intros f Hf.
    apply list_elem_of_fmap in Hf as ([idx prm] & -> & Hin).
    apply list_elem_of_In, enumerate_In in Hin as [Hidx Hprm].
    destruct (Hrec _ _ Hprm) as (Hw & Hlt & _). by apply channel_frame_spec. }
  assert (length subs = length ps) as Hlen
    by (unfold subs; by rewrite length_map, length_enumerate).
  destruct (concat_uniform subs R) as (out & Hout & _ & Hat).
  { intros E. rewrite E in Hlen. simpl in Hlen. lia. }
  { done. }
  assert (forall i prm k, ps !! i = Some prm ->
            column (columns (channel_frame df i prm)) k <> None
            <-> In k base_labels \/ dict_get prm k <> None) as Hcolumn.
  { intros i prm k Hi. destruct (Hrec _ _ Hi) as (Hw & Hlt & _).
    destruct (channel_frame_spec df R i prm Hrect Hw Hlt) as [_ ->].
    rewrite base_labels_spec.
    destruct (lookup_lt_is_Some_2 df (2 * i) ltac:(lia)) as (c1 & ->).
    destruct (lookup_lt_is_Some_2 df (2 * i + 1) Hlt) as (c2 & ->).
    destruct (Str.eqb k (str "signal")); [by split; auto|].
    destruct (dict_get prm k); [by split; auto|].
    destruct (Str.eqb k (str "time")); [by split; auto|].
    destruct (Str.eqb k (str "value")); [by split; auto|].
    destruct (Str.eqb k (str "channel")); [by split; auto|].
    split; [done|]. by intros [[|[|[|]]]|]. }
  exists out. split; [congruence|]. split.
  - intros k. rewrite (concat_labels _ _ Hout), union_labels_In. split.
    + intros (f & Hf & Hk). apply list_elem_of_In in Hf.
      apply list_elem_of_fmap in Hf as ([idx prm] & -> & Hin).
      apply list_elem_of_In, enumerate_In in Hin as [Hidx Hprm].
      assert (column (columns (channel_frame df idx prm)) k <> None) as Hc
        by (by rewrite column_None_iff; auto).
      apply (Hcolumn _ _ _ Hprm) in Hc as [Hb|Hd]; [by left|].
      right. exists prm. split; [|done].
      apply list_elem_of_In. by apply list_elem_of_lookup_2 in Hprm.
    + intros Hk.
      assert (exists i prm, ps !! i = Some prm
                /\ (In k base_labels \/ dict_get prm k <> None)) as (i & prm & Hi & Hc).
      { destruct Hk as [Hb|(prm & Hin & Hd)].
        - destruct ps as [|prm ps']; [simpl in HM; lia|]. exists 0, prm. by split; [|left].
        - apply list_elem_of_In, list_elem_of_lookup_1 in Hin as (i & Hi).
          exists i, prm. by split; [|right]. }
      destruct (Hrec _ _ Hi) as (_ & _ & Hsub).
      exists (channel_frame df i prm). split.
      * apply list_elem_of_In. by apply list_elem_of_lookup_2 in Hsub.
      * apply (Hcolumn _ _ k Hi) in Hc.
        destruct (column (columns (channel_frame df i prm)) k) as [c|] eqn:E; [|done].
        by apply column_Some_In in E.
  - intros i r prm k Hi Hr Hk Hnb Hnone.
    destruct (Hrec _ _ Hi) as (_ & _ & Hsub).
    rewrite (Hat i r _ k Hsub Hr).
    destruct (column (columns (channel_frame df i prm)) k) as [c|] eqn:E.
    + assert (column (columns (channel_frame df i prm)) k <> None) as Hc by congruence.
      apply (Hcolumn _ _ _ Hi) in Hc as [Hb|Hd]; done.
    + rewrite (concat_labels _ _ Hout) in Hk.
      apply existsb_eqb_In in Hk. by rewrite Hk.
Qed.

Lemma X14_missing_parameters_are_NaN_witness :
  exists out : frame,
    load_cadence_vcsv [str "header"; str "Vout K 7 (V); Vin gain 0.5 (V)"]
      (fun _ => Ok [[CInt 0; CInt 1]; [CInt 10; CInt 11];
                    [CInt 0; CInt 1]; [CInt 20; CInt 21]]) 2 6 = Ok out
    /\ at_ out (str "gain") 1 = Some CNaN
    /\ at_ out (str "K") 2 = Some CNaN.
Proof.
  destruct (X14_missing_parameters_are_NaN
              [str "header"; str "Vout K 7 (V); Vin gain 0.5 (V)"]
              (fun _ => Ok [[CInt 0; CInt 1]; [CInt 10; CInt 11];
                            [CInt 0; CInt 1]; [CInt 20; CInt 21]]) 2 6
              (str "Vout K 7 (V); Vin gain 0.5 (V)")
              [[(str "signal", VStr (str "Vout")); (str "K", VInt 7)];
               [(str "signal", VStr (str "Vin"));
                (str "gain", VFloat (S754_finite false 4503599627370496 (-53)))]]
              [[CInt 0; CInt 1]; [CInt 10; CInt 11]; [CInt 0; CInt 1]; [CInt 20; CInt 21]]
              2)
    as (out & Hout & Hlabels & Hnan).
  - reflexivity.
  - by vm_compute.
  - reflexivity.
  - by repeat constructor.
  - simpl. lia.
  - simpl. lia.
  - exists out. split; [exact Hout|]. split.
    + apply (Hnan 0 1 [(str "signal", VStr (str "Vout")); (str "K", VInt 7)] (str "gain"));
        [reflexivity | lia | | | reflexivity].
      * apply Hlabels. right. eexists. split; [right; left; reflexivity|]. by vm_compute.
      * unfold base_labels. simpl. intros [H|[H|[H|[H|[]]]]]; discriminate H.
    + apply (Hnan 1 0 [(str "signal", VStr (str "Vin"));
                        (str "gain", VFloat (S754_finite false 4503599627370496 (-53)))]
               (str "K")); [reflexivity | lia | | | reflexivity].
      * apply Hlabels. right. eexists. split; [left; reflexivity|]. by vm_compute.
      * unfold base_labels. simpl. intros [H|[H|[H|[H|[]]]]]; discriminate H.
Defined.

(** ** The exceptions of a call *)

Lemma tokens_raise_inv (s : pystr) :
  forall (st e : Shlex.lexstate) (tok : pystr) (qd : bool) (ex : exn),
    Shlex.tokens st e tok qd s = Raise ex ->
    ex = ValueError "No closing quotation" \/ ex = ValueError "No escaped character".
Proof.
  induction s as [|c s IH]; intros st e tok qd ex; cbn [Shlex.tokens].
  - destruct st; intros [= <-]; auto; done.
  - destruct st.
    + destruct (Shlex.whitespace c).
      * destruct (negb (length tok =? 0) || qd); [|by apply IH].
        destruct (Shlex.tokens Shlex.InSpace Shlex.InSpace [] false s) eqn:E; [done|].
        intros [= <-]. by eapply IH.
      * destruct (Shlex.escape c); [by apply IH|].
        destruct (Shlex.quotes c); by apply IH.
    + destruct (Shlex.whitespace c).
      * destruct (negb (length tok =? 0) || qd); [|by apply IH].
        destruct (Shlex.tokens Shlex.InSpace Shlex.InSpace [] false s) eqn:E; [done|].
        intros [= <-]. by eapply IH.
      * destruct (Shlex.quotes c); [by apply IH|].
        destruct (Shlex.escape c); by apply IH.
    + destruct (Ascii.eqb c q); [by apply IH|].
      destruct (Shlex.escape c && Shlex.escapedquotes q); by apply IH.
    + by apply IH.
Qed.

Lemma pairs_raise_inv (rest : list pystr) :
  forall (p : dict) (e : exn),
    pairs rest p = Raise e ->
    e = IndexError "list index out of range" \/ exists val, e = float_error val.
Proof.
  induction rest as [| x | key val rest IH] using list_pair_ind; intros p e.
  - done.
  - cbn. intros [= <-]. by left.
  - cbn [pairs]. destruct (number val) as [v|e0] eqn:Hval; cbn [rbind].
    + apply IH.
    + intros [= <-]. right. exists val. by apply number_raises.
Qed.

Lemma entry_params_raise_inv (ent : pystr) (e : exn) :
  entry_params ent = Raise e ->
  e = IndexError "list index out of range"
  \/ e = ValueError "No closing quotation" \/ e = ValueError "No escaped character"
  \/ exists val, e = float_error val.
Proof.
  rewrite entry_params_tokens.
  destruct (Shlex.split (entry_base ent)) as [parts|e0] eqn:Hs; cbn [rbind].
  - destruct parts as [|signal rest].
    + intros [= <-]. by left.
    + intros H. apply pairs_raise_inv in H as [-> | H]; auto.
  - intros [= <-]. apply tokens_raise_inv in Hs as [-> | ->]; auto.
Qed.

Lemma for_each_raise_inv {A B} (f : A -> result B) (l : list A) (e : exn) :
  for_each f l = Raise e -> exists x, In x l /\ f x = Raise e.
Proof.
  induction l as [|x l IH]; cbn [for_each]; [done|].
  destruct (f x) as [y|e0] eqn:Hx; cbn [rbind].
  - destruct (for_each f l) as [ys|e1]; cbn [rbind]; [done|].
    intros [= <-]. destruct (IH eq_refl) as (x' & Hin & Hx'). exists x'. split; [by right|done].
  - intros [= <-]. exists x. split; [by left|done].
Qed.

(** X15: the exceptions a call can raise.  Whatever the path and the
    file, a call that raises does so with the exception of [open] or
    of [f.readlines()] (the file cannot be opened or decoded), the
    [IndexError] of a list index (no line [metadata_row], an entry
    without token or a name without value), the [ValueError] of
    [shlex.split] (a quote or an escape that is not closed), the
    [ValueError] of [float] on a value, the exception of
    [pd.read_csv], the [IndexError] of [iloc] (fewer than two columns
    for a record) or the [ValueError] of [pd.concat] (no record); the
    [KeyError] of line 112 is never raised. *)
Theorem X15_exceptions_of_a_call
    (readlines : result (list pystr)) (read_csv : Z -> result raw_frame)
    (metadata_row skiprows : Z) (e : exn) :
  load_cadence_vcsv_file readlines read_csv metadata_row skiprows = Raise e ->
  readlines = Raise e
  \/ e = IndexError "list index out of range"
  \/ e = ValueError "No closing quotation"
  \/ e = ValueError "No escaped character"
  \/ (exists val, e = float_error val)
  \/ read_csv skiprows = Raise e
  \/ e = IndexError "single positional indexer is out-of-bounds"
  \/ e = ValueError "No objects to concatenate".
Proof.
  unfold load_cadence_vcsv_file.
  destruct readlines as [lines|e0]; cbn [rbind]; [|intros [= <-]; by left].
  intros H. right. revert H.
  unfold load_cadence_vcsv.
  destruct (getitem lines (metadata_row - 1)) as [line|e0] eqn:Hline; cbn [rbind].
  2:{ intros [= <-]. unfold getitem in Hline.
      repeat match type of Hline with
             | context [if ?b then _ else _] => destruct b
             | context [match ?o with Some _ => _ | None => _ end] => destruct o
             end; try done; injection Hline as <-; by left. }
  destruct (params (raw_entries (strip line))) as [ps|e0] eqn:Hps; cbn [rbind].
  2:{ intros [= <-]. apply for_each_raise_inv in Hps as (ent & _ & Hent).
      apply entry_params_raise_inv in Hent as [-> | [-> | [-> | H]]]; auto 10. }
  destruct (read_csv skiprows) as [df|e0] eqn:Hdf; cbn [rbind].
  2:{ intros [= <-]. auto 10. }
  pose proof (params_wf _ _ Hps) as Hwf.
  destruct (long_df df ps) as [subs|e0] eqn:Hlong; cbn [rbind].
  2:{ intros [= <-]. destruct (Nat.le_gt_cases (2 * length ps) (length df)) as [Hle|Hgt].
      - by rewrite long_df_ok in Hlong.
      - rewrite long_df_raises in Hlong by done. injection Hlong as <-. auto 10. }
  destruct subs as [|f subs]; cbn [concat]; [|done].
  intros [= <-]. auto 10.
Qed.

Lemma X15_exceptions_of_a_call_witness :
  load_cadence_vcsv_file (Ok [str "header"; str "Vout gain 0x10 (V)"])
    (fun _ => Ok [[CInt 0]; [CInt 1]]) 2 6
  = Raise (float_error (str "0x10"))
  /\ load_cadence_vcsv_file (Raise (OSError "[Errno 2] No such file or directory"))
       (fun _ => Raise (OSError "[Errno 2] No such file or directory")) 2 6
     = Raise (OSError "[Errno 2] No such file or directory")
  /\ (Ok [str "header"; str "Vout gain 0x10 (V)"] = Raise (float_error (str "0x10"))
      \/ float_error (str "0x10") = IndexError "list index out of range"
      \/ float_error (str "0x10") = ValueError "No closing quotation"
      \/ float_error (str "0x10") = ValueError "No escaped character"
      \/ (exists val, float_error (str "0x10") = float_error val)
      \/ Ok [[CInt 0]; [CInt 1]] = Raise (float_error (str "0x10"))
      \/ float_error (str "0x10")
         = IndexError "single positional indexer is out-of-bounds"
      \/ float_error (str "0x10") = ValueError "No objects to concatenate").
Proof.
  assert (load_cadence_vcsv_file (Ok [str "header"; str "Vout gain 0x10 (V)"])
            (fun _ => Ok [[CInt 0]; [CInt 1]]) 2 6
          = Raise (float_error (str "0x10"))) as H by (by vm_compute).
  split; [exact H|]. split; [reflexivity|].
  exact (X15_exceptions_of_a_call _ (fun _ => Ok [[CInt 0]; [CInt 1]]) 2 6 _ H).
Defined.

End WholeCall.
